(** * discord-notifier: rate limiting, retrying and interaction deadlines

    A shallow embedding of

      - [src/utils/RetryHandler.ts]          (class [RetryHandler]),
      - [src/services/RateLimitService.ts]   (class [RateLimitService]),
      - [src/services/InteractionService.ts] (method [handleInteraction]),
      - [src/errors/DiscordErrors.ts]        (the error constructors used above),

    together with the properties the specification states about them.

    Modelling conventions.
      - A JavaScript [number] is a rational ([Q]) with exact arithmetic:
        [NaN], the infinities and IEEE rounding are outside the model.
        [===] on numbers and [Set.has] are [Qeq_bool].
      - [maxRetries] and the loop counter [attempt] are integers ([Z]).
      - An [async] function is a state transformer that may fail to settle
        ([None]), returns or throws, and emits a trace of the suspensions
        ([sleep]) and operation invocations it performs.  The code between
        two [await]s runs without interleaving and reads one clock value.
      - Recursion the source does not bound ([acquireFromBucket]) takes a
        fuel argument, and so does the retry loop, whose fuel [execute]
        fixes itself; [execute_settles] and [acquireToken_settles] show
        that fuel never is what stops them.
      - The service is modelled twice from the same pieces: as methods of
        one caller at a time, and as histories of the uninterrupted pieces
        that any number of callers interleave ([RateLimitService.run]).
      - Console output ([debug] logging, [console.error]) is not modelled;
        it never influences control flow.  The inherited [message] of a
        [RateLimitError] (a formatted number) is not modelled either. *)

From Stdlib Require Import QArith Qround Qminmax Qpower Lqa ZArith Lia List String.
From stdpp Require Import base option gmap strings.
Import ListNotations.

Local Open Scope string_scope.
Local Open Scope list_scope.
Local Open Scope Z_scope.

(** ** JavaScript values as the code inspects them *)

Module Js.

(** Values found in the properties the code probes. [JOpaque] stands for any
    other value (object, function, symbol): truthy, neither a number nor a
    string. *)
Inductive Prim : Type :=
| JUndefined
| JNull
| JBool (b : bool)
| JNum (n : Q)
| JStr (s : string)
| JOpaque.

(** The constructor an object was built with, as far as [instanceof] and the
    constructors of [DiscordErrors.ts] tell them apart. *)
Inductive Class : Type :=
| PlainObject
| ErrorClass
| RateLimitErrorClass
| InteractionTimeoutErrorClass.

Record Object : Type := mkObject {
  class_of : Class;
  props : gmap string Prim
}.

(** Anything a [catch] clause can receive ([unknown]). *)
Inductive Value : Type :=
| VPrim (p : Prim)
| VObj (o : Object).

(** [key in o] *)
Definition has_prop (key : string) (o : Object) : bool :=
  bool_decide (is_Some (props o !! key)).

(** [o.key] *)
Definition get_prop (key : string) (o : Object) : Prim :=
  default JUndefined (props o !! key).

(** [v.key] for an arbitrary non-nullish value: primitives have none of the
    probed properties. *)
Definition member (key : string) (v : Value) : Prim :=
  match v with
  | VObj o => get_prop key o
  | VPrim _ => JUndefined
  end.

(** ToBoolean *)
Definition truthy_prim (p : Prim) : bool :=
  match p with
  | JUndefined | JNull => false
  | JBool b => b
  | JNum n => negb (Qeq_bool n 0)
  | JStr s => negb (String.eqb s "")
  | JOpaque => true
  end.

Definition truthy (v : Value) : bool :=
  match v with
  | VPrim p => truthy_prim p
  | VObj _ => true
  end.

(** [v === n] for a number literal [n] *)
Definition strict_eq_num (p : Prim) (n : Q) : bool :=
  match p with
  | JNum m => Qeq_bool m n
  | _ => false
  end.

(** [v === null || v === undefined], the test behind [??] *)
Definition nullish (v : Value) : bool :=
  match v with
  | VPrim JUndefined | VPrim JNull => true
  | _ => false
  end.

End Js.

Import Js.

(** ** Errors of [DiscordErrors.ts] *)

(** [new RateLimitError(retryAfter, channelId)] *)
Definition RateLimitError (retryAfter : Q) (channelId : option string) : Value :=
  VObj {| class_of := RateLimitErrorClass;
          props := <["name" := JStr "RateLimitError"]>
                   (<["retryAfter" := JNum retryAfter]>
                   (<["channelId" := from_option JStr JUndefined channelId]> ∅)) |}.

(** [new InteractionTimeoutError(customId)] *)
Definition InteractionTimeoutError (customId : string) : Value :=
  VObj {| class_of := InteractionTimeoutErrorClass;
          props := <["name" := JStr "InteractionTimeoutError"]>
                   (<["message" := JStr (String.append "Interaction timed out for button: "
                                           (String.append customId
                                              ". Must acknowledge within 3 seconds."))]>
                   (<["customId" := JStr customId]> ∅)) |}.

(** [new Error(message)] *)
Definition PlainError (message : string) : Value :=
  VObj {| class_of := ErrorClass;
          props := <["name" := JStr "Error"]> (<["message" := JStr message]> ∅) |}.

(** [error instanceof RateLimitError] *)
Definition instanceof_RateLimitError (error : Value) : bool :=
  match error with
  | VObj o => match class_of o with RateLimitErrorClass => true | _ => false end
  | VPrim _ => false
  end.

(** ** Asynchronous computations *)

(** What a run leaves behind: every suspension and every invocation of the
    operation handed to [RetryHandler.execute], the latter with what the
    invocation threw ([None] when it returned) and the events it emitted
    itself. *)
#[warnings="-register-all"]
Inductive Event : Type :=
| EvSleep (ms : Q)
| EvCall (threw : option Value) (inner : list Event).

Inductive Completion (A : Type) : Type :=
| Return (a : A)
| Throw (e : Value).
Arguments Return {A} a.
Arguments Throw {A} e.

(** The clock and the timers of the host. [wake ms s] is the state in which a
    caller suspended by [setTimeout(resolve, ms)] resumes. *)
Class Runtime (S : Type) : Type := {
  Date_now : S -> Q;
  wake : Q -> S -> S
}.

Definition Async (S A : Type) : Type :=
  S -> option (Completion A * S * list Event).

Section AsyncMonad.
Context {S : Type}.

Definition ret {A} (a : A) : Async S A :=
  fun s => Some (Return a, s, []).

Definition throw {A} (e : Value) : Async S A :=
  fun s => Some (Throw e, s, []).

Definition never {A} : Async S A :=
  fun _ => None.

Definition bind {A B} (m : Async S A) (k : A -> Async S B) : Async S B :=
  fun s =>
    match m s with
    | None => None
    | Some (Throw e, s1, t1) => Some (Throw e, s1, t1)
    | Some (Return a, s1, t1) =>
        match k a s1 with
        | None => None
        | Some (r, s2, t2) => Some (r, s2, t1 ++ t2)
        end
    end.

(** [try { m } catch (e) { h e }] *)
Definition try_catch {A} (m : Async S A) (h : Value -> Async S A) : Async S A :=
  fun s =>
    match m s with
    | None => None
    | Some (Return a, s1, t1) => Some (Return a, s1, t1)
    | Some (Throw e, s1, t1) =>
        match h e s1 with
        | None => None
        | Some (r, s2, t2) => Some (r, s2, t1 ++ t2)
        end
    end.

Definition gets {A} (f : S -> A) : Async S A :=
  fun s => Some (Return (f s), s, []).

Definition modify (f : S -> S) : Async S unit :=
  fun s => Some (Return tt, f s, []).

(** [await new Promise((resolve) => setTimeout(resolve, ms))] *)
Definition sleep `{Runtime S} (ms : Q) : Async S unit :=
  fun s => Some (Return tt, wake ms s, [EvSleep ms]).

(** [await operation()], recorded as one invocation *)
Definition invoke {A} (operation : Async S A) : Async S A :=
  fun s =>
    match operation s with
    | None => None
    | Some (Return a, s1, t1) => Some (Return a, s1, [EvCall None t1])
    | Some (Throw e, s1, t1) => Some (Throw e, s1, [EvCall (Some e) t1])
    end.

End AsyncMonad.

Notation "'let!' x := m 'in' k" := (bind m (fun x => k))
  (at level 10, x name, m at level 100, k at level 200, only parsing).
Notation "m ;; k" := (bind m (fun _ => k))
  (at level 100, k at level 200, right associativity, only parsing).

(** ** [RetryHandler] *)

Module RetryHandler.

(** The fields of the class (RetryHandler.ts, lines 32-35), [debug] apart. *)
Record t : Type := mk {
  maxRetries : Z;
  baseDelay : Q;
  retryableCodes : list Q
}.

(** Line 45. *)
Definition DEFAULT_RETRYABLE_CODES : list Q := [429#1; 500#1; 502#1; 503#1; 504#1]%Q.

(** [RetryOptions]: every field optional *)
Record Options : Type := mkOptions {
  opt_maxRetries : option Z;
  opt_baseDelay : option Q;
  opt_retryableCodes : option (list Q)
}.

(** The constructor (lines 47-54). *)
Definition new (options : Options) : t :=
  {| maxRetries := default 3 (opt_maxRetries options);
     baseDelay := default (1000#1)%Q (opt_baseDelay options);
     retryableCodes := default DEFAULT_RETRYABLE_CODES (opt_retryableCodes options) |}.

Definition no_options : Options := mkOptions None None None.

(** [this.retryableCodes.has(n)] *)
Definition has (codes : list Q) (n : Q) : bool :=
  existsb (Qeq_bool n) codes.

(** Lines 183-189. *)
Definition networkErrorCodes : list string :=
  ["ECONNRESET"; "ECONNREFUSED"; "ETIMEDOUT"; "ENOTFOUND"; "EAI_AGAIN"].

(** [networkErrorCodes.includes(code)] *)
Definition includes (codes : list string) (code : string) : bool :=
  existsb (String.eqb code) codes.

(** Lines 176-194. *)
Definition isNetworkError (error : Value) : bool :=
  match error with
  | VPrim _ => false
  | VObj o =>
      if has_prop "code" o then
        match get_prop "code" o with
        | JStr code => includes networkErrorCodes code
        | _ => false
        end
      else false
  end.

(** Lines 141-147. *)
Definition isHttpError (error : Value) : bool :=
  match error with
  | VPrim _ => false
  | VObj o => has_prop "status" o || has_prop "statusCode" o || has_prop "code" o
  end.

(** Lines 152-171: the first of [status], [statusCode], [code] that is
    there and holds a number. *)
Definition extractStatusCode (error : Value) : option Q :=
  match error with
  | VPrim _ => None
  | VObj o =>
      match (if has_prop "status" o then get_prop "status" o else JUndefined) with
      | JNum n => Some n
      | _ =>
          match (if has_prop "statusCode" o then get_prop "statusCode" o else JUndefined) with
          | JNum n => Some n
          | _ =>
              match (if has_prop "code" o then get_prop "code" o else JUndefined) with
              | JNum n => Some n
              | _ => None
              end
          end
      end
  end.

(** Lines 118-136. *)
Definition isRetryableError (h : t) (error : Value) : bool :=
  if instanceof_RateLimitError error then true
  else if isNetworkError error then true
  else if isHttpError error then
    match extractStatusCode error with
    | Some statusCode => has (retryableCodes h) statusCode
    | None => false
    end
  else false.

(** Lines 104-111: [this.baseDelay * Math.pow(2, attempt)]. *)
Definition calculateDelay (h : t) (attempt : Z) : Q :=
  (baseDelay h * 2 ^ attempt)%Q.

Section Execute.
Context {S : Type} `{Runtime S} {T : Type}.
Variable h : t.
Variable operation : Async S T.

(** The body of the [for] loop at [attempt] (lines 66-92): [inl] is the
    value the function returns, [inr] the error kept in [lastError] when the
    loop goes on. *)
Definition execute_body (attempt : Z) : Async S (T + Value) :=
  try_catch
    (let! a := invoke operation in ret (inl a))
    (fun error =>
       let isRetryable := isRetryableError h error in
       if negb isRetryable || (attempt =? maxRetries h)
       then throw error
       else
         let delay := calculateDelay h attempt in
         sleep delay ;;
         ret (inr error)).

(** The loop from [attempt] on and the statement after it (lines 65-96);
    [fuel] bounds the iterations still allowed. *)
Fixpoint execute_from (fuel : nat) (attempt : Z) (lastError : Value)
  : Async S T :=
  if attempt <=? maxRetries h then
    match fuel with
    | O => never
    | Datatypes.S fuel' =>
        let! r := execute_body attempt in
        match r with
        | inl a => ret a
        | inr error => execute_from fuel' (attempt + 1) error
        end
    end
  else
    throw (if nullish lastError then PlainError "Max retries exceeded"
           else lastError).

(** [execute] (lines 62-97): [maxRetries + 1] iterations are all the loop
    can make. *)
Definition execute : Async S T :=
  execute_from (Z.to_nat (maxRetries h + 1)) 0 (VPrim JUndefined).

End Execute.

End RetryHandler.

(** ** [RateLimitService] *)

Module RateLimitService.

(** RateLimitService.ts, lines 6-11. *)
Record TokenBucket : Type := mkBucket {
  tokens : Q;
  capacity : Q;
  refillRate : Q;   (* tokens per second *)
  lastRefill : Q    (* timestamp *)
}.

(** The fields of the class (lines 17-19), [debug] apart. *)
Record t : Type := mk {
  globalBucket : TokenBucket;
  channelBuckets : gmap string TokenBucket
}.

(** Lines 22-27. *)
Definition GLOBAL_CAPACITY : Q := 50#1.
Definition GLOBAL_REFILL_RATE : Q := 50#1.
Definition CHANNEL_CAPACITY : Q := 5#1.
Definition CHANNEL_REFILL_RATE : Q := 5#1.

(** The constructor (lines 29-40), run when the clock reads [now]. *)
Definition new (now : Q) : t :=
  {| globalBucket := {| tokens := GLOBAL_CAPACITY;
                        capacity := GLOBAL_CAPACITY;
                        refillRate := GLOBAL_REFILL_RATE;
                        lastRefill := now |};
     channelBuckets := ∅ |}.

(** Buckets are objects shared between the service and its callers; a
    reference names the global bucket or the one stored for a channel. *)
Inductive BucketRef : Type :=
| GlobalRef
| ChannelRef (channelId : string).

Definition deref (ref : BucketRef) (svc : t) : option TokenBucket :=
  match ref with
  | GlobalRef => Some (globalBucket svc)
  | ChannelRef channelId => channelBuckets svc !! channelId
  end.

Definition assign (ref : BucketRef) (bucket : TokenBucket) (svc : t) : t :=
  match ref with
  | GlobalRef => {| globalBucket := bucket; channelBuckets := channelBuckets svc |}
  | ChannelRef channelId =>
      {| globalBucket := globalBucket svc;
         channelBuckets := <[channelId := bucket]> (channelBuckets svc) |}
  end.

(** Lines 90-100. *)
Definition refillBucket (now : Q) (bucket : TokenBucket) : TokenBucket :=
  let timeSinceLastRefill := (now - lastRefill bucket)%Q in
  let tokensToAdd := ((timeSinceLastRefill / 1000) * refillRate bucket)%Q in
  {| tokens := Qmin (capacity bucket) (tokens bucket + tokensToAdd)%Q;
     capacity := capacity bucket;
     refillRate := refillRate bucket;
     lastRefill := now |}.

(** Lines 107-110: [Math.ceil(1000 / bucket.refillRate)]. *)
Definition calculateWaitTime (bucket : TokenBucket) : Q :=
  inject_Z (Qceiling (1000 / refillRate bucket)%Q).

(** Line 67: [bucket.tokens -= 1]. *)
Definition consume (bucket : TokenBucket) : TokenBucket :=
  {| tokens := (tokens bucket - 1)%Q;
     capacity := capacity bucket;
     refillRate := refillRate bucket;
     lastRefill := lastRefill bucket |}.

(** The part of [acquireFromBucket] that runs before it returns or
    suspends (lines 62-78): the bucket as it leaves it, and the time to wait
    when no token was granted. *)
Definition acquireFromBucket_pass (now : Q) (bucket : TokenBucket)
  : TokenBucket * option Q :=
  let bucket := refillBucket now bucket in
  if Qle_bool 1 (tokens bucket)
  then (consume bucket, None)
  else (bucket, Some (calculateWaitTime bucket)).

(** Lines 117-131. After the call the channel has a bucket, which the
    caller gets by reference ([ChannelRef channelId]). *)
Definition getOrCreateChannelBucket (now : Q) (channelId : string) (svc : t) : t :=
  match channelBuckets svc !! channelId with
  | Some _ => svc
  | None =>
      let bucket := {| tokens := CHANNEL_CAPACITY;
                       capacity := CHANNEL_CAPACITY;
                       refillRate := CHANNEL_REFILL_RATE;
                       lastRefill := now |} in
      {| globalBucket := globalBucket svc;
         channelBuckets := <[channelId := bucket]> (channelBuckets svc) |}
  end.

(** Lines 138-147. *)
Definition handleRateLimit (now : Q) (channelId : string) (retryAfter : Q) (svc : t) : t :=
  let svc := getOrCreateChannelBucket now channelId svc in
  match channelBuckets svc !! channelId with
  | None => svc
  | Some bucket =>
      assign (ChannelRef channelId)
        {| tokens := 0;
           capacity := capacity bucket;
           refillRate := refillRate bucket;
           lastRefill := (now + retryAfter)%Q |}
        svc
  end.

Definition resetBucket (now : Q) (bucket : TokenBucket) : TokenBucket :=
  {| tokens := capacity bucket;
     capacity := capacity bucket;
     refillRate := refillRate bucket;
     lastRefill := now |}.

(** Lines 210-220. *)
Definition reset (now : Q) (svc : t) : t :=
  {| globalBucket := resetBucket now (globalBucket svc);
     channelBuckets := resetBucket now <$> channelBuckets svc |}.

(** Lines 182-187: [error && (error.status === 429 ||
    error.statusCode === 429 || error.code === 429)]. *)
Definition isRateLimitError (error : Value) : bool :=
  truthy error &&
  (strict_eq_num (member "status" error) 429
   || strict_eq_num (member "statusCode" error) 429
   || strict_eq_num (member "code" error) 429).

(** Lines 192-205. A truthy [retryAfter] or [retry_after] that is not a
    number would leave the function's declared result type ([number]) and
    has no image here ([None]). *)
Definition extractRetryAfter (error : Value) : option Q :=
  if truthy_prim (member "retryAfter" error) then
    match member "retryAfter" error with
    | JNum retryAfter => Some retryAfter
    | _ => None
    end
  else if truthy_prim (member "retry_after" error) then
    match member "retry_after" error with
    | JNum retry_after => Some (retry_after * 1000)%Q
    | _ => None
    end
  else Some (1000#1)%Q.

(** *** The asynchronous methods, for one caller at a time *)

Record State (W : Type) : Type := mkState {
  world : W;
  service : t
}.
Arguments mkState {W} world service.
Arguments world {W} s.
Arguments service {W} s.

(** While one caller sleeps, nobody else touches the service. *)
#[global] Instance State_Runtime {W} `{Runtime W} : Runtime (State W) := {|
  Date_now s := Date_now (world s);
  wake ms s := {| world := wake ms (world s); service := service s |}
|}.

Definition update {W} (f : t -> t) (s : State W) : State W :=
  {| world := world s; service := f (service s) |}.

Section Methods.
Context {W : Type} `{Runtime W}.

(** Lines 61-84; [fuel] bounds the passes. *)
Fixpoint acquireFromBucket (fuel : nat) (bucket : BucketRef) : Async (State W) unit :=
  match fuel with
  | O => never
  | Datatypes.S fuel' =>
      let! now := gets Date_now in
      let! current := gets (fun s => deref bucket (service s)) in
      match current with
      | None => never
      | Some b =>
          let (b', wait) := acquireFromBucket_pass now b in
          modify (update (assign bucket b')) ;;
          match wait with
          | None => ret tt
          | Some waitTime =>
              sleep waitTime ;;
              acquireFromBucket fuel' bucket
          end
      end
  end.

(** Lines 47-54. *)
Definition acquireToken (fuel : nat) (channelId : string) : Async (State W) unit :=
  acquireFromBucket fuel GlobalRef ;;
  let! now := gets Date_now in
  modify (update (getOrCreateChannelBucket now channelId)) ;;
  acquireFromBucket fuel (ChannelRef channelId).

(** Lines 156-177. *)
Definition executeWithRateLimit {T} (fuel : nat) (channelId : string)
    (operation : Async (State W) T) : Async (State W) T :=
  acquireToken fuel channelId ;;
  try_catch operation
    (fun error =>
       if isRateLimitError error then
         match extractRetryAfter error with
         | None => never
         | Some retryAfter =>
             let! now := gets Date_now in
             modify (update (handleRateLimit now channelId retryAfter)) ;;
             throw (RateLimitError retryAfter (Some channelId))
         end
       else throw error).

End Methods.

(** *** The service under any number of interleaved callers

    Between two suspension points a caller runs alone, so a history of the
    service is a sequence of such uninterrupted pieces, each with the clock
    value it read. *)
Inductive Action : Type :=
| Poll (bucket : BucketRef)                       (* one pass of [acquireFromBucket] *)
| Ensure (channelId : string)                     (* [getOrCreateChannelBucket] *)
| Deplete (channelId : string) (retryAfter : Q)   (* [handleRateLimit] *)
| Reset.                                          (* [reset] *)

(** The service after the action, and whether the action was granted a
    token. *)
Definition act (now : Q) (a : Action) (svc : t) : t * bool :=
  match a with
  | Poll bucket =>
      match deref bucket svc with
      | None => (svc, false)
      | Some b =>
          let (b', wait) := acquireFromBucket_pass now b in
          (assign bucket b' svc, match wait with None => true | Some _ => false end)
      end
  | Ensure channelId => (getOrCreateChannelBucket now channelId svc, false)
  | Deplete channelId retryAfter => (handleRateLimit now channelId retryAfter svc, false)
  | Reset => (reset now svc, false)
  end.

(** The grants of a history, each with the bucket and the clock value. *)
Fixpoint run (history : list (Q * Action)) (svc : t) : t * list (Q * BucketRef) :=
  match history with
  | [] => (svc, [])
  | (now, a) :: rest =>
      let (svc1, granted) := act now a svc in
      let (svc2, grants) := run rest svc1 in
      (svc2, match a with
             | Poll bucket => if granted then (now, bucket) :: grants else grants
             | _ => grants
             end)
  end.

(** The pieces of [acquireToken]. *)
Definition is_acquisition (a : Action) : bool :=
  match a with
  | Poll _ | Ensure _ => true
  | _ => false
  end.

(** What the constructor establishes and no method changes. *)
Definition global_shape (b : TokenBucket) : Prop :=
  capacity b = GLOBAL_CAPACITY /\ refillRate b = GLOBAL_REFILL_RATE.

Definition channel_shape (b : TokenBucket) : Prop :=
  capacity b = CHANNEL_CAPACITY /\ refillRate b = CHANNEL_REFILL_RATE.

Definition well_formed (svc : t) : Prop :=
  global_shape (globalBucket svc) /\
  forall channelId b, channelBuckets svc !! channelId = Some b -> channel_shape b.

Definition shape (bucket : BucketRef) : TokenBucket -> Prop :=
  match bucket with
  | GlobalRef => global_shape
  | ChannelRef _ => channel_shape
  end.

End RateLimitService.

(** ** [InteractionService] *)

Module InteractionService.

(** What [handleInteraction] reads from a discord.js [Interaction]. *)
Record Interaction : Type := mkInteraction {
  isButton : bool;
  customId : string;
  message_id : string;
  channelId : string;
  guildId : option string;
  user_id : string
}.

Record ButtonInteractionContext : Type := mkContext {
  ctx_messageId : string;
  ctx_channelId : string;
  ctx_guildId : option string;
  ctx_userId : string;
  ctx_customId : string
}.

Record ReplyOptions : Type := mkReply {
  content : string;
  ephemeral : bool
}.

(** The mutable side of the interaction object: its two acknowledgment
    flags and its [reply] method. *)
Class InteractionHost (S : Type) : Type := {
  replied : S -> bool;
  deferred : S -> bool;
  reply : ReplyOptions -> Async S unit
}.

Definition ButtonClickHandler (S : Type) : Type :=
  ButtonInteractionContext -> Async S unit.

Record t (S : Type) : Type := mk {
  handlers : gmap string (ButtonClickHandler S)
}.
Arguments mk {S} handlers.
Arguments handlers {S} _.

Section Methods.
Context {S : Type} `{Runtime S} `{InteractionHost S}.

Definition new : t S := {| handlers := ∅ |}.

Definition registerHandler (customId : string) (handler : ButtonClickHandler S)
    (svc : t S) : t S :=
  {| handlers := <[customId := handler]> (handlers svc) |}.

Definition unregisterHandler (customId : string) (svc : t S) : t S :=
  {| handlers := delete customId (handlers svc) |}.

(** InteractionService.ts, [handleInteraction] (lines 279-351 of the file
    that holds both services). *)
Definition handleInteraction (svc : t S) (interaction : Interaction) : Async S unit :=
  if negb (isButton interaction) then ret tt
  else
    let customId := customId interaction in
    match handlers svc !! customId with
    | None => ret tt
    | Some handler =>
        let context := {| ctx_messageId := message_id interaction;
                          ctx_channelId := channelId interaction;
                          ctx_guildId := guildId interaction;
                          ctx_userId := user_id interaction;
                          ctx_customId := customId |} in
        let! startTime := gets Date_now in
        let acknowledged := false in
        try_catch
          (handler context ;;
           (* checkAcknowledgment() *)
           let! flags := gets (fun s => replied s || deferred s) in
           let acknowledged := if flags then true else acknowledged in
           let! now := gets Date_now in
           let elapsedTime := (now - startTime)%Q in
           if negb acknowledged && negb (Qle_bool elapsedTime 3000)
           then throw (InteractionTimeoutError customId)
           else ret tt)
          (fun error =>
             let! unacknowledged := gets (fun s => negb (replied s) && negb (deferred s)) in
             (if unacknowledged
              then try_catch
                     (reply {| content := "An error occurred while processing your request.";
                               ephemeral := true |})
                     (fun replyError => ret tt)
              else ret tt) ;;
             throw error)
    end.

End Methods.

End InteractionService.

(** ** What the specification says, in its own terms *)

Module Spec.

(** *** Traces *)

(** How many times the operation was invoked. *)
Fixpoint invocations (trace : list Event) : nat :=
  match trace with
  | [] => 0
  | EvCall _ _ :: rest => Datatypes.S (invocations rest)
  | EvSleep _ :: rest => invocations rest
  end.

(** The suspensions, in order. *)
Fixpoint sleeps (trace : list Event) : list Q :=
  match trace with
  | [] => []
  | EvSleep ms :: rest => ms :: sleeps rest
  | EvCall _ _ :: rest => sleeps rest
  end.

(** *** Error classification (section 4.2) *)

Inductive ErrorClassification : Type :=
| RateLimited (retryAfterMs : Prim)
| NetworkTransient (code : string)
| HttpTransient (statusCode : Q)
| Fatal.

Definition retryable (c : ErrorClassification) : bool :=
  match c with Fatal => false | _ => true end.

(** The failure's [code] when it is a string. *)
Definition string_code (error : Value) : option string :=
  match error with
  | VObj o => match props o !! "code" with Some (JStr s) => Some s | _ => None end
  | VPrim _ => None
  end.

(** The failure's property [key] when it is a number. *)
Definition numeric_field (error : Value) (key : string) : option Q :=
  match error with
  | VObj o => match props o !! key with Some (JNum n) => Some n | _ => None end
  | VPrim _ => None
  end.

(** The numeric values among [status], [statusCode] and [code], in this
    order. *)
Definition numeric_fields (error : Value) : list Q :=
  omap (numeric_field error) ["status"; "statusCode"; "code"].

Definition recognized_network_code (code : string) : bool :=
  bool_decide (code ∈ ["ECONNRESET"; "ECONNREFUSED"; "ETIMEDOUT"; "ENOTFOUND"; "EAI_AGAIN"]).

Definition carried_cooldown (error : Value) : Prim := member "retryAfter" error.

(** The precedence with the third rule read as "some numeric field among
    the three has a value in the retryable set". *)
Definition classify_any_field (retryableHttpCodes : list Q) (error : Value)
  : ErrorClassification :=
  if instanceof_RateLimitError error then RateLimited (carried_cooldown error)
  else
    match string_code error with
    | Some code =>
        if recognized_network_code code then NetworkTransient code
        else
          match find (RetryHandler.has retryableHttpCodes) (numeric_fields error) with
          | Some n => HttpTransient n
          | None => Fatal
          end
    | None =>
        match find (RetryHandler.has retryableHttpCodes) (numeric_fields error) with
        | Some n => HttpTransient n
        | None => Fatal
        end
    end.

(** The precedence with the third rule read as "the first numeric field
    among [status], [statusCode], [code] has a value in the retryable
    set". *)
Definition classify (retryableHttpCodes : list Q) (error : Value)
  : ErrorClassification :=
  if instanceof_RateLimitError error then RateLimited (carried_cooldown error)
  else
    match string_code error with
    | Some code =>
        if recognized_network_code code then NetworkTransient code
        else
          match head (numeric_fields error) with
          | Some n => if RetryHandler.has retryableHttpCodes n then HttpTransient n else Fatal
          | None => Fatal
          end
    | None =>
        match head (numeric_fields error) with
        | Some n => if RetryHandler.has retryableHttpCodes n then HttpTransient n else Fatal
        | None => Fatal
        end
    end.

(** *** The cooldown carried by a 429 failure *)

(** The failure has [status], [statusCode] or [code] equal to 429. *)
Definition signals_429 (error : Value) : Prop :=
  exists key n,
    key ∈ ["status"; "statusCode"; "code"] /\
    numeric_field error key = Some n /\ (n == 429)%Q.

(** [retryAfter] and [retry_after] are numbers, unless they are missing or
    hold a falsy value ([undefined], [null], [false], the empty string). *)
Definition numeric_cooldown_fields (error : Value) : Prop :=
  forall key, key = "retryAfter" \/ key = "retry_after" ->
    truthy_prim (member key error) = true -> exists n, member key error = JNum n.

(** The rule with "present" read as "the field is there". *)
Definition cooldown_if_present (error : Value) : Q :=
  match numeric_field error "retryAfter" with
  | Some milliseconds => milliseconds
  | None =>
      match numeric_field error "retry_after" with
      | Some seconds => (seconds * 1000)%Q
      | None => 1000%Q
      end
  end.

Definition nonzero_field (error : Value) (key : string) : option Q :=
  match numeric_field error key with
  | Some n => if Qeq_bool n 0 then None else Some n
  | None => None
  end.

(** The rule with "present" read as "the field is there and is not
    zero". *)
Definition cooldown (error : Value) : Q :=
  match nonzero_field error "retryAfter" with
  | Some milliseconds => milliseconds
  | None =>
      match nonzero_field error "retry_after" with
      | Some seconds => (seconds * 1000)%Q
      | None => 1000%Q
      end
  end.

(** *** The attempt loop (section 4.3) *)

Section Attempts.
Context {S : Type} `{Runtime S} {T : Type}.
Variable h : RetryHandler.t.
Variable operation : Async S T.

Definition backoff (attempt : Z) : Q :=
  (RetryHandler.baseDelay h * inject_Z (2 ^ attempt))%Q.

(** [attempts n s r s' trace]: starting attempt number [n] in state [s],
    the loop ends in [s'] with [r] and leaves [trace]. *)
Inductive attempts (attempt : Z) : S -> Completion T -> S -> list Event -> Prop :=
| attempt_succeeds s a s' inner :
    operation s = Some (Return a, s', inner) ->
    attempts attempt s (Return a) s' [EvCall None inner]
| attempt_rethrows s e s' inner :
    operation s = Some (Throw e, s', inner) ->
    retryable (classify (RetryHandler.retryableCodes h) e) = false
      \/ attempt = RetryHandler.maxRetries h ->
    attempts attempt s (Throw e) s' [EvCall (Some e) inner]
| attempt_retries s e s1 inner r s' trace :
    operation s = Some (Throw e, s1, inner) ->
    retryable (classify (RetryHandler.retryableCodes h) e) = true ->
    attempt < RetryHandler.maxRetries h ->
    attempts (attempt + 1) (wake (backoff attempt) s1) r s' trace ->
    attempts attempt s r s'
      (EvCall (Some e) inner :: EvSleep (backoff attempt) :: trace).

End Attempts.

(** *** Acquisition on a bucket (section 4.1) *)

Section Acquisition.
Context {W : Type} `{Runtime W}.
Import RateLimitService.

(** Steps (a) to (c). *)
Definition refilled (cap rate now : Q) (b : TokenBucket) : TokenBucket :=
  let elapsed_seconds := ((now - lastRefill b) / 1000)%Q in
  {| tokens := Qmin cap (tokens b + elapsed_seconds * rate)%Q;
     capacity := capacity b;
     refillRate := refillRate b;
     lastRefill := now |}.

Definition deducted (b : TokenBucket) : TokenBucket :=
  {| tokens := (tokens b - 1)%Q;
     capacity := capacity b;
     refillRate := refillRate b;
     lastRefill := lastRefill b |}.

Definition wait_interval (rate : Q) : Q := inject_Z (Qceiling (1000 / rate)%Q).

(** Steps (d) and (e) around them, for a bucket of the given capacity and
    rate. *)
Inductive acquisition (cap rate : Q) (bucket : BucketRef)
  : State W -> list Event -> State W -> Prop :=
| acquisition_granted s b :
    deref bucket (service s) = Some b ->
    (1 <= tokens (refilled cap rate (Date_now s) b))%Q ->
    acquisition cap rate bucket s []
      (update (assign bucket (deducted (refilled cap rate (Date_now s) b))) s)
| acquisition_waits s b trace s' :
    deref bucket (service s) = Some b ->
    (tokens (refilled cap rate (Date_now s) b) < 1)%Q ->
    acquisition cap rate bucket
      (wake (wait_interval rate)
         (update (assign bucket (refilled cap rate (Date_now s) b)) s))
      trace s' ->
    acquisition cap rate bucket s (EvSleep (wait_interval rate) :: trace) s'.

(** The channel's bucket, created full at the default capacity and rate
    when the channel has none. *)
Definition with_channel (now : Q) (channelId : string) (svc : t) : t :=
  if decide (is_Some (channelBuckets svc !! channelId)) then svc
  else {| globalBucket := globalBucket svc;
          channelBuckets :=
            <[channelId := {| tokens := 5; capacity := 5; refillRate := 5;
                              lastRefill := now |}]> (channelBuckets svc) |}.

(** Global first, then the channel. *)
Definition composite_acquisition (channelId : string)
    (s : State W) (trace : list Event) (s' : State W) : Prop :=
  exists s1 trace_global trace_channel,
    acquisition 50 50 GlobalRef s trace_global s1 /\
    acquisition 5 5 (ChannelRef channelId)
      (update (with_channel (Date_now s1) channelId) s1) trace_channel s' /\
    trace = trace_global ++ trace_channel.

End Acquisition.

(** *** Cooldown (section 4.1, external depletion signal)

    A bucket under a cooldown until [deadline] holds no more tokens than
    its rate produces between [deadline] and its [lastRefill]. *)
Definition cooling (deadline : Q) (b : RateLimitService.TokenBucket) : Prop :=
  (RateLimitService.tokens b
     <= (RateLimitService.lastRefill b - deadline) / 1000
        * RateLimitService.refillRate b)%Q.

Definition cooling_channel (deadline : Q) (channelId : string)
    (svc : RateLimitService.t) : Prop :=
  exists b, RateLimitService.channelBuckets svc !! channelId = Some b
            /\ cooling deadline b.

(** *** Capacity (section 3) *)

Definition within_capacity (b : RateLimitService.TokenBucket) : Prop :=
  (RateLimitService.tokens b <= RateLimitService.capacity b)%Q.

Definition all_within_capacity (svc : RateLimitService.t) : Prop :=
  within_capacity (RateLimitService.globalBucket svc) /\
  forall channelId b,
    RateLimitService.channelBuckets svc !! channelId = Some b -> within_capacity b.

(** A history made of pieces of [acquireToken] only. *)
Definition acquisitions_only (history : list (Q * RateLimitService.Action)) : Prop :=
  Forall (fun step => RateLimitService.is_acquisition (snd step) = true) history.

(** An action that leaves the cooldown of [channelId] alone: any but a
    further [handleRateLimit] on this channel and a [reset]. *)
Definition keeps_cooldown (channelId : string) (a : RateLimitService.Action) : Prop :=
  match a with
  | RateLimitService.Deplete c _ => c <> channelId
  | RateLimitService.Reset => False
  | _ => True
  end.

Definition cooldown_kept (channelId : string)
    (history : list (Q * RateLimitService.Action)) : Prop :=
  Forall (fun step => keeps_cooldown channelId (snd step)) history.

(** *** The acknowledgment deadline (section 4.4) *)

Section Deadline.
Context {S : Type} `{Runtime S} `{InteractionService.InteractionHost S}.

(** The context a handler is dispatched with. *)
Definition dispatch_context (i : InteractionService.Interaction)
  : InteractionService.ButtonInteractionContext :=
  {| InteractionService.ctx_messageId := InteractionService.message_id i;
     InteractionService.ctx_channelId := InteractionService.channelId i;
     InteractionService.ctx_guildId := InteractionService.guildId i;
     InteractionService.ctx_userId := InteractionService.user_id i;
     InteractionService.ctx_customId := InteractionService.customId i |}.

Definition error_reply : InteractionService.ReplyOptions :=
  {| InteractionService.content := "An error occurred while processing your request.";
     InteractionService.ephemeral := true |}.

(** The interaction was replied to or deferred. *)
Definition acknowledged (s : S) : bool :=
  InteractionService.replied s || InteractionService.deferred s.

(** Dispatched in [s0] and completed in [s1]: never acknowledged, and more
    than 3000 ms elapsed. *)
Definition timed_out (s0 s1 : S) : Prop :=
  acknowledged s1 = false /\ (3000 < Date_now s1 - Date_now s0)%Q.

End Deadline.

End Spec.

(** ** Concrete hosts, failures and operations *)

Module Examples.

(** A host that is nothing but its clock: timers fire exactly on time. *)
#[global] Instance Clock : Runtime Q := {|
  Date_now now := now;
  wake ms now := Qred (now + ms)
|}.

(** [{ status: 403 }] *)
Definition forbidden : Value :=
  VObj {| class_of := PlainObject; props := {[ "status" := JNum 403 ]} |}.

(** [{ status: 429 }] *)
Definition too_many_requests : Value :=
  VObj {| class_of := PlainObject; props := {[ "status" := JNum 429 ]} |}.

(** [{ status: 429, retryAfter: 0, retry_after: 2 }] *)
Definition zero_cooldown : Value :=
  VObj {| class_of := PlainObject;
          props := <["status" := JNum 429]>
                   (<["retryAfter" := JNum 0]> {[ "retry_after" := JNum 2 ]}) |}.

(** [{ status: 429, retryAfter: 2500 }] *)
Definition cooldown_2500 : Value :=
  VObj {| class_of := PlainObject;
          props := <["status" := JNum 429]> {[ "retryAfter" := JNum 2500 ]} |}.

(** [{ status: 400, statusCode: 503 }] *)
Definition two_statuses : Value :=
  VObj {| class_of := PlainObject;
          props := <["status" := JNum 400]> {[ "statusCode" := JNum 503 ]} |}.

(** An operation that takes no time and always rejects with [error]. *)
Definition always_rejects {S} (error : Value) : Async S unit :=
  fun s => Some (Throw error, s, []).

(** [new RetryHandler({ maxRetries: 2 })] *)
Definition two_retries : RetryHandler.t :=
  RetryHandler.new (RetryHandler.mkOptions (Some 2) None None).

(** [new RetryHandler({ maxRetries: 1 })] *)
Definition one_retry : RetryHandler.t :=
  RetryHandler.new (RetryHandler.mkOptions (Some 1) None None).

Definition default_handler : RetryHandler.t :=
  RetryHandler.new RetryHandler.no_options.

(** A fresh service at time 0. *)
Definition fresh : RateLimitService.State Q :=
  {| RateLimitService.world := 0%Q; RateLimitService.service := RateLimitService.new 0 |}.

(** The pieces of one [acquireToken] on channel "c" that finds a global
    token at once, up to its first pass on the channel's bucket, all at time
    [now]. *)
Definition acquire_pieces (now : Q) : list (Q * RateLimitService.Action) :=
  [(now, RateLimitService.Poll RateLimitService.GlobalRef);
   (now, RateLimitService.Ensure "c");
   (now, RateLimitService.Poll (RateLimitService.ChannelRef "c"))].

(** The fresh service after five rapid acquisitions on channel "c". *)
Definition drained : RateLimitService.State Q :=
  {| RateLimitService.world := 0%Q;
     RateLimitService.service :=
       fst (RateLimitService.run
              (acquire_pieces 0 ++ acquire_pieces 0 ++ acquire_pieces 0
               ++ acquire_pieces 0 ++ acquire_pieces 0)
              (RateLimitService.new 0)) |}.

(** The fresh service after a cooldown of 5000 ms was signalled on channel
    "c" and one caller's [acquireToken] made its first pass on that
    channel's bucket, all at time 0. *)
Definition cooled_and_polled : RateLimitService.t :=
  fst (RateLimitService.run
         ((0%Q, RateLimitService.Deplete "c" 5000) :: acquire_pieces 0)
         (RateLimitService.new 0)).

(** A button interaction under way: the clock and the two flags of the
    interaction object. *)
Record Click : Type := mkClick {
  clock : Q;
  was_replied : bool;
  was_deferred : bool
}.

#[global] Instance Click_Runtime : Runtime Click := {|
  Date_now c := clock c;
  wake ms c := {| clock := Qred (clock c + ms); was_replied := was_replied c;
                  was_deferred := was_deferred c |}
|}.

#[global] Instance Click_Host : InteractionService.InteractionHost Click := {|
  InteractionService.replied := was_replied;
  InteractionService.deferred := was_deferred;
  InteractionService.reply := fun _ c =>
    Some (Return tt, {| clock := clock c; was_replied := true;
                        was_deferred := was_deferred c |}, [])
|}.

Definition click_start : Click :=
  {| clock := 0; was_replied := false; was_deferred := false |}.

Definition button : InteractionService.Interaction :=
  {| InteractionService.isButton := true;
     InteractionService.customId := "download";
     InteractionService.message_id := "m1";
     InteractionService.channelId := "c1";
     InteractionService.guildId := None;
     InteractionService.user_id := "u1" |}.

(** Runs for 3100 ms and returns without acknowledging. *)
Definition silent_handler : InteractionService.ButtonClickHandler Click :=
  fun _ => sleep 3100.

(** Defers after 1000 ms and returns at 5000 ms. *)
Definition deferring_handler : InteractionService.ButtonClickHandler Click :=
  fun _ =>
    sleep 1000 ;;
    modify (fun c => {| clock := clock c; was_replied := was_replied c;
                        was_deferred := true |}) ;;
    sleep 4000.

(** Runs for 3100 ms and fails without acknowledging. *)
Definition failing_handler : InteractionService.ButtonClickHandler Click :=
  fun _ => sleep 3100 ;; throw (PlainError "boom").

Definition serving (handler : InteractionService.ButtonClickHandler Click)
  : InteractionService.t Click :=
  InteractionService.registerHandler "download" handler InteractionService.new.

End Examples.

(** * The code around the two services

    The rest of [src/services/InteractionService.ts] ([listen], [stop]),
    [src/services/MessageService.ts], [DiscordNotifier.postError] and the
    two utilities [TextTruncator] and [ColorConverter].

    Further conventions.
      - A [string] is the sequence of UTF-16 code units of the JavaScript
        string, [String.length] its [length]; code units above 255 have no
        image.  Lengths and limits are integers ([Z]).
      - A function object is known by its identity, a number drawn from a
        counter when the function is created.
      - The message of a [ValidationError] and of an engine's [TypeError] is
        a text for the reader; it is not modelled. *)

(** ** Further errors of [DiscordErrors.ts]

    [class_of] keeps what the [instanceof] tests of the code can tell: the
    errors below are [Error]s that are no [RateLimitError], and their [name]
    says which. *)

(** [new PermissionError(message, requiredPermission, channelId)] *)
Definition PermissionError (message : string)
    (requiredPermission channelId : option string) : Value :=
  VObj {| class_of := ErrorClass;
          props := <["name" := JStr "PermissionError"]>
                   (<["message" := JStr message]>
                   (<["requiredPermission" := from_option JStr JUndefined requiredPermission]>
                   (<["channelId" := from_option JStr JUndefined channelId]> ∅))) |}.

(** [new ChannelNotFoundError(channelId)] *)
Definition ChannelNotFoundError (channelId : string) : Value :=
  VObj {| class_of := ErrorClass;
          props := <["name" := JStr "ChannelNotFoundError"]>
                   (<["message" := JStr (String.append "Channel not found: " channelId)]>
                   (<["channelId" := JStr channelId]> ∅)) |}.

(** [new ValidationError(message, field)] *)
Definition ValidationError (field : option string) : Value :=
  VObj {| class_of := ErrorClass;
          props := <["name" := JStr "ValidationError"]>
                   (<["field" := from_option JStr JUndefined field]> ∅) |}.

(** What the engine throws when a property of [null] or [undefined] is
    read. *)
Definition TypeError : Value :=
  VObj {| class_of := ErrorClass; props := {[ "name" := JStr "TypeError" ]} |}.

(** ** [InteractionService.listen] and [InteractionService.stop] *)

Module Listening.

(** A function object. *)
Definition Function : Type := nat.

(** [client.on('interactionCreate', listener)], as the client of the tests
    has it (tests/mocks, [MockDiscordClient]): the listener goes to the end of
    the event's list. *)
Definition on (listener : Function) (listeners : list Function) : list Function :=
  listeners ++ [listener].

(** [client.off('interactionCreate', listener)]: the first occurrence of
    this very function is taken out ([indexOf], [splice]). *)
Fixpoint off (listener : Function) (listeners : list Function) : list Function :=
  match listeners with
  | [] => []
  | f :: rest => if Nat.eqb f listener then rest else f :: off listener rest
  end.

(** The listeners of the client for [interactionCreate], the service's
    [isListening] flag, and how many function objects exist. *)
Record t : Type := mk {
  eventListeners : list Function;
  isListening : bool;
  functions : nat
}.

(** The constructor, given a client on which nothing listens yet. *)
Definition new : t :=
  {| eventListeners := []; isListening := false; functions := 0 |}.

(** [this.handleInteraction.bind(this)]: a function object that did not
    exist before. *)
Definition bind (svc : t) : Function * t :=
  (functions svc,
   {| eventListeners := eventListeners svc;
      isListening := isListening svc;
      functions := Datatypes.S (functions svc) |}).

(** InteractionService.ts, [listen] (lines 356-367 of the file that holds
    both services). *)
Definition listen (svc : t) : t :=
  if isListening svc then svc
  else
    let (bound, svc) := bind svc in
    {| eventListeners := on bound (eventListeners svc);
       isListening := true;
       functions := functions svc |}.

(** InteractionService.ts, [stop] (lines 372-383). *)
Definition stop (svc : t) : t :=
  if negb (isListening svc) then svc
  else
    let (bound, svc) := bind svc in
    {| eventListeners := off bound (eventListeners svc);
       isListening := false;
       functions := functions svc |}.

Inductive Call : Type := Listen | Stop.

Definition call (svc : t) (c : Call) : t :=
  match c with
  | Listen => listen svc
  | Stop => stop svc
  end.

Definition calls (cs : list Call) (svc : t) : t := fold_left call cs svc.

End Listening.

(** ** [MessageService] *)

Module MessageService.

(** The retry handler of the service (MessageService.ts, line 16). The rate
    limiter it shares with its owner is the [service] of the state. *)
Record t : Type := mk {
  retryHandler : RetryHandler.t
}.

Record Options : Type := mkOptions {
  opt_maxRetries : option Z;
  opt_retryDelay : option Q
}.

(** The constructor (lines 19-33). *)
Definition new (options : Options) : t :=
  {| retryHandler :=
       RetryHandler.new
         (RetryHandler.mkOptions
            (Some (default 3 (opt_maxRetries options)))
            (Some (default (1000#1)%Q (opt_retryDelay options)))
            None) |}.

(** [error.status === n || error.statusCode === n || error.code === n] *)
Definition has_status (error : Value) (n : Q) : bool :=
  strict_eq_num (member "status" error) n
  || strict_eq_num (member "statusCode" error) n
  || strict_eq_num (member "code" error) n.

(** Lines 193-210: what [wrapError] returns, or what it throws when
    [error] is [null] or [undefined]. A truthy [message] that is not a string
    would be converted by the [Error] constructor and has no image here
    ([None]). *)
Definition wrapError (error : Value) (channelId : string) : option (Completion Value) :=
  if nullish error then Some (Throw TypeError)
  else if has_status error 403 then
    match member "message" error with
    | JStr message =>
        Some (Return (PermissionError
                        (if truthy_prim (JStr message) then message else "Permission denied")
                        None (Some channelId)))
    | message =>
        if truthy_prim message then None
        else Some (Return (PermissionError "Permission denied" None (Some channelId)))
    end
  else if has_status error 404 then Some (Return (ChannelNotFoundError channelId))
  else Some (Return error).

(** What the service needs from discord.js: [client.channels.fetch], which
    resolves to a channel or to [null], and [channel.isTextBased()]. *)
Class DiscordClient (W C : Type) : Type := {
  channels_fetch : string -> Async W (option C);
  isTextBased : C -> bool
}.

Section Methods.
Context {W C : Type} `{Runtime W} `{DiscordClient W C} {T : Type}.

(** Code of the client sees the world, not the rate limiter. *)
Definition on_client {A} (m : Async W A) : Async (RateLimitService.State W) A :=
  fun s =>
    match m (RateLimitService.world s) with
    | None => None
    | Some (r, w, trace) =>
        Some (r, {| RateLimitService.world := w;
                    RateLimitService.service := RateLimitService.service s |}, trace)
    end.

(** Lines 159-175. *)
Definition getChannel (channelId : string) : Async W C :=
  let! channel := channels_fetch channelId in
  match channel with
  | None => throw (ChannelNotFoundError channelId)
  | Some channel =>
      if negb (isTextBased channel)
      then throw (PermissionError
                    (String.append "Channel "
                       (String.append channelId " is not a text channel"))
                    None (Some channelId))
      else ret channel
  end.

(** [try { body } catch (error) { throw this.wrapError(error, channelId) }] *)
Definition guarded (channelId : string) (body : Async W T)
  : Async (RateLimitService.State W) T :=
  try_catch (on_client body)
    (fun error =>
       match wrapError error channelId with
       | None => never
       | Some (Return wrapped) => throw wrapped
       | Some (Throw raised) => throw raised
       end).

(** The shape [sendMessage] (lines 44-77), [updateMessage] (lines 86-131)
    and [removeMessage] (lines 139-151) share: the channel is fetched and
    then used, under the guard, the rate limiter and the retry handler.
    [deliver] is what the method does with the channel (build the payload
    and send, or fetch the message and edit or delete it). *)
Definition request (svc : t) (fuel : nat) (channelId : string)
    (deliver : C -> Async W T) : Async (RateLimitService.State W) T :=
  RetryHandler.execute (retryHandler svc)
    (RateLimitService.executeWithRateLimit fuel channelId
       (guarded channelId
          (let! channel := getChannel channelId in
           deliver channel))).

End Methods.

End MessageService.

(** ** [DiscordNotifier.postError] *)

Module DiscordNotifier.

(** [ClientOptions], [token] and [debug] apart. *)
Record ClientOptions : Type := mkOptions {
  channelId : string;
  errorChannelId : option string;
  maxRetries : option Z;
  retryDelay : option Q
}.

(** The message service the constructor builds (DiscordNotifier.ts, lines
    41-45). *)
Definition messageService (options : ClientOptions) : MessageService.t :=
  MessageService.new
    {| MessageService.opt_maxRetries := maxRetries options;
       MessageService.opt_retryDelay := retryDelay options |}.

Section Methods.
Context {S MessageOptions Message : Type}.

(** [this.messageService.sendMessage] *)
Variable sendMessage : string -> MessageOptions -> Async S Message.

(** The embed of the error (lines 146-162), built before anything is
    posted. *)
Variable errorEmbed : Async S MessageOptions.

Variable options : ClientOptions.

(** Lines 106-109. *)
Definition postMessage (messageOptions : MessageOptions) (target : option string)
  : Async S Message :=
  let targetChannelId := default (channelId options) target in
  sendMessage targetChannelId messageOptions.

(** Lines 144-183; the result is [None] for [undefined]. *)
Definition postError : Async S (option Message) :=
  let! messageOptions := errorEmbed in
  let! posted :=
    (if truthy_prim (from_option JStr JUndefined (errorChannelId options))
     then try_catch
            (let! message := postMessage messageOptions (errorChannelId options) in
             ret (Some message))
            (fun errorChannelError => ret None)
     else ret None) in
  match posted with
  | Some message => ret (Some message)
  | None =>
      try_catch
        (let! message := postMessage messageOptions (Some (channelId options)) in
         ret (Some message))
        (fun primaryChannelError => ret None)
  end.

End Methods.

End DiscordNotifier.

(** ** [TextTruncator] *)

Module TextTruncator.

Definition ELLIPSIS : string := "...".

(** [text.length] *)
Definition length (text : string) : Z := Z.of_nat (String.length text).

(** [text.substring(0, end)] for an integer [end]: a negative [end] counts
    as 0, one beyond the text as its length. *)
Definition substring_to (text : string) (end_ : Z) : string :=
  String.substring 0 (Z.to_nat end_) text.

(** Lines 118-128 of the file that holds both utilities. *)
Definition truncate (text : string) (limit : Z) : string :=
  if negb (truthy_prim (JStr text)) then ""
  else if length text <=? limit then text
  else String.append (substring_to text (limit - length ELLIPSIS)) ELLIPSIS.

Definition truncateTitle (text : string) : string := truncate text 256.
Definition truncateDescription (text : string) : string := truncate text 4096.
Definition truncateFieldName (text : string) : string := truncate text 256.
Definition truncateFieldValue (text : string) : string := truncate text 1024.
Definition truncateFooter (text : string) : string := truncate text 2048.

End TextTruncator.

(** ** [ColorConverter] *)

Module ColorConverter.

(** Lines 10-27. *)
Definition NAMED_COLORS : list (string * Z) :=
  [("RED", 0xff0000); ("GREEN", 0x00ff00); ("BLUE", 0x0000ff); ("YELLOW", 0xffff00);
   ("ORANGE", 0xff8c00); ("PURPLE", 0x800080); ("PINK", 0xffc0cb); ("WHITE", 0xffffff);
   ("BLACK", 0x000000); ("GREY", 0x808080); ("GRAY", 0x808080); ("CYAN", 0x00ffff);
   ("MAGENTA", 0xff00ff); ("GOLD", 0xffd700); ("SILVER", 0xc0c0c0); ("BLURPLE", 0x5865f2)].

(** [NAMED_COLORS[key]], among the table's own keys: every name the table
    inherits from [Object] has a lower-case letter, which no result of
    [toUpperCase] has. *)
Fixpoint named (key : string) (table : list (string * Z)) : option Z :=
  match table with
  | [] => None
  | (name, color) :: rest => if String.eqb key name then Some color else named key rest
  end.

(** The value of a hexadecimal digit; [None] for any other character. *)
Definition hex_digit (a : Ascii.ascii) : option Z :=
  let n := Z.of_nat (Ascii.nat_of_ascii a) in
  if (48 <=? n) && (n <=? 57) then Some (n - 48)          (* 0-9 *)
  else if (65 <=? n) && (n <=? 70) then Some (n - 55)     (* A-F *)
  else if (97 <=? n) && (n <=? 102) then Some (n - 87)    (* a-f *)
  else None.

(** [/^[0-9A-Fa-f]{6}$/.test(s)] *)
Definition is_hex6 (s : string) : bool :=
  Nat.eqb (String.length s) 6
  && forallb (fun a => bool_decide (is_Some (hex_digit a))) (list_ascii_of_string s).

(** [parseInt(s, 16)] for a string of hexadecimal digits. *)
Definition parseInt16 (s : string) : Z :=
  fold_left (fun value a => value * 16 + default 0 (hex_digit a))
    (list_ascii_of_string s) 0.

(** [s.startsWith('#')] *)
Definition startsWith_hash (s : string) : bool :=
  match s with
  | String a _ => Nat.eqb (Ascii.nat_of_ascii a) 35   (* # *)
  | EmptyString => false
  end.

(** [s.substring(1)] *)
Definition substring_from_1 (s : string) : string :=
  match s with
  | String _ rest => rest
  | EmptyString => EmptyString
  end.

(** A number as [toDecimal] can be handed one: a rational, or one of the
    three values of the type that are none. *)
Inductive Number : Type :=
| Finite (q : Q)
| NaN
| PlusInfinity
| MinusInfinity.

(** [a < b] on numbers: false as soon as one side is [NaN]. *)
Definition less (a b : Number) : bool :=
  match a, b with
  | NaN, _ | _, NaN => false
  | Finite x, Finite y => negb (Qle_bool y x)
  | Finite _, PlusInfinity => true
  | Finite _, MinusInfinity => false
  | PlusInfinity, _ => false
  | MinusInfinity, MinusInfinity => false
  | MinusInfinity, _ => true
  end.

(** What [toDecimal] can be handed as [color]: a number, a string, or a
    value that is neither. *)
Inductive Color : Type :=
| NumberColor (n : Number)
| StringColor (s : string)
| OtherColor.

(** [fromHex] and [fromNamed] return rationals ([parseInt] of six
    hexadecimal digits, an entry of the table); as results of [toDecimal]
    they are numbers. *)
Definition finite (r : Completion Q) : Completion Number :=
  match r with
  | Return q => Return (Finite q)
  | Throw e => Throw e
  end.

(** Lines 70-84. *)
Definition fromHex (hex : string) : Completion Q :=
  let cleanHex := if startsWith_hash hex then substring_from_1 hex else hex in
  if negb (is_hex6 cleanHex) then Throw (ValidationError (Some "color"))
  else Return (inject_Z (parseInt16 cleanHex)).

Section Named.

(** [String.prototype.toUpperCase] *)
Variable toUpperCase : string -> string.

(** Lines 92-104. *)
Definition fromNamed (name : string) : Completion Q :=
  let upperName := toUpperCase name in
  match named upperName NAMED_COLORS with
  | None => Throw (ValidationError (Some "color"))
  | Some color => Return (inject_Z color)
  end.

(** Lines 35-62, for any value handed in as [color]. *)
Definition toDecimal (color : Color) : Completion Number :=
  match color with
  | NumberColor color =>
      if less color (Finite 0) || less (Finite 0xffffff) color
      then Throw (ValidationError (Some "color"))
      else Return color
  | StringColor color =>
      if startsWith_hash color || is_hex6 color then finite (fromHex color)
      else finite (fromNamed color)
  | OtherColor => Throw (ValidationError (Some "color"))
  end.

End Named.

End ColorConverter.

(** ** What the code guarantees, in its own terms *)

Module Laws.

(** *** Retrying *)

(** The events of failed attempts that were retried, from attempt number
    [attempt] on: each failure with its events, then its backoff. *)
Fixpoint retried (h : RetryHandler.t) (attempt : Z)
    (failures : list (Value * list Event)) : list Event :=
  match failures with
  | [] => []
  | (e, inner) :: rest =>
      EvCall (Some e) inner
        :: EvSleep (RetryHandler.calculateDelay h attempt)
        :: retried h (attempt + 1) rest
  end.

(** What a completion threw, if it threw. *)
Definition outcome {T} (r : Completion T) : option Value :=
  match r with
  | Return _ => None
  | Throw e => Some e
  end.

(** The sum of a list of durations. *)
Definition total (durations : list Q) : Q := fold_right Qplus 0%Q durations.

(** *** Buckets *)

Definition same_bucket (a b : RateLimitService.BucketRef) : bool :=
  match a, b with
  | RateLimitService.GlobalRef, RateLimitService.GlobalRef => true
  | RateLimitService.ChannelRef c, RateLimitService.ChannelRef c' => String.eqb c c'
  | _, _ => false
  end.

(** The clock values at which [bucket] granted a token, in order. *)
Fixpoint grants_on (bucket : RateLimitService.BucketRef)
    (grants : list (Q * RateLimitService.BucketRef)) : list Q :=
  match grants with
  | [] => []
  | (now, granted) :: rest =>
      if same_bucket bucket granted then now :: grants_on bucket rest
      else grants_on bucket rest
  end.

(** The two services hold the same buckets, that of [channelId] apart. *)
Definition agree_except (channelId : string) (svc1 svc2 : RateLimitService.t) : Prop :=
  RateLimitService.globalBucket svc1 = RateLimitService.globalBucket svc2 /\
  forall c, c <> channelId ->
    RateLimitService.channelBuckets svc1 !! c = RateLimitService.channelBuckets svc2 !! c.

(** Two runs with the same result, the same events and the same world,
    whose services differ at most in the bucket of [channelId]. *)
Definition same_run_except {W A} (channelId : string)
    (run1 run2 : Completion A * RateLimitService.State W * list Event) : Prop :=
  fst (fst run1) = fst (fst run2)
  /\ snd run1 = snd run2
  /\ RateLimitService.world (snd (fst run1)) = RateLimitService.world (snd (fst run2))
  /\ agree_except channelId
       (RateLimitService.service (snd (fst run1)))
       (RateLimitService.service (snd (fst run2))).

(** *** Listeners *)

(** Every listener is a function object that exists. *)
Definition allocated (svc : Listening.t) : Prop :=
  Forall (fun f => (f < Listening.functions svc)%nat) (Listening.eventListeners svc).

(** *** Messages *)

(** The message a completed post delivered, if it did. *)
Definition delivered {Message} (r : Completion Message) : option Message :=
  match r with
  | Return message => Some message
  | Throw _ => None
  end.

(** What the guard of a request throws in place of [error]. *)
Definition reported (r : Completion Value) : Value :=
  match r with
  | Return wrapped => wrapped
  | Throw raised => raised
  end.

(** The fields the code converts hold what it expects of them, or a falsy
    value: [message] a string, [retryAfter] and [retry_after] numbers. *)
Definition plain_failure (error : Value) : Prop :=
  (truthy_prim (member "message" error) = true ->
   exists message, member "message" error = JStr message)
  /\ Spec.numeric_cooldown_fields error.

(** *** Colours *)

(** The hexadecimal digit of value [d], in upper or lower case. *)
Definition hex_char (upper : bool) (d : Z) : Ascii.ascii :=
  Ascii.ascii_of_nat (Z.to_nat (if d <? 10 then d + 48 else if upper then d + 55 else d + 87)).

(** [n] written with [digits] hexadecimal digits. *)
Fixpoint hex (upper : bool) (digits : nat) (n : Z) : string :=
  match digits with
  | O => EmptyString
  | Datatypes.S digits' =>
      String.append (hex upper digits' (n / 16)) (String (hex_char upper (n mod 16)) EmptyString)
  end.

End Laws.

(** ** More concrete inputs *)

Module MoreExamples.

(** [new RetryHandler({ maxRetries: -1 })] *)
Definition no_attempt : RetryHandler.t :=
  RetryHandler.new (RetryHandler.mkOptions (Some (-1)) None None).

(** [{ status: 503 }] *)
Definition unavailable : Value :=
  VObj {| class_of := PlainObject; props := {[ "status" := JNum 503 ]} |}.

(** An operation that rejects with [error] until the clock reads [ready],
    and returns from then on. *)
Definition recovers_at (ready : Q) (error : Value) : Async Q unit :=
  fun now => if Qle_bool ready now then Some (Return tt, now, [])
             else Some (Throw error, now, []).

(** Six acquisitions on channel "c", all at time 0. *)
Definition six_acquisitions : list (Q * RateLimitService.Action) :=
  Examples.acquire_pieces 0 ++ Examples.acquire_pieces 0 ++ Examples.acquire_pieces 0
  ++ Examples.acquire_pieces 0 ++ Examples.acquire_pieces 0 ++ Examples.acquire_pieces 0.

(** A client that finds every channel but "gone"; "voice" is no text
    channel. A channel is known by its id. *)
#[global] Instance Channels : MessageService.DiscordClient Q string := {|
  MessageService.channels_fetch channelId :=
    fun now => if String.eqb channelId "gone" then Some (Return None, now, [])
               else Some (Return (Some channelId), now, []);
  MessageService.isTextBased channel := negb (String.eqb channel "voice")
|}.

(** [{ status: 403, message: "Missing Access" }] *)
Definition missing_access : Value :=
  VObj {| class_of := PlainObject;
          props := <["status" := JNum 403]> {[ "message" := JStr "Missing Access" ]} |}.

(** [{ status: 404, message: "Unknown Message" }] *)
Definition unknown_message : Value :=
  VObj {| class_of := PlainObject;
          props := <["status" := JNum 404]> {[ "message" := JStr "Unknown Message" ]} |}.

(** [new MessageService(client, rateLimitService)] *)
Definition messages : MessageService.t :=
  MessageService.new (MessageService.mkOptions None None).

(** A notifier with an error channel. *)
Definition with_error_channel : DiscordNotifier.ClientOptions :=
  {| DiscordNotifier.channelId := "main";
     DiscordNotifier.errorChannelId := Some "errors";
     DiscordNotifier.maxRetries := None;
     DiscordNotifier.retryDelay := None |}.

(** Posting fails on channel "errors" and succeeds elsewhere; the message
    is known by the channel it went to. *)
Definition errors_channel_down (channelId : string) (_ : unit) : Async Q string :=
  fun now => if String.eqb channelId "errors"
             then Some (Throw Examples.forbidden, now, [])
             else Some (Return channelId, now, []).

(** [new RetryHandler({ retryableCodes: [403] })] *)
Definition retries_forbidden : RetryHandler.t :=
  RetryHandler.new (RetryHandler.mkOptions None None (Some [403#1]%Q)).

(** The fresh service after one acquisition on channel "c" at time 0. *)
Definition acquired : RateLimitService.State Q :=
  {| RateLimitService.world := 0%Q;
     RateLimitService.service :=
       fst (RateLimitService.run (Examples.acquire_pieces 0) (RateLimitService.new 0)) |}.

(** A notifier without an error channel and with the default retry
    options. *)
Definition plain_notifier : DiscordNotifier.ClientOptions :=
  {| DiscordNotifier.channelId := "main";
     DiscordNotifier.errorChannelId := None;
     DiscordNotifier.maxRetries := None;
     DiscordNotifier.retryDelay := None |}.

(** [toUpperCase] on the letters a to z. *)
Fixpoint toUpperCase (s : string) : string :=
  match s with
  | EmptyString => EmptyString
  | String a rest =>
      let n := Ascii.nat_of_ascii a in
      String (if Nat.leb 97 n && Nat.leb n 122 then Ascii.ascii_of_nat (n - 32) else a)
        (toUpperCase rest)
  end.

End MoreExamples.

(** * Supporting lemmas *)

Import RetryHandler Spec.

(** ** Classification *)

Lemma includes_elem_of (codes : list string) (code : string) :
  includes codes code = bool_decide (code ∈ codes).
Proof.
  unfold includes. induction codes as [|c codes IH]; cbn [existsb].
  - symmetry. apply bool_decide_eq_false_2, not_elem_of_nil.
  - rewrite IH. destruct (String.eqb_spec code c) as [->|Hne]; cbn [orb].
    + symmetry. apply bool_decide_eq_true_2. left.
    + apply bool_decide_ext. rewrite elem_of_cons.
      split; [auto | intros [?|?]; [contradiction | assumption]].
Qed.

Lemma has_prop_lookup (key : string) (o : Object) :
  has_prop key o = match props o !! key with Some _ => true | None => false end.
Proof. unfold has_prop. destruct (props o !! key); reflexivity. Qed.

Lemma probe_lookup (key : string) (o : Object) :
  (if has_prop key o then get_prop key o else JUndefined)
  = default JUndefined (props o !! key).
Proof.
  rewrite has_prop_lookup. unfold get_prop.
  destruct (props o !! key); reflexivity.
Qed.

Lemma extractStatusCode_head (error : Value) :
  extractStatusCode error = head (numeric_fields error).
Proof.
  destruct error as [p|o]; [reflexivity|].
  unfold extractStatusCode, numeric_fields, numeric_field. rewrite !probe_lookup. simpl.
  destruct (props o !! "status") as [[]|]; simpl; try reflexivity;
    destruct (props o !! "statusCode") as [[]|]; simpl; try reflexivity;
    destruct (props o !! "code") as [[]|]; simpl; reflexivity.
Qed.

Lemma isNetworkError_string_code (error : Value) :
  isNetworkError error
  = match string_code error with
    | Some code => recognized_network_code code
    | None => false
    end.
Proof.
  destruct error as [p|o]; [reflexivity|].
  unfold isNetworkError, string_code, recognized_network_code.
  rewrite has_prop_lookup. unfold get_prop.
  destruct (props o !! "code") as [[| | | |code|]|]; try reflexivity.
  exact (includes_elem_of networkErrorCodes code).
Qed.

Lemma not_isHttpError_no_numeric (error : Value) :
  isHttpError error = false -> numeric_fields error = [].
Proof.
  destruct error as [p|o]; [reflexivity|].
  unfold isHttpError, numeric_fields, numeric_field. rewrite !has_prop_lookup. simpl.
  destruct (props o !! "status"); simpl; [discriminate|].
  destruct (props o !! "statusCode"); simpl; [discriminate|].
  destruct (props o !! "code"); simpl; [discriminate|]. reflexivity.
Qed.

(** The verdict of [isRetryableError] is the one of the precedence table. *)
Lemma isRetryableError_classify (h : RetryHandler.t) (error : Value) :
  isRetryableError h error = retryable (classify (retryableCodes h) error).
Proof.
  unfold isRetryableError, classify.
  destruct (instanceof_RateLimitError error); [reflexivity|].
  rewrite isNetworkError_string_code, extractStatusCode_head.
  assert (Hhttp : (if isHttpError error
                   then match head (numeric_fields error) with
                        | Some statusCode => has (retryableCodes h) statusCode
                        | None => false
                        end
                   else false)
                  = retryable (match head (numeric_fields error) with
                               | Some n => if has (retryableCodes h) n
                                           then HttpTransient n else Fatal
                               | None => Fatal
                               end)).
  { destruct (isHttpError error) eqn:Hh.
    - destruct (head (numeric_fields error)); [|reflexivity].
      destruct (has (retryableCodes h) q); reflexivity.
    - rewrite (not_isHttpError_no_numeric _ Hh). reflexivity. }
  destruct (string_code error) as [code|]; [|exact Hhttp].
  destruct (recognized_network_code code); [reflexivity|exact Hhttp].
Qed.

(** ** The attempt loop *)

Lemma pow2_inject_Z (n : Z) : 0 <= n -> (2 ^ n)%Q = inject_Z (2 ^ n).
Proof.
  intros Hn. destruct n as [|p|p]; [reflexivity| |lia].
  change ((2 ^ Z.pos p)%Q) with (Qpower_positive (2 # 1) p).
  rewrite Qpower_decomp_positive.
  replace (1 ^ p)%positive with 1%positive; [reflexivity|].
  apply Pos2Z.inj. rewrite Pos2Z.inj_pow, Z.pow_1_l; [reflexivity|lia].
Qed.

Lemma calculateDelay_backoff (h : RetryHandler.t) (n : Z) :
  0 <= n -> calculateDelay h n = backoff h n.
Proof. intros Hn. unfold calculateDelay, backoff. rewrite pow2_inject_Z by exact Hn. reflexivity. Qed.

Section Loop.
Context {St : Type} `{Runtime St} {T : Type}.
Variable h : RetryHandler.t.
Variable operation : Async St T.

Abbreviation verdict e := (retryable (classify (retryableCodes h) e)).

(** One pass through the loop body, by what the operation does. *)
Lemma execute_body_eq (attempt : Z) (s : St) :
  execute_body h operation attempt s =
  match operation s with
  | None => None
  | Some (Return a, s1, inner) => Some (Return (inl a), s1, [EvCall None inner])
  | Some (Throw e, s1, inner) =>
      if negb (verdict e) || (attempt =? maxRetries h)
      then Some (Throw e, s1, [EvCall (Some e) inner])
      else Some (Return (inr e), wake (calculateDelay h attempt) s1,
                 [EvCall (Some e) inner; EvSleep (calculateDelay h attempt)])
  end.
Proof.
  unfold execute_body, try_catch, bind, invoke, ret, throw, sleep.
  destruct (operation s) as [[[[a|e] s1] inner]|]; try reflexivity.
  rewrite <- isRetryableError_classify.
  destruct (negb (isRetryableError h e) || (attempt =? maxRetries h)); reflexivity.
Qed.

Lemma execute_from_eq (fuel : nat) (attempt : Z) (lastError : Value) (s : St) :
  attempt <= maxRetries h ->
  execute_from h operation (Datatypes.S fuel) attempt lastError s =
  match execute_body h operation attempt s with
  | None => None
  | Some (Throw e, s1, t1) => Some (Throw e, s1, t1)
  | Some (Return (inl a), s1, t1) => Some (Return a, s1, t1 ++ [])
  | Some (Return (inr error), s1, t1) =>
      match execute_from h operation fuel (attempt + 1) error s1 with
      | None => None
      | Some (r, s2, t2) => Some (r, s2, t1 ++ t2)
      end
  end.
Proof.
  intros Hle. cbn [execute_from].
  apply Z.leb_le in Hle. rewrite Hle. unfold bind.
  destruct (execute_body h operation attempt s) as [[[[[a|e']|e] s1] t1]|]; reflexivity.
Qed.

(** Every settled run of the loop is a run of the specification's loop. *)
Lemma execute_from_sound (fuel : nat) :
  forall attempt lastError s r s' trace,
    0 <= attempt <= maxRetries h ->
    execute_from h operation fuel attempt lastError s = Some (r, s', trace) ->
    attempts h operation attempt s r s' trace.
Proof.
  induction fuel as [|fuel IH]; intros attempt lastError s r s' trace Hrange Hrun.
  - cbn [execute_from] in Hrun.
    destruct (attempt <=? maxRetries h) eqn:Hle; [discriminate|].
    apply Z.leb_gt in Hle. lia.
  - rewrite execute_from_eq, execute_body_eq in Hrun by lia.
    destruct (operation s) as [[[[a|e] s1] inner]|] eqn:Hop; [| |discriminate].
    + injection Hrun as <- <- <-. now apply attempt_succeeds.
    + destruct (verdict e) eqn:Hv; cbn [negb orb] in Hrun.
      * destruct (attempt =? maxRetries h) eqn:Hlast.
        -- injection Hrun as <- <- <-. apply Z.eqb_eq in Hlast.
           apply attempt_rethrows; auto.
        -- apply Z.eqb_neq in Hlast.
           destruct (execute_from h operation fuel (attempt + 1) e
                       (wake (calculateDelay h attempt) s1))
             as [[[r2 s2] t2]|] eqn:Hrest; [|discriminate].
           injection Hrun as <- <- <-.
           rewrite calculateDelay_backoff in * by lia.
           apply attempt_retries with (s1 := s1); auto; [lia|].
           apply (IH _ e); [lia|exact Hrest].
      * injection Hrun as <- <- <-. apply attempt_rethrows; auto.
Qed.

(** Every run of the specification's loop is what the code does, given
    fuel for the attempts that remain. *)
Lemma execute_from_complete (attempt : Z) (s : St) r s' trace :
  attempts h operation attempt s r s' trace ->
  forall fuel lastError,
    0 <= attempt <= maxRetries h ->
    (Z.to_nat (maxRetries h - attempt + 1) <= fuel)%nat ->
    execute_from h operation fuel attempt lastError s = Some (r, s', trace).
Proof.
  induction 1 as [attempt s a s' inner Hop
                 |attempt s e s' inner Hop Hstop
                 |attempt s e s1 inner r s' trace Hop Hv Hlt Hrest IH];
    intros fuel lastError Hrange Hfuel;
    (destruct fuel as [|fuel]; [lia|]);
    rewrite execute_from_eq, execute_body_eq, Hop by lia.
  - reflexivity.
  - destruct Hstop as [Hv| ->].
    + rewrite Hv. reflexivity.
    + rewrite Z.eqb_refl, orb_true_r. reflexivity.
  - rewrite Hv. cbn [negb orb].
    destruct (attempt =? maxRetries h) eqn:Hlast; [apply Z.eqb_eq in Hlast; lia|].
    rewrite calculateDelay_backoff by lia.
    rewrite (IH fuel e) by lia. reflexivity.
Qed.

(** The loop invokes the operation at most once per remaining attempt. *)
Lemma attempts_invocations (attempt : Z) (s : St) r s' trace :
  attempts h operation attempt s r s' trace ->
  attempt <= maxRetries h ->
  (1 <= invocations trace)%nat /\
  Z.of_nat (invocations trace) <= maxRetries h - attempt + 1.
Proof.
  induction 1 as [| |attempt s e s1 inner r s' trace Hop Hv Hlt Hrest IH]; intros Hle.
  - cbn. lia.
  - cbn. lia.
  - specialize (IH ltac:(lia)).
    change (invocations (EvCall (Some e) inner :: EvSleep (backoff h attempt) :: trace))
      with (Datatypes.S (invocations trace)).
    lia.
Qed.

(** A loop that throws ends on an invocation that threw the same value,
    and in the state that invocation left. *)
Lemma attempts_final_throw (attempt : Z) (s : St) e s' trace :
  attempts h operation attempt s (Throw e) s' trace ->
  exists s_last inner,
    operation s_last = Some (Throw e, s', inner) /\
    last trace = Some (EvCall (Some e) inner).
Proof.
  remember (Throw e) as r eqn:Hr.
  induction 1 as [attempt s a s' inner Hop
                 |attempt s e0 s' inner Hop Hstop
                 |attempt s e0 s1 inner r s' trace Hop Hv Hlt Hrest IH].
  - discriminate.
  - injection Hr as ->. exists s, inner. split; [exact Hop|reflexivity].
  - destruct (IH Hr) as (s_last & inner' & Hlast & Htrace).
    exists s_last, inner'. split; [exact Hlast|].
    destruct trace as [|ev trace]; [discriminate|]. exact Htrace.
Qed.

(** The suspensions of the loop are the backoff delays of the attempts that
    failed and were retried, in order. *)
Lemma attempts_sleeps (attempt : Z) (s : St) r s' trace :
  attempts h operation attempt s r s' trace ->
  sleeps trace
  = map (fun i => backoff h (attempt + Z.of_nat i)) (seq 0 (invocations trace - 1)).
Proof.
  induction 1 as [| |attempt s e s1 inner r s' trace Hop Hv Hlt Hrest IH].
  - reflexivity.
  - reflexivity.
  - change (invocations (EvCall (Some e) inner :: EvSleep (backoff h attempt) :: trace))
      with (Datatypes.S (invocations trace)).
    cbn [sleeps]. rewrite IH.
    assert (Hpos : (1 <= invocations trace)%nat).
    { clear -Hrest. induction Hrest; cbn; lia. }
    replace (Datatypes.S (invocations trace) - 1)%nat
      with (Datatypes.S (invocations trace - 1)) by lia.
    cbn [seq map]. rewrite Z.add_0_r. f_equal.
    rewrite <- seq_shift, map_map.
    apply map_ext. intros i. f_equal. lia.
Qed.

(** When every invocation throws something retryable, the loop uses all its
    attempts and throws. *)
Lemma attempts_exhaust (n : nat) :
  (forall s0, exists e s1 inner,
      operation s0 = Some (Throw e, s1, inner) /\ verdict e = true) ->
  forall attempt s,
    maxRetries h - attempt = Z.of_nat n ->
    exists e s' trace,
      attempts h operation attempt s (Throw e) s' trace /\
      invocations trace = Datatypes.S n.
Proof.
  intros Hfails. induction n as [|n IH]; intros attempt s Hleft.
  - destruct (Hfails s) as (e & s1 & inner & Hop & Hv).
    exists e, s1, [EvCall (Some e) inner]. split; [|reflexivity].
    apply attempt_rethrows; [exact Hop|right; lia].
  - destruct (Hfails s) as (e & s1 & inner & Hop & Hv).
    destruct (IH (attempt + 1) (wake (backoff h attempt) s1) ltac:(lia))
      as (e' & s' & trace & Hrest & Hcount).
    exists e', s', (EvCall (Some e) inner :: EvSleep (backoff h attempt) :: trace).
    split.
    + apply attempt_retries with (s1 := s1); auto. lia.
    + change (Datatypes.S (invocations trace) = Datatypes.S (Datatypes.S n)).
      now rewrite Hcount.
Qed.

(** The specification's loop always has a run when the operation always
    settles. *)
Lemma attempts_total (n : nat) :
  (forall s0, operation s0 <> None) ->
  forall attempt s,
    maxRetries h - attempt = Z.of_nat n ->
    exists r s' trace, attempts h operation attempt s r s' trace.
Proof.
  intros Hsettles. induction n as [|n IH]; intros attempt s Hleft;
    destruct (operation s) as [[[[a|e] s1] inner]|] eqn:Hop;
    try (exfalso; exact (Hsettles s Hop)).
  - exists (Return a), s1, [EvCall None inner]. now apply attempt_succeeds.
  - exists (Throw e), s1, [EvCall (Some e) inner].
    apply attempt_rethrows; [exact Hop|right; lia].
  - exists (Return a), s1, [EvCall None inner]. now apply attempt_succeeds.
  - destruct (verdict e) eqn:Hv.
    + destruct (IH (attempt + 1) (wake (backoff h attempt) s1) ltac:(lia))
        as (r & s' & trace & Hrest).
      exists r, s', (EvCall (Some e) inner :: EvSleep (backoff h attempt) :: trace).
      apply attempt_retries with (s1 := s1); auto. lia.
    + exists (Throw e), s1, [EvCall (Some e) inner].
      apply attempt_rethrows; [exact Hop|now left].
Qed.

Lemma execute_sound (s : St) r s' trace :
  0 <= maxRetries h ->
  execute h operation s = Some (r, s', trace) ->
  attempts h operation 0 s r s' trace.
Proof. intros Hn. apply execute_from_sound. lia. Qed.

Lemma execute_complete (s : St) r s' trace :
  0 <= maxRetries h ->
  attempts h operation 0 s r s' trace ->
  execute h operation s = Some (r, s', trace).
Proof.
  intros Hn Hrun. unfold execute.
  apply (execute_from_complete _ _ _ _ _ Hrun); [lia|].
  replace (maxRetries h - 0 + 1) with (maxRetries h + 1) by lia. lia.
Qed.

(** [execute] settles whenever the operation does: the fuel it gives its
    loop is enough. *)
Lemma execute_settles (s : St) :
  (forall s0, operation s0 <> None) ->
  execute h operation s <> None.
Proof.
  intros Hsettles. destruct (Z_lt_le_dec (maxRetries h) 0) as [Hneg|Hn].
  - unfold execute. replace (Z.to_nat (maxRetries h + 1)) with 0%nat by lia.
    cbn [execute_from].
    destruct (0 <=? maxRetries h) eqn:Hle; [apply Z.leb_le in Hle; lia|].
    discriminate.
  - destruct (attempts_total (Z.to_nat (maxRetries h)) Hsettles 0 s ltac:(lia))
      as (r & s' & trace & Hrun).
    rewrite (execute_complete s r s' trace Hn Hrun). discriminate.
Qed.

End Loop.

(** ** Token buckets *)

Ltac q_arith :=
  unfold Qdiv in *; change (/ 1000)%Q with (1 # 1000)%Q in *; lra.

Section Buckets.
Import RateLimitService.

Lemma refillBucket_capped (now : Q) (b : TokenBucket) :
  (tokens (refillBucket now b) <= capacity (refillBucket now b))%Q.
Proof. cbn. apply Q.le_min_l. Qed.

Lemma refillBucket_added (now : Q) (b : TokenBucket) :
  (tokens (refillBucket now b)
     <= tokens b + (now - lastRefill b) / 1000 * refillRate b)%Q.
Proof. cbn. apply Q.le_min_r. Qed.

Lemma pass_granted (now : Q) (b : TokenBucket) :
  (1 <= tokens (refillBucket now b))%Q ->
  acquireFromBucket_pass now b = (consume (refillBucket now b), None).
Proof.
  intros Hge. unfold acquireFromBucket_pass.
  apply Qle_bool_iff in Hge. rewrite Hge. reflexivity.
Qed.

Lemma pass_refused (now : Q) (b : TokenBucket) :
  (tokens (refillBucket now b) < 1)%Q ->
  acquireFromBucket_pass now b
  = (refillBucket now b, Some (calculateWaitTime (refillBucket now b))).
Proof.
  intros Hlt. unfold acquireFromBucket_pass.
  destruct (Qle_bool 1 (tokens (refillBucket now b))) eqn:Hge; [|reflexivity].
  apply Qle_bool_iff in Hge. lra.
Qed.

Lemma pass_cases (now : Q) (b : TokenBucket) :
  ((1 <= tokens (refillBucket now b))%Q
   /\ acquireFromBucket_pass now b = (consume (refillBucket now b), None))
  \/ ((tokens (refillBucket now b) < 1)%Q
      /\ acquireFromBucket_pass now b
         = (refillBucket now b, Some (calculateWaitTime (refillBucket now b)))).
Proof.
  destruct (Qlt_le_dec (tokens (refillBucket now b)) 1) as [Hlt|Hge].
  - right. split; [exact Hlt|now apply pass_refused].
  - left. split; [exact Hge|now apply pass_granted].
Qed.

(** *** Capacity and rate never change *)

Lemma well_formed_new (now : Q) : well_formed (new now).
Proof.
  split; [split; reflexivity|].
  intros c b Hb. cbn in Hb. rewrite lookup_empty in Hb. discriminate.
Qed.

Lemma deref_shape (ref : BucketRef) (svc : t) (b : TokenBucket) :
  well_formed svc -> deref ref svc = Some b -> shape ref b.
Proof.
  intros [Hg Hc] Hb. destruct ref as [|c]; cbn in *.
  - now injection Hb as <-.
  - now apply (Hc c).
Qed.

Lemma well_formed_assign (ref : BucketRef) (b : TokenBucket) (svc : t) :
  well_formed svc -> shape ref b -> well_formed (assign ref b svc).
Proof.
  intros [Hg Hc] Hb. destruct ref as [|c]; cbn in *.
  - split; assumption.
  - split; [assumption|]. intros c' b' Hb'. cbn in Hb'.
    destruct (decide (c = c')) as [->|Hne].
    + rewrite lookup_insert_eq in Hb'. now injection Hb' as <-.
    + rewrite lookup_insert_ne in Hb' by exact Hne. now apply (Hc c').
Qed.

Lemma deref_assign (ref : BucketRef) (b : TokenBucket) (svc : t) :
  deref ref (assign ref b svc) = Some b.
Proof. destruct ref as [|c]; cbn; [reflexivity|apply lookup_insert_eq]. Qed.

Lemma shape_pass (ref : BucketRef) (now : Q) (b : TokenBucket) :
  shape ref b -> shape ref (fst (acquireFromBucket_pass now b)).
Proof.
  intros Hb. unfold acquireFromBucket_pass.
  destruct (Qle_bool 1 (tokens (refillBucket now b))); destruct ref; exact Hb.
Qed.

Lemma getOrCreateChannelBucket_lookup (now : Q) (c : string) (svc : t) :
  channelBuckets (getOrCreateChannelBucket now c svc) !! c
  = Some (default {| tokens := CHANNEL_CAPACITY; capacity := CHANNEL_CAPACITY;
                     refillRate := CHANNEL_REFILL_RATE; lastRefill := now |}
            (channelBuckets svc !! c)).
Proof.
  unfold getOrCreateChannelBucket.
  destruct (channelBuckets svc !! c) as [b|] eqn:Hb; cbn.
  - exact Hb.
  - apply lookup_insert_eq.
Qed.

Lemma getOrCreateChannelBucket_other (now : Q) (c c' : string) (svc : t) :
  c <> c' ->
  channelBuckets (getOrCreateChannelBucket now c svc) !! c' = channelBuckets svc !! c'.
Proof.
  intros Hne. unfold getOrCreateChannelBucket.
  destruct (channelBuckets svc !! c); cbn; [reflexivity|].
  now apply lookup_insert_ne.
Qed.

Lemma getOrCreateChannelBucket_present (now : Q) (c c' : string) (svc : t) b :
  channelBuckets svc !! c' = Some b ->
  channelBuckets (getOrCreateChannelBucket now c svc) !! c' = Some b.
Proof.
  intros Hb. destruct (decide (c = c')) as [->|Hne].
  - rewrite getOrCreateChannelBucket_lookup, Hb. reflexivity.
  - rewrite getOrCreateChannelBucket_other by exact Hne. exact Hb.
Qed.

Lemma getOrCreateChannelBucket_global (now : Q) (c : string) (svc : t) :
  globalBucket (getOrCreateChannelBucket now c svc) = globalBucket svc.
Proof. unfold getOrCreateChannelBucket. destruct (channelBuckets svc !! c); reflexivity. Qed.

Lemma well_formed_getOrCreateChannelBucket (now : Q) (c : string) (svc : t) :
  well_formed svc -> well_formed (getOrCreateChannelBucket now c svc).
Proof.
  intros Hwf. unfold getOrCreateChannelBucket.
  destruct (channelBuckets svc !! c) eqn:Hb; [exact Hwf|].
  apply (well_formed_assign (ChannelRef c)); [exact Hwf|split; reflexivity].
Qed.

(** What [handleRateLimit] leaves in the channel's bucket. *)
Lemma handleRateLimit_lookup (now : Q) (c : string) (retryAfter : Q) (svc : t) :
  exists b0,
    channelBuckets (getOrCreateChannelBucket now c svc) !! c = Some b0 /\
    channelBuckets (handleRateLimit now c retryAfter svc) !! c
    = Some {| tokens := 0; capacity := capacity b0; refillRate := refillRate b0;
              lastRefill := (now + retryAfter)%Q |}.
Proof.
  unfold handleRateLimit. rewrite getOrCreateChannelBucket_lookup.
  eexists. split; [reflexivity|]. cbn. apply lookup_insert_eq.
Qed.

Lemma well_formed_handleRateLimit (now : Q) (c : string) (retryAfter : Q) (svc : t) :
  well_formed svc -> well_formed (handleRateLimit now c retryAfter svc).
Proof.
  intros Hwf. apply (well_formed_getOrCreateChannelBucket now c) in Hwf.
  unfold handleRateLimit.
  destruct (channelBuckets (getOrCreateChannelBucket now c svc) !! c) as [b|] eqn:Hb;
    [|exact Hwf].
  apply (well_formed_assign (ChannelRef c)); [exact Hwf|].
  exact (deref_shape (ChannelRef c) _ _ Hwf Hb).
Qed.

Lemma well_formed_reset (now : Q) (svc : t) :
  well_formed svc -> well_formed (reset now svc).
Proof.
  intros [Hg Hc]. split; [exact Hg|].
  intros c b Hb. cbn in Hb. rewrite lookup_fmap in Hb.
  destruct (channelBuckets svc !! c) as [b0|] eqn:Hb0; [|discriminate].
  cbn in Hb. injection Hb as <-. exact (Hc c b0 Hb0).
Qed.

Lemma well_formed_act (now : Q) (a : Action) (svc : t) :
  well_formed svc -> well_formed (fst (act now a svc)).
Proof.
  intros Hwf. destruct a as [ref|c|c retryAfter|]; cbn.
  - destruct (deref ref svc) as [b|] eqn:Hb; [|exact Hwf].
    pose proof (shape_pass ref now b (deref_shape _ _ _ Hwf Hb)) as Hs.
    destruct (acquireFromBucket_pass now b) as [b' wait]. cbn in *.
    now apply well_formed_assign.
  - now apply well_formed_getOrCreateChannelBucket.
  - now apply well_formed_handleRateLimit.
  - now apply well_formed_reset.
Qed.

Lemma well_formed_run (history : list (Q * Action)) :
  forall svc, well_formed svc -> well_formed (fst (run history svc)).
Proof.
  induction history as [|[now a] rest IH]; intros svc Hwf; [exact Hwf|].
  cbn [run]. pose proof (well_formed_act now a svc Hwf) as Hact.
  destruct (act now a svc) as [svc1 granted]. cbn in Hact.
  specialize (IH svc1 Hact). destruct (run rest svc1) as [svc2 grants]. exact IH.
Qed.

End Buckets.

(** ** Cooldown *)

Section Cooldown.
Import RateLimitService.

Lemma cooling_refill (deadline now : Q) (b : TokenBucket) :
  cooling deadline b -> cooling deadline (refillBucket now b).
Proof.
  unfold cooling. intros Hc. pose proof (refillBucket_added now b) as Hadd.
  cbn [refillBucket lastRefill refillRate] in *.
  set (m := tokens (refillBucket now b)) in *. clearbody m. q_arith.
Qed.

Lemma cooling_consume (deadline : Q) (b : TokenBucket) :
  cooling deadline b -> cooling deadline (consume b).
Proof. unfold cooling. cbn. intros Hc. q_arith. Qed.

Lemma cooling_pass (deadline now : Q) (b : TokenBucket) :
  cooling deadline b -> cooling deadline (fst (acquireFromBucket_pass now b)).
Proof.
  intros Hc. unfold acquireFromBucket_pass.
  destruct (Qle_bool 1 (tokens (refillBucket now b))); cbn [fst].
  - now apply cooling_consume, cooling_refill.
  - now apply cooling_refill.
Qed.

(** A token is granted only once the clock has passed the deadline. *)
Lemma cooling_grant (deadline now : Q) (b : TokenBucket) :
  cooling deadline b ->
  (0 < refillRate b)%Q ->
  (1 <= tokens (refillBucket now b))%Q ->
  (deadline < now)%Q.
Proof.
  intros Hc Hrate Hge. apply (cooling_refill deadline now) in Hc.
  unfold cooling in Hc. cbn [refillBucket lastRefill refillRate] in *.
  set (m := tokens (refillBucket now b)) in *. clearbody m.
  unfold Qdiv in *; change (/ 1000)%Q with (1 # 1000)%Q in *. nra.
Qed.

Lemma channel_rate_positive (b : TokenBucket) :
  channel_shape b -> (0 < refillRate b)%Q.
Proof. intros [_ ->]. reflexivity. Qed.

Lemma cooling_handleRateLimit (now : Q) (c : string) (retryAfter : Q) (svc : t) :
  cooling_channel (now + retryAfter) c (handleRateLimit now c retryAfter svc).
Proof.
  destruct (handleRateLimit_lookup now c retryAfter svc) as (b0 & _ & Hb).
  eexists. split; [exact Hb|]. unfold cooling. cbn. q_arith.
Qed.

(** A piece of [acquireToken], run by any caller, keeps the channel
    cooling, and is granted a token of that channel only after the
    deadline. *)
Lemma cooling_act (deadline : Q) (c : string) (now : Q) (a : Action) (svc : t) :
  well_formed svc ->
  cooling_channel deadline c svc ->
  is_acquisition a = true ->
  cooling_channel deadline c (fst (act now a svc))
  /\ (a = Poll (ChannelRef c) -> snd (act now a svc) = true -> (deadline < now)%Q).
Proof.
  intros Hwf (b & Hb & Hc) Ha.
  destruct a as [[|c']|c'| |]; try discriminate; cbn [act].
  - (* a pass on the global bucket *)
    cbn [deref].
    destruct (acquireFromBucket_pass now (globalBucket svc)) as [b' wait] eqn:Hpass.
    cbn. split; [|discriminate]. exists b. split; assumption.
  - (* a pass on a channel's bucket *)
    cbn [deref]. destruct (decide (c' = c)) as [->|Hne].
    + rewrite Hb.
      pose proof (cooling_pass deadline now b Hc) as Hc'.
      destruct (pass_cases now b) as [[Hge Hpass]|[Hlt Hpass]];
        rewrite Hpass in *; cbn in *.
      * split.
        -- eexists. split; [apply lookup_insert_eq|exact Hc'].
        -- intros _ _. apply (cooling_grant deadline now b Hc); [|exact Hge].
           apply channel_rate_positive. now apply (proj2 Hwf c).
      * split.
        -- eexists. split; [apply lookup_insert_eq|exact Hc'].
        -- intros _ Hgranted. discriminate.
    + destruct (channelBuckets svc !! c') as [b1|] eqn:Hb1.
      * destruct (acquireFromBucket_pass now b1) as [b' wait]. cbn.
        split; [|intros Heq; congruence].
        exists b. split; [|exact Hc]. cbn. now rewrite lookup_insert_ne.
      * cbn. split; [|intros Heq; congruence]. exists b. split; assumption.
  - (* making sure a channel has a bucket *)
    cbn. split; [|discriminate].
    exists b. split; [|exact Hc]. now apply getOrCreateChannelBucket_present.
Qed.

Lemma cooling_run (deadline : Q) (c : string) (history : list (Q * Action)) :
  forall svc,
    well_formed svc ->
    cooling_channel deadline c svc ->
    acquisitions_only history ->
    forall now, In (now, ChannelRef c) (snd (run history svc)) -> (deadline < now)%Q.
Proof.
  induction history as [|[now0 a] rest IH]; intros svc Hwf Hcool Hacq now Hin.
  - contradiction.
  - apply Forall_cons in Hacq as [Ha Hrest]. cbn [snd] in Ha.
    destruct (cooling_act deadline c now0 a svc Hwf Hcool Ha) as [Hcool1 Hgrant].
    pose proof (well_formed_act now0 a svc Hwf) as Hwf1.
    cbn [run] in Hin.
    destruct (act now0 a svc) as [svc1 granted]. cbn [fst snd] in *.
    specialize (IH svc1 Hwf1 Hcool1 Hrest now).
    destruct (run rest svc1) as [svc2 grants]. cbn [snd] in *.
    destruct a as [ref|c'|c' r|]; try (now apply IH).
    destruct granted; [|now apply IH].
    destruct Hin as [Heq|Hin]; [|now apply IH].
    injection Heq as -> ->. now apply Hgrant.
Qed.

(** A depletion signal for another channel leaves this channel's bucket as
    it is. *)
Lemma handleRateLimit_other (now : Q) (c c' : string) (retryAfter : Q) (svc : t) :
  c' <> c ->
  channelBuckets (handleRateLimit now c' retryAfter svc) !! c = channelBuckets svc !! c.
Proof.
  intros Hne. unfold handleRateLimit.
  pose proof (getOrCreateChannelBucket_other now c' c svc Hne) as Hother.
  destruct (channelBuckets (getOrCreateChannelBucket now c' svc) !! c');
    [|exact Hother].
  cbn. rewrite lookup_insert_ne by exact Hne. exact Hother.
Qed.

(** The same for any action that leaves the cooldown alone. *)
Lemma cooling_kept_act (deadline : Q) (c : string) (now : Q) (a : Action) (svc : t) :
  well_formed svc ->
  cooling_channel deadline c svc ->
  keeps_cooldown c a ->
  cooling_channel deadline c (fst (act now a svc))
  /\ (a = Poll (ChannelRef c) -> snd (act now a svc) = true -> (deadline < now)%Q).
Proof.
  intros Hwf Hcool Hkept.
  destruct a as [ref|c'|c' retryAfter|];
    try (apply cooling_act; [assumption|assumption|reflexivity]).
  - cbn [act fst snd]. split; [|discriminate].
    destruct Hcool as (b & Hb & Hc). exists b. split; [|exact Hc].
    rewrite handleRateLimit_other by exact Hkept. exact Hb.
  - contradiction.
Qed.

Lemma cooling_kept_run (deadline : Q) (c : string) (history : list (Q * Action)) :
  forall svc,
    well_formed svc ->
    cooling_channel deadline c svc ->
    cooldown_kept c history ->
    cooling_channel deadline c (fst (run history svc))
    /\ forall now, In (now, ChannelRef c) (snd (run history svc)) -> (deadline < now)%Q.
Proof.
  induction history as [|[now0 a] rest IH]; intros svc Hwf Hcool Hkept.
  - split; [exact Hcool|intros now []].
  - apply Forall_cons in Hkept as [Ha Hrest]. cbn [snd] in Ha.
    destruct (cooling_kept_act deadline c now0 a svc Hwf Hcool Ha) as [Hcool1 Hgrant].
    pose proof (well_formed_act now0 a svc Hwf) as Hwf1.
    cbn [run].
    destruct (act now0 a svc) as [svc1 granted]. cbn [fst snd] in *.
    specialize (IH svc1 Hwf1 Hcool1 Hrest).
    destruct (run rest svc1) as [svc2 grants]. cbn [fst snd] in *.
    destruct IH as [Hcool2 Hlater]. split; [exact Hcool2|].
    intros now Hin.
    destruct a as [ref|c'|c' r|]; try (now apply Hlater).
    destruct granted; [|now apply Hlater].
    destruct Hin as [Heq|Hin]; [|now apply Hlater].
    injection Heq as -> ->. now apply Hgrant.
Qed.

End Cooldown.

(** ** Acquisition by one caller *)

Section Acquire.
Context {W : Type} `{Runtime W}.
Import RateLimitService.

Lemma acquireFromBucket_eq (fuel : nat) (ref : BucketRef) (s : State W) :
  acquireFromBucket (Datatypes.S fuel) ref s =
  match deref ref (service s) with
  | None => None
  | Some b =>
      match acquireFromBucket_pass (Date_now s) b with
      | (b', None) => Some (Return tt, update (assign ref b') s, [])
      | (b', Some waitTime) =>
          match acquireFromBucket fuel ref (wake waitTime (update (assign ref b') s)) with
          | None => None
          | Some (r, s2, t2) => Some (r, s2, EvSleep waitTime :: t2)
          end
      end
  end.
Proof.
  cbn [acquireFromBucket]. unfold bind, gets, modify, sleep, ret, never.
  destruct (deref ref (service s)) as [b|]; [|reflexivity].
  destruct (acquireFromBucket_pass (Date_now s) b) as [b' [waitTime|]]; [|reflexivity].
  destruct (acquireFromBucket fuel ref (wake waitTime (update (assign ref b') s)))
    as [[[r s2] t2]|]; reflexivity.
Qed.

Lemma acquireToken_eq (fuel : nat) (c : string) (s : State W) :
  acquireToken fuel c s =
  match acquireFromBucket fuel GlobalRef s with
  | None => None
  | Some (Throw e, s1, t1) => Some (Throw e, s1, t1)
  | Some (Return _, s1, t1) =>
      match acquireFromBucket fuel (ChannelRef c)
              (update (getOrCreateChannelBucket (Date_now s1) c) s1) with
      | None => None
      | Some (r, s2, t2) => Some (r, s2, t1 ++ t2)
      end
  end.
Proof.
  unfold acquireToken, bind, gets, modify.
  destruct (acquireFromBucket fuel GlobalRef s) as [[[[[]|e] s1] t1]|]; try reflexivity.
  destruct (acquireFromBucket fuel (ChannelRef c)
              (update (getOrCreateChannelBucket (Date_now s1) c) s1))
    as [[[r s2] t2]|]; reflexivity.
Qed.

Lemma refilled_refillBucket (cap rate now : Q) (b : TokenBucket) :
  capacity b = cap -> refillRate b = rate ->
  refilled cap rate now b = refillBucket now b.
Proof. intros <- <-. reflexivity. Qed.

Lemma with_channel_eq (now : Q) (c : string) (svc : t) :
  with_channel now c svc = getOrCreateChannelBucket now c svc.
Proof.
  unfold with_channel, getOrCreateChannelBucket.
  destruct (channelBuckets svc !! c) as [b|];
    destruct (decide _) as [Hsome|Hnone]; try reflexivity.
  - exfalso. apply Hnone. eexists. reflexivity.
  - exfalso. destruct Hsome as [b Hb]. discriminate.
Qed.

(** Whatever [acquireFromBucket] does when it settles is an acquisition in
    the sense of the specification, granted at the end. *)
Lemma acquireFromBucket_sound (cap rate : Q) (ref : BucketRef) (fuel : nat) :
  forall s b r s' trace,
    deref ref (service s) = Some b ->
    capacity b = cap -> refillRate b = rate ->
    acquireFromBucket fuel ref s = Some (r, s', trace) ->
    r = Return tt /\ acquisition cap rate ref s trace s'.
Proof.
  induction fuel as [|fuel IH]; intros s b r s' trace Hb Hcap Hrate Hrun; [discriminate|].
  rewrite acquireFromBucket_eq, Hb in Hrun.
  destruct (pass_cases (Date_now s) b) as [[Hge Hpass]|[Hlt Hpass]];
    rewrite Hpass in Hrun.
  - injection Hrun as <- <- <-. split; [reflexivity|].
    rewrite <- (refilled_refillBucket cap rate) in * by assumption.
    now apply acquisition_granted.
  - set (s1 := wake (calculateWaitTime (refillBucket (Date_now s) b))
                 (update (assign ref (refillBucket (Date_now s) b)) s)) in *.
    destruct (acquireFromBucket fuel ref s1) as [[[r2 s2] t2]|] eqn:Hrest; [|discriminate].
    injection Hrun as <- <- <-.
    assert (Hb1 : deref ref (service s1) = Some (refillBucket (Date_now s) b))
      by apply deref_assign.
    destruct (IH s1 _ r2 s2 t2 Hb1 Hcap Hrate Hrest) as [-> Hacq].
    split; [reflexivity|].
    subst s1. unfold calculateWaitTime in *. cbn [refillBucket refillRate] in *.
    rewrite <- (refilled_refillBucket cap rate) in * by assumption.
    rewrite Hrate in *.
    now apply acquisition_waits with (b := b).
Qed.

(** Every acquisition in the sense of the specification is what
    [acquireFromBucket] does, given enough fuel for its waits. *)
Lemma acquireFromBucket_complete (cap rate : Q) (ref : BucketRef) s trace s' :
  acquisition cap rate ref s trace s' ->
  (forall b, deref ref (service s) = Some b -> capacity b = cap /\ refillRate b = rate) ->
  exists fuel, forall fuel',
      (fuel <= fuel')%nat ->
      acquireFromBucket fuel' ref s = Some (Return tt, s', trace).
Proof.
  induction 1 as [s b Hb Hge|s b trace s' Hb Hlt Hrest IH]; intros Hshape;
    destruct (Hshape b Hb) as [Hcap Hrate];
    rewrite (refilled_refillBucket cap rate) in * by assumption.
  - exists 1%nat. intros [|fuel'] Hfuel; [lia|].
    rewrite acquireFromBucket_eq, Hb, (pass_granted _ _ Hge). reflexivity.
  - destruct IH as [fuel IH].
    { intros b1 Hb1. cbn in Hb1. rewrite deref_assign in Hb1.
      injection Hb1 as <-. split; assumption. }
    exists (Datatypes.S fuel). intros [|fuel'] Hfuel; [lia|].
    rewrite acquireFromBucket_eq, Hb, (pass_refused _ _ Hlt).
    unfold calculateWaitTime. cbn [refillBucket refillRate]. rewrite Hrate.
    fold (wait_interval rate).
    rewrite (IH fuel') by lia. reflexivity.
Qed.

(** An acquisition touches nothing but its bucket, and leaves its shape. *)
Lemma acquisition_well_formed (cap rate : Q) (ref : BucketRef) s trace s' :
  acquisition cap rate ref s trace s' ->
  well_formed (service s) -> well_formed (service s').
Proof.
  induction 1 as [s b Hb Hge|s b trace s' Hb Hlt Hrest IH]; intros Hwf.
  - cbn. apply well_formed_assign; [exact Hwf|].
    pose proof (deref_shape _ _ _ Hwf Hb) as Hs. destruct ref; exact Hs.
  - apply IH. cbn. apply well_formed_assign; [exact Hwf|].
    pose proof (deref_shape _ _ _ Hwf Hb) as Hs. destruct ref; exact Hs.
Qed.

Lemma acquisition_global_channels (cap rate : Q) s trace s' :
  acquisition cap rate GlobalRef s trace s' ->
  channelBuckets (service s') = channelBuckets (service s).
Proof.
  induction 1 as [s b Hb Hge|s b trace s' Hb Hlt Hrest IH]; [reflexivity|].
  rewrite IH. reflexivity.
Qed.

(** Under a cooldown, one caller's acquisition on the channel is granted
    after the deadline. *)
Lemma acquisition_cooling (deadline : Q) (cap rate : Q) (c : string) s trace s' :
  acquisition cap rate (ChannelRef c) s trace s' ->
  (0 < rate)%Q ->
  (forall b, channelBuckets (service s) !! c = Some b ->
             capacity b = cap /\ refillRate b = rate /\ cooling deadline b) ->
  (deadline < Date_now s')%Q.
Proof.
  induction 1 as [s b Hb Hge|s b trace s' Hb Hlt Hrest IH]; intros Hrate Hcool;
    destruct (Hcool b Hb) as (Hcap & Hr & Hc);
    rewrite (refilled_refillBucket cap rate) in * by assumption.
  - change (Date_now (update _ s)) with (Date_now s).
    apply (cooling_grant deadline (Date_now s) b Hc); [now rewrite Hr|exact Hge].
  - apply IH; [exact Hrate|].
    intros b1 Hb1. cbn in Hb1. rewrite lookup_insert_eq in Hb1. injection Hb1 as <-.
    repeat split; try assumption. now apply cooling_refill.
Qed.

(** One caller's acquisition is a history of passes on its bucket, the last
    of which is granted, at the clock value the caller ends with. *)
Lemma acquisition_history (cap rate : Q) (ref : BucketRef) s trace s' :
  acquisition cap rate ref s trace s' ->
  (forall b, deref ref (service s) = Some b -> capacity b = cap /\ refillRate b = rate) ->
  exists history,
    Forall (fun step => snd step = Poll ref) history /\
    run history (service s) = (service s', [(Date_now s', ref)]).
Proof.
  induction 1 as [s b Hb Hge|s b trace s' Hb Hlt Hrest IH]; intros Hshape;
    destruct (Hshape b Hb) as [Hcap Hrate];
    rewrite (refilled_refillBucket cap rate) in * by assumption.
  - exists [(Date_now s, Poll ref)]. split; [repeat constructor|].
    cbn [run act]. rewrite Hb, (pass_granted _ _ Hge). reflexivity.
  - destruct IH as (history & Hpolls & Hrun).
    { intros b1 Hb1. cbn in Hb1. rewrite deref_assign in Hb1.
      injection Hb1 as <-. split; assumption. }
    exists ((Date_now s, Poll ref) :: history). split; [now constructor|].
    cbn [run act]. rewrite Hb, (pass_refused _ _ Hlt).
    cbn [service wake State_Runtime update] in Hrun. rewrite Hrun. reflexivity.
Qed.

End Acquire.

(** * The properties of the specification *)

(** ** Retrying *)

(** C1. With [maxRetries = n >= 0], a settled [execute] has invoked the
    operation at most [n + 1] times; with [maxRetries = 2] and an operation
    that throws a retryable error at every invocation, [execute] settles,
    has invoked the operation exactly 3 times, and throws what the third
    invocation threw. *)
Theorem execute_invocation_budget
    {St : Type} `{Runtime St} {T : Type}
    (h : RetryHandler.t) (operation : Async St T) (s : St) :
  0 <= maxRetries h ->
  (forall r s' trace,
      execute h operation s = Some (r, s', trace) ->
      Z.of_nat (invocations trace) <= maxRetries h + 1)
  /\ (maxRetries h = 2 ->
      (forall s0, exists e s1 inner,
          operation s0 = Some (Throw e, s1, inner) /\ isRetryableError h e = true) ->
      exists e s_last s' trace inner,
        execute h operation s = Some (Throw e, s', trace) /\
        invocations trace = 3%nat /\
        operation s_last = Some (Throw e, s', inner) /\
        last trace = Some (EvCall (Some e) inner)).
Proof.
  intros Hn. split.
  - intros r s' trace Hrun. apply execute_sound in Hrun; [|exact Hn].
    apply attempts_invocations in Hrun; lia.
  - intros Hmax Hfails.
    destruct (attempts_exhaust h operation 2) with (attempt := 0) (s := s)
      as (e & s' & trace & Hrun & Hcount).
    + intros s0. destruct (Hfails s0) as (e & s1 & inner & Hop & Hre).
      exists e, s1, inner. split; [exact Hop|].
      now rewrite <- isRetryableError_classify.
    + lia.
    + destruct (attempts_final_throw _ _ _ _ _ _ _ Hrun) as (s_last & inner & Hop & Hlast).
      exists e, s_last, s', trace, inner.
      repeat split; try assumption. now apply execute_complete.
Qed.

(** C5. When the first invocation throws an error classified [Fatal],
    [execute] has invoked the operation exactly once, has not slept, and
    throws that error in the state the invocation left. *)
Theorem fatal_error_not_retried
    {St : Type} `{Runtime St} {T : Type}
    (h : RetryHandler.t) (operation : Async St T) (s : St) e s1 inner :
  0 <= maxRetries h ->
  operation s = Some (Throw e, s1, inner) ->
  classify (retryableCodes h) e = Fatal ->
  exists trace,
    execute h operation s = Some (Throw e, s1, trace) /\
    invocations trace = 1%nat /\
    sleeps trace = [].
Proof.
  intros Hn Hop Hfatal. exists [EvCall (Some e) inner].
  split; [|split; reflexivity].
  apply execute_complete; [exact Hn|].
  apply attempt_rethrows; [exact Hop|]. left. now rewrite Hfatal.
Qed.

(** C9. [calculateDelay] at attempt [n >= 0] is [baseDelay * 2^n]; with
    [baseDelay = 1000] the delays of attempts 0 to 3 are 1000, 2000, 4000 and
    8000; and the suspensions of a settled [execute] are these delays for
    attempts 0, 1, ... in order, one before each retry. *)
Theorem exponential_backoff (h : RetryHandler.t) :
  (forall n, 0 <= n -> calculateDelay h n = (baseDelay h * inject_Z (2 ^ n))%Q)
  /\ (baseDelay h = 1000%Q ->
      calculateDelay h 0 = 1000%Q /\ calculateDelay h 1 = 2000%Q /\
      calculateDelay h 2 = 4000%Q /\ calculateDelay h 3 = 8000%Q)
  /\ (forall (St : Type) (RT : Runtime St) (T : Type) (operation : Async St T)
             s r s' trace,
        0 <= maxRetries h ->
        execute h operation s = Some (r, s', trace) ->
        sleeps trace
        = map (fun i => (baseDelay h * inject_Z (2 ^ Z.of_nat i))%Q)
            (seq 0 (invocations trace - 1))).
Proof.
  split; [|split].
  - intros n Hn. now apply calculateDelay_backoff.
  - intros Hbase. unfold calculateDelay. rewrite Hbase. repeat split.
  - intros St RT T operation s r s' trace Hn Hrun.
    apply execute_sound in Hrun; [|exact Hn].
    apply attempts_sleeps in Hrun. exact Hrun.
Qed.

(** C2, as the code has it. The verdict of [isRetryableError] is the one of
    this precedence: a [RateLimitError] is [RateLimited]; else a string
    [code] among the five network codes is [NetworkTransient]; else, when
    the first numeric field among [status], [statusCode], [code] has a
    value in the retryable set, [HttpTransient]; otherwise [Fatal]. When the
    failure has at most one numeric field among the three this is the
    precedence with "some numeric field". *)
Theorem classification_precedence (h : RetryHandler.t) (error : Value) :
  isRetryableError h error = retryable (classify (retryableCodes h) error)
  /\ ((length (numeric_fields error) <= 1)%nat ->
      classify_any_field (retryableCodes h) error
      = classify (retryableCodes h) error).
Proof.
  split; [apply isRetryableError_classify|].
  intros Hone. unfold classify_any_field, classify.
  assert (Hsame : match find (has (retryableCodes h)) (numeric_fields error) with
                  | Some n => HttpTransient n
                  | None => Fatal
                  end
                  = match head (numeric_fields error) with
                    | Some n => if has (retryableCodes h) n then HttpTransient n else Fatal
                    | None => Fatal
                    end).
  { destruct (numeric_fields error) as [|n [|m rest]]; cbn in *; [reflexivity| |lia].
    destruct (has (retryableCodes h) n); reflexivity. }
  rewrite Hsame. reflexivity.
Qed.

Lemma execute_invocation_budget_witness :
  (forall r s' trace,
      execute Examples.two_retries
        (Examples.always_rejects (RateLimitError 100 None)) (0%Q : Q)
      = Some (r, s', trace) ->
      Z.of_nat (invocations trace) <= 2 + 1)
  /\ exists e s_last s' trace inner,
      execute Examples.two_retries
        (Examples.always_rejects (RateLimitError 100 None)) (0%Q : Q)
      = Some (Throw e, s', trace) /\
      invocations trace = 3%nat /\
      Examples.always_rejects (RateLimitError 100 None) s_last
      = Some (Throw e, s', inner) /\
      last trace = Some (EvCall (Some e) inner).
Proof.
  assert (Hn : 0 <= maxRetries Examples.two_retries) by (vm_compute; discriminate).
  destruct (execute_invocation_budget Examples.two_retries
              (Examples.always_rejects (RateLimitError 100 None)) (0%Q : Q) Hn)
    as [Hbound Hexact].
  split; [exact Hbound|].
  apply Hexact; [reflexivity|].
  intros s0. exists (RateLimitError 100 None), s0, [].
  split; [reflexivity|vm_compute; reflexivity].
Defined.

Lemma fatal_error_not_retried_witness :
  exists trace,
    execute Examples.default_handler (Examples.always_rejects Examples.forbidden) (0%Q : Q)
    = Some (Throw (A := unit) Examples.forbidden, 0%Q, trace) /\
    invocations trace = 1%nat /\
    sleeps trace = [].
Proof.
  apply (fatal_error_not_retried Examples.default_handler
           (Examples.always_rejects Examples.forbidden) (0%Q : Q)
           Examples.forbidden 0%Q []).
  - vm_compute; discriminate.
  - reflexivity.
  - vm_compute; reflexivity.
Defined.

Lemma exponential_backoff_witness :
  calculateDelay Examples.default_handler 3 = 8000%Q
  /\ exists r s' trace,
      execute Examples.two_retries
        (Examples.always_rejects (RateLimitError 100 None)) (0%Q : Q)
      = Some (r, s', trace) /\
      sleeps trace = [1000%Q; 2000%Q] /\
      sleeps trace
      = map (fun i => (baseDelay Examples.two_retries * inject_Z (2 ^ Z.of_nat i))%Q)
          (seq 0 (invocations trace - 1)).
Proof.
  destruct (exponential_backoff Examples.default_handler) as (_ & Htable & _).
  destruct (exponential_backoff Examples.two_retries) as (_ & _ & Hsleeps).
  split; [apply Htable; reflexivity|].
  eexists _, _, _. split; [vm_compute; reflexivity|].
  split; [reflexivity|].
  eapply (Hsleeps Q Examples.Clock unit
            (Examples.always_rejects (RateLimitError 100 None)) 0%Q).
  - vm_compute; discriminate.
  - vm_compute; reflexivity.
Defined.

Lemma classification_precedence_witness :
  isRetryableError Examples.default_handler Examples.forbidden
  = retryable (classify (retryableCodes Examples.default_handler) Examples.forbidden)
  /\ classify_any_field (retryableCodes Examples.default_handler) Examples.forbidden
     = classify (retryableCodes Examples.default_handler) Examples.forbidden.
Proof.
  destruct (classification_precedence Examples.default_handler Examples.forbidden)
    as [Hverdict Hsame].
  split; [exact Hverdict|].
  apply Hsame. vm_compute. apply le_n.
Defined.

(** C2, as stated, fails: [{ status: 400, statusCode: 503 }] is no
    [RateLimitError], has no string [code], and carries a numeric
    [statusCode] whose value is in the default retryable set, yet
    [isRetryableError] answers [false]: [extractStatusCode] stops at
    [status]. *)
Lemma classification_any_field_counterexample :
  instanceof_RateLimitError Examples.two_statuses = false
  /\ string_code Examples.two_statuses = None
  /\ numeric_field Examples.two_statuses "statusCode" = Some 503%Q
  /\ has (retryableCodes Examples.default_handler) 503 = true
  /\ classify_any_field (retryableCodes Examples.default_handler) Examples.two_statuses
     = HttpTransient 503
  /\ isRetryableError Examples.default_handler Examples.two_statuses = false.
Proof. repeat split; vm_compute; reflexivity. Qed.

(** ** Failures under rate limiting *)

Lemma isRateLimitError_signals_429 (error : Value) :
  RateLimitService.isRateLimitError error = true <-> signals_429 error.
Proof.
  unfold RateLimitService.isRateLimitError, signals_429.
  destruct error as [p|o].
  - cbn. rewrite andb_false_r. split; [discriminate|].
    intros (key & n & _ & Hn & _). discriminate.
  - cbn [truthy member andb]. unfold get_prop, numeric_field.
    rewrite !orb_true_iff. split.
    + intros [[Hs|Hs]|Hs];
        [exists "status"|exists "statusCode"|exists "code"];
        match type of Hs with
        | strict_eq_num (default _ (props o !! ?k)) _ = true =>
            destruct (props o !! k) as [[| | |n| |]|]; try discriminate;
            exists n; split; [set_solver|split; [reflexivity|now apply Qeq_bool_iff]]
        end.
    + intros (key & n & Hkey & Hn & H429).
      apply Qeq_bool_iff in H429.
      assert (Hprobe : strict_eq_num (default JUndefined (props o !! key)) 429 = true).
      { destruct (props o !! key) as [[| | |m| |]|]; try discriminate.
        injection Hn as ->. exact H429. }
      apply elem_of_cons in Hkey as [->|Hkey]; [left; left; exact Hprobe|].
      apply elem_of_cons in Hkey as [->|Hkey]; [left; right; exact Hprobe|].
      apply elem_of_cons in Hkey as [->|Hkey]; [right; exact Hprobe|].
      now apply elem_of_nil in Hkey.
Qed.

Lemma nonzero_field_probe (o : Object) (key : string) :
  (truthy_prim (get_prop key o) = true -> exists n, get_prop key o = JNum n) ->
  match nonzero_field (VObj o) key with
  | Some n => get_prop key o = JNum n /\ truthy_prim (get_prop key o) = true
  | None => truthy_prim (get_prop key o) = false
  end.
Proof.
  unfold nonzero_field, numeric_field, get_prop.
  destruct (props o !! key) as [[|  |b|n|str|]|]; cbn; intros Hnum;
    try reflexivity.
  - destruct b; [|reflexivity]. destruct (Hnum eq_refl) as [n Hn]. discriminate.
  - destruct (Qeq_bool n 0); cbn; auto.
  - destruct (negb (str =? "")%string); [|reflexivity].
    destruct (Hnum eq_refl) as [n Hn]. discriminate.
  - destruct (Hnum eq_refl) as [n Hn]. discriminate.
Qed.

Lemma extractRetryAfter_cooldown (error : Value) :
  numeric_cooldown_fields error ->
  RateLimitService.extractRetryAfter error = Some (cooldown error).
Proof.
  intros Hnum. destruct error as [p|o]; [reflexivity|].
  pose proof (nonzero_field_probe o "retryAfter"
                (Hnum "retryAfter" (or_introl eq_refl))) as Hms.
  pose proof (nonzero_field_probe o "retry_after"
                (Hnum "retry_after" (or_intror eq_refl))) as Hsec.
  unfold RateLimitService.extractRetryAfter, cooldown. cbn [member].
  destruct (nonzero_field (VObj o) "retryAfter") as [ms|].
  - destruct Hms as [Hval Htruthy]. rewrite Htruthy, Hval. reflexivity.
  - rewrite Hms.
    destruct (nonzero_field (VObj o) "retry_after") as [sec|].
    + destruct Hsec as [Hval Htruthy]. rewrite Htruthy, Hval. reflexivity.
    + rewrite Hsec. reflexivity.
Qed.

Section RateLimitedFailures.
Context {W : Type} `{Runtime W} {T : Type}.
Import RateLimitService.

(** What [executeWithRateLimit] does with a failure of its operation. *)
Lemma executeWithRateLimit_failure (fuel : nat) (c : string)
    (operation : Async (State W) T) (s s1 s2 : State W) t1 t2 e :
  acquireToken fuel c s = Some (Return tt, s1, t1) ->
  operation s1 = Some (Throw e, s2, t2) ->
  executeWithRateLimit fuel c operation s =
  if isRateLimitError e then
    match extractRetryAfter e with
    | None => None
    | Some retryAfter =>
        Some (Throw (RateLimitError retryAfter (Some c)),
              update (handleRateLimit (Date_now s2) c retryAfter) s2,
              t1 ++ t2)
    end
  else Some (Throw e, s2, t1 ++ t2).
Proof.
  intros Hacq Hop. unfold executeWithRateLimit, bind, try_catch.
  rewrite Hacq, Hop.
  destruct (isRateLimitError e).
  - destruct (extractRetryAfter e) as [retryAfter|]; [|reflexivity].
    cbn. now rewrite !app_nil_r.
  - cbn. now rewrite !app_nil_r.
Qed.

End RateLimitedFailures.

(** C4, as the code has it. What [execute] throws is the very value its
    operation threw at the last invocation, in the state that invocation
    left; [executeWithRateLimit] rethrows the failure of its operation
    unchanged unless the failure has [status], [statusCode] or [code] equal
    to 429, in which case it throws a new [RateLimitError] carrying the
    extracted cooldown and the channel. *)
Theorem thrown_error_identity :
  (forall (St : Type) (RT : Runtime St) (T : Type) (h : RetryHandler.t)
          (operation : Async St T) s e s' trace,
      0 <= maxRetries h ->
      execute h operation s = Some (Throw e, s', trace) ->
      exists s_last inner,
        operation s_last = Some (Throw e, s', inner) /\
        last trace = Some (EvCall (Some e) inner))
  /\ (forall (W : Type) (RT : Runtime W) (T : Type) fuel c
             (operation : Async (RateLimitService.State W) T) s s1 t1 e s2 t2,
        RateLimitService.acquireToken fuel c s = Some (Return tt, s1, t1) ->
        operation s1 = Some (Throw e, s2, t2) ->
        (~ signals_429 e ->
         RateLimitService.executeWithRateLimit fuel c operation s
         = Some (Throw e, s2, t1 ++ t2))
        /\ (signals_429 e ->
            forall retryAfter,
              RateLimitService.extractRetryAfter e = Some retryAfter ->
              RateLimitService.executeWithRateLimit fuel c operation s
              = Some (Throw (RateLimitError retryAfter (Some c)),
                      RateLimitService.update
                        (RateLimitService.handleRateLimit (Date_now s2) c retryAfter) s2,
                      t1 ++ t2))).
Proof.
  split.
  - intros St RT T h operation s e s' trace Hn Hrun.
    apply execute_sound in Hrun; [|exact Hn].
    exact (attempts_final_throw _ _ _ _ _ _ _ Hrun).
  - intros W RT T fuel c operation s s1 t1 e s2 t2 Hacq Hop.
    rewrite (executeWithRateLimit_failure fuel c operation s s1 s2 t1 t2 e Hacq Hop).
    split.
    + intros Hnot. destruct (RateLimitService.isRateLimitError e) eqn:H429; [|reflexivity].
      exfalso. apply Hnot. now apply isRateLimitError_signals_429.
    + intros Hsig retryAfter Hextract.
      apply isRateLimitError_signals_429 in Hsig. rewrite Hsig, Hextract. reflexivity.
Qed.

Lemma thrown_error_identity_witness :
  (exists e s' trace s_last inner,
      execute Examples.one_retry
        (RateLimitService.executeWithRateLimit 5 "c"
           (Examples.always_rejects Examples.forbidden)) Examples.fresh
      = Some (Throw e, s', trace) /\
      e = Examples.forbidden /\
      RateLimitService.executeWithRateLimit 5 "c"
        (Examples.always_rejects Examples.forbidden) s_last
      = Some (Throw e, s', inner) /\
      last trace = Some (EvCall (Some e) inner))
  /\ (exists s' trace,
        RateLimitService.executeWithRateLimit 5 "c"
          (Examples.always_rejects Examples.forbidden) Examples.fresh
        = Some (Throw Examples.forbidden, s', trace))
  /\ (exists s' trace,
        RateLimitService.executeWithRateLimit 5 "c"
          (Examples.always_rejects Examples.cooldown_2500) Examples.fresh
        = Some (Throw (RateLimitError 2500 (Some "c")), s', trace)).
Proof.
  destruct thrown_error_identity as [Hexecute Hlimited].
  split; [|split].
  - assert (Hrun : exists s' trace,
               execute Examples.one_retry
                 (RateLimitService.executeWithRateLimit 5 "c"
                    (Examples.always_rejects Examples.forbidden)) Examples.fresh
               = Some (Throw Examples.forbidden, s', trace))
      by (eexists _, _; vm_compute; reflexivity).
    destruct Hrun as (s' & trace & Hrun).
    assert (Hn : 0 <= maxRetries Examples.one_retry) by (vm_compute; discriminate).
    destruct (Hexecute _ _ _ _ _ _ _ _ _ Hn Hrun) as (s_last & inner & Hop & Hlast).
    exists Examples.forbidden, s', trace, s_last, inner. repeat split; assumption.
  - assert (Hacq : exists s1 t1,
               RateLimitService.acquireToken 5 "c" Examples.fresh
               = Some (Return tt, s1, t1))
      by (eexists _, _; vm_compute; reflexivity).
    destruct Hacq as (s1 & t1 & Hacq).
    exists s1, (t1 ++ []).
    apply (proj1 (Hlimited Q Examples.Clock unit 5%nat "c"
                    (Examples.always_rejects Examples.forbidden)
                    Examples.fresh s1 t1 Examples.forbidden s1 [] Hacq eq_refl)).
    intros Hsig. apply isRateLimitError_signals_429 in Hsig.
    vm_compute in Hsig. discriminate.
  - assert (Hacq : exists s1 t1,
               RateLimitService.acquireToken 5 "c" Examples.fresh
               = Some (Return tt, s1, t1))
      by (eexists _, _; vm_compute; reflexivity).
    destruct Hacq as (s1 & t1 & Hacq).
    eexists _, _.
    apply (proj2 (Hlimited Q Examples.Clock unit 5%nat "c"
                    (Examples.always_rejects Examples.cooldown_2500)
                    Examples.fresh s1 t1 Examples.cooldown_2500 s1 [] Hacq eq_refl)).
    + apply isRateLimitError_signals_429. vm_compute. reflexivity.
    + vm_compute. reflexivity.
Defined.

(** C4, as stated, fails on the rate-limited path: the operation rejects
    with [{ status: 429 }] at every attempt, the retry budget runs out, and
    the caller receives a [RateLimitError], not that object. *)
Lemma rate_limited_path_substitutes_error :
  exists e s' trace,
    execute Examples.one_retry
      (RateLimitService.executeWithRateLimit 5 "c"
         (Examples.always_rejects Examples.too_many_requests)) Examples.fresh
    = Some (Throw e, s', trace) /\
    invocations trace = 2%nat /\
    e = RateLimitError 1000 (Some "c") /\
    e <> Examples.too_many_requests.
Proof.
  eexists _, _, _. split; [vm_compute; reflexivity|].
  split; [reflexivity|]. split; [vm_compute; reflexivity|].
  intros Heq. apply (f_equal instanceof_RateLimitError) in Heq.
  vm_compute in Heq. discriminate.
Qed.




(** ** The acknowledgment deadline *)

Section Deadline.
Context {St : Type} `{Runtime St} `{InteractionService.InteractionHost St}.
Import InteractionService.

(** [handleInteraction] for a button with a registered handler, by what the
    handler does. *)
Lemma handleInteraction_dispatched (svc : InteractionService.t St)
    (i : Interaction) (handler : ButtonClickHandler St) (s : St) :
  isButton i = true ->
  handlers svc !! customId i = Some handler ->
  handleInteraction svc i s =
  match handler (dispatch_context i) s with
  | None => None
  | Some (Return _, s1, t1) =>
      if negb (acknowledged s1) && negb (Qle_bool (Date_now s1 - Date_now s) 3000)
      then match reply error_reply s1 with
           | None => None
           | Some (_, s2, t2) =>
               Some (Throw (InteractionTimeoutError (customId i)), s2, t1 ++ t2)
           end
      else Some (Return tt, s1, t1)
  | Some (Throw e, s1, t1) =>
      if negb (acknowledged s1)
      then match reply error_reply s1 with
           | None => None
           | Some (_, s2, t2) => Some (Throw e, s2, t1 ++ t2)
           end
      else Some (Throw e, s1, t1)
  end.
Proof.
  intros Hbutton Hhandler. unfold handleInteraction.
  rewrite Hbutton. cbn [negb]. cbv zeta.
  match goal with
  | |- (match ?found with Some _ => _ | None => _ end) _ = _ =>
      replace found with (Some handler) by (symmetry; exact Hhandler)
  end.
  unfold bind, try_catch, gets, ret, throw, acknowledged.
  change (handler _ s) with (handler (dispatch_context i) s).
  change (reply _) with (reply error_reply).
  destruct (handler (dispatch_context i) s) as [[[[[]|e] s1] t1]|];
    [| |reflexivity]; cbv beta iota.
  - destruct (replied s1) eqn:Hr, (deferred s1) eqn:Hd;
      destruct (Qle_bool (Date_now s1 - Date_now s) 3000) eqn:Hle;
      repeat (progress (rewrite ?Hr, ?Hd, ?Hle; cbn [orb negb andb]; cbv beta iota));
      rewrite ?app_nil_r; try reflexivity.
    destruct (reply error_reply s1) as [[[[[]|e'] s2] t2]|];
      cbv beta iota; rewrite ?app_nil_r; reflexivity.
  - destruct (replied s1) eqn:Hr, (deferred s1) eqn:Hd;
      repeat (progress (rewrite ?Hr, ?Hd; cbn [orb negb andb]; cbv beta iota));
      rewrite ?app_nil_r; try reflexivity.
    destruct (reply error_reply s1) as [[[[[]|e'] s2] t2]|];
      cbv beta iota; rewrite ?app_nil_r; reflexivity.
Qed.

End Deadline.

(** C8, as the code has it. For a button whose handler returns, the
    [InteractionTimeoutError] is thrown exactly when the interaction was
    never acknowledged and more than 3000 ms elapsed since dispatch (after an
    attempt to send the error reply); a handler that fails has its own
    failure rethrown, whatever the time and the acknowledgment. *)
Theorem interaction_deadline
    {St : Type} `{Runtime St} `{InteractionService.InteractionHost St}
    (svc : InteractionService.t St) (i : InteractionService.Interaction)
    (handler : InteractionService.ButtonClickHandler St) (s : St) :
  InteractionService.isButton i = true ->
  InteractionService.handlers svc !! InteractionService.customId i = Some handler ->
  (forall s1 t1,
      handler (dispatch_context i) s = Some (Return tt, s1, t1) ->
      (timed_out s s1 ->
       forall r s2 t2,
         InteractionService.reply error_reply s1 = Some (r, s2, t2) ->
         InteractionService.handleInteraction svc i s
         = Some (Throw (InteractionTimeoutError (InteractionService.customId i)),
                 s2, t1 ++ t2))
      /\ (~ timed_out s s1 ->
          InteractionService.handleInteraction svc i s = Some (Return tt, s1, t1)))
  /\ (forall e s1 t1,
        handler (dispatch_context i) s = Some (Throw e, s1, t1) ->
        (acknowledged s1 = true ->
         InteractionService.handleInteraction svc i s = Some (Throw e, s1, t1))
        /\ (acknowledged s1 = false ->
            forall r s2 t2,
              InteractionService.reply error_reply s1 = Some (r, s2, t2) ->
              InteractionService.handleInteraction svc i s
              = Some (Throw e, s2, t1 ++ t2))).
Proof.
  intros Hbutton Hhandler.
  pose proof (handleInteraction_dispatched svc i handler s Hbutton Hhandler) as Hrun.
  split.
  - intros s1 t1 Hreturns. rewrite Hreturns in Hrun. split.
    + intros [Hunack Hlate] r s2 t2 Hreply.
      rewrite Hrun, Hunack, Hreply.
      destruct (Qle_bool (Date_now s1 - Date_now s) 3000) eqn:Hle; [|reflexivity].
      apply Qle_bool_iff in Hle. lra.
    + intros Hnot. rewrite Hrun.
      destruct (acknowledged s1) eqn:Hack; [reflexivity|].
      destruct (Qle_bool (Date_now s1 - Date_now s) 3000) eqn:Hle; [reflexivity|].
      exfalso. apply Hnot. split; [exact Hack|].
      apply Qnot_le_lt. intros Hle'. apply Qle_bool_iff in Hle'. congruence.
  - intros e s1 t1 Hthrows. rewrite Hthrows in Hrun. split.
    + intros Hack. rewrite Hrun, Hack. reflexivity.
    + intros Hunack r s2 t2 Hreply. rewrite Hrun, Hunack, Hreply. reflexivity.
Qed.

Lemma interaction_deadline_witness :
  (exists s' trace,
      InteractionService.handleInteraction
        (Examples.serving Examples.silent_handler) Examples.button Examples.click_start
      = Some (Throw (InteractionTimeoutError "download"), s', trace)
      /\ Date_now s' == 3100)%Q
  /\ (exists s' trace,
        InteractionService.handleInteraction
          (Examples.serving Examples.deferring_handler) Examples.button Examples.click_start
        = Some (Return tt, s', trace)
        /\ Date_now s' == 5000)%Q.
Proof.
  split.
  - destruct (interaction_deadline (Examples.serving Examples.silent_handler)
                Examples.button Examples.silent_handler Examples.click_start
                eq_refl ltac:(vm_compute; reflexivity)) as [Hreturns _].
    eexists _, _. split.
    + eapply (Hreturns _ _ ltac:(vm_compute; reflexivity)).
      * split; vm_compute; reflexivity.
      * vm_compute. reflexivity.
    + vm_compute. reflexivity.
  - destruct (interaction_deadline (Examples.serving Examples.deferring_handler)
                Examples.button Examples.deferring_handler Examples.click_start
                eq_refl ltac:(vm_compute; reflexivity)) as [Hreturns _].
    eexists _, _. split.
    + eapply (Hreturns _ _ ltac:(vm_compute; reflexivity)).
      intros [Hunack _]. vm_compute in Hunack. discriminate.
    + vm_compute. reflexivity.
Defined.

(** C8, as stated, fails for a handler that raises a failure: it runs for
    3100 ms, never acknowledges, and fails; [handleInteraction] rethrows the
    handler's failure and no [InteractionTimeoutError]. *)
Lemma failed_handler_counterexample :
  exists s1 t1 s' trace,
    Examples.failing_handler (dispatch_context Examples.button) Examples.click_start
    = Some (Throw (PlainError "boom"), s1, t1)
    /\ timed_out Examples.click_start s1
    /\ InteractionService.handleInteraction
         (Examples.serving Examples.failing_handler) Examples.button Examples.click_start
       = Some (Throw (PlainError "boom"), s', trace)
    /\ PlainError "boom" <> InteractionTimeoutError "download".
Proof.
  eexists _, _, _, _. split; [vm_compute; reflexivity|].
  split; [split; vm_compute; reflexivity|].
  split; [vm_compute; reflexivity|].
  intros Heq. injection Heq as Hclass _. discriminate.
Qed.

(** ** Composite acquisition *)

Section Composite.
Context {W : Type} `{Runtime W}.
Import RateLimitService.

Lemma ensured_channel_shape (c : string) (s1 : State W) (b : TokenBucket) :
  well_formed (service s1) ->
  deref (ChannelRef c)
    (service (update (with_channel (Date_now s1) c) s1)) = Some b ->
  capacity b = 5%Q /\ refillRate b = 5%Q.
Proof.
  intros Hwf Hb. unfold update in Hb. cbn [service] in Hb.
  rewrite with_channel_eq in Hb.
  apply (well_formed_getOrCreateChannelBucket (Date_now s1) c) in Hwf.
  exact (deref_shape (ChannelRef c) _ _ Hwf Hb).
Qed.

Lemma acquireToken_sound (fuel : nat) (c : string) (s : State W) r s' trace :
  well_formed (service s) ->
  acquireToken fuel c s = Some (r, s', trace) ->
  r = Return tt /\ composite_acquisition c s trace s'.
Proof.
  intros Hwf Hrun. rewrite acquireToken_eq in Hrun.
  destruct (acquireFromBucket fuel GlobalRef s) as [[[r1 s1] t1]|] eqn:Hglobal;
    [|discriminate].
  destruct (acquireFromBucket_sound 50 50 GlobalRef fuel s (globalBucket (service s))
              r1 s1 t1 eq_refl (proj1 (proj1 Hwf)) (proj2 (proj1 Hwf)) Hglobal)
    as [-> Hacq1].
  pose proof (acquisition_well_formed _ _ _ _ _ _ Hacq1 Hwf) as Hwf1.
  assert (Hsame : update (getOrCreateChannelBucket (Date_now s1) c) s1
                  = update (with_channel (Date_now s1) c) s1)
    by (unfold update; now rewrite with_channel_eq).
  rewrite Hsame in Hrun.
  destruct (acquireFromBucket fuel (ChannelRef c)
              (update (with_channel (Date_now s1) c) s1))
    as [[[r2 s2] t2]|] eqn:Hchannel; [|discriminate].
  injection Hrun as <- <- <-.
  assert (Hb : exists b, deref (ChannelRef c)
                           (service (update (with_channel (Date_now s1) c) s1)) = Some b).
  { rewrite <- Hsame. cbn. rewrite getOrCreateChannelBucket_lookup. eauto. }
  destruct Hb as [b Hb].
  destruct (ensured_channel_shape c s1 b Hwf1 Hb) as [Hcap Hrate].
  destruct (acquireFromBucket_sound 5 5 (ChannelRef c) fuel _ b r2 s2 t2
              Hb Hcap Hrate Hchannel) as [-> Hacq2].
  split; [reflexivity|]. exists s1, t1, t2. repeat split; assumption.
Qed.

Lemma acquireToken_complete (c : string) (s : State W) s' trace :
  well_formed (service s) ->
  composite_acquisition c s trace s' ->
  exists fuel, acquireToken fuel c s = Some (Return tt, s', trace).
Proof.
  intros Hwf (s1 & t1 & t2 & Hacq1 & Hacq2 & ->).
  pose proof (acquisition_well_formed _ _ _ _ _ _ Hacq1 Hwf) as Hwf1.
  destruct (acquireFromBucket_complete _ _ _ _ _ _ Hacq1) as [fuel1 Hrun1].
  { intros b Hb. injection Hb as <-. exact (proj1 Hwf). }
  destruct (acquireFromBucket_complete _ _ _ _ _ _ Hacq2) as [fuel2 Hrun2].
  { intros b Hb. exact (ensured_channel_shape c s1 b Hwf1 Hb). }
  exists (Nat.max fuel1 fuel2).
  rewrite acquireToken_eq, (Hrun1 _ (Nat.le_max_l _ _)).
  assert (Hsame : update (getOrCreateChannelBucket (Date_now s1) c) s1
                  = update (with_channel (Date_now s1) c) s1)
    by (unfold update; now rewrite with_channel_eq).
  rewrite Hsame, (Hrun2 _ (Nat.le_max_r _ _)). reflexivity.
Qed.

End Composite.

(** ** Acquisition settles *)

Section Liveness.
Context {W : Type} `{Runtime W}.
Import RateLimitService.

(** Timers never fire early. *)
Hypothesis timers_on_time :
  forall (ms : Q) (w : W), (Date_now w + ms <= Date_now (wake ms w))%Q.

Lemma wait_produces_a_token (rate elapsed : Q) :
  (0 < rate)%Q ->
  (wait_interval rate <= elapsed)%Q ->
  (1 <= elapsed / 1000 * rate)%Q.
Proof.
  intros Hrate Hwait. unfold wait_interval in Hwait.
  pose proof (Qle_ceiling (1000 / rate)) as Hceil.
  assert (Hdiv : (1000 / rate * rate == 1000)%Q) by (field; lra).
  set (w := inject_Z (Qceiling (1000 / rate))) in *. clearbody w.
  set (q := (1000 / rate)%Q) in *. clearbody q.
  unfold Qdiv; change (/ 1000)%Q with (1 # 1000)%Q. nra.
Qed.

Lemma acquisition_live (cap rate : Q) (ref : BucketRef) :
  (0 < rate)%Q -> (1 <= cap)%Q ->
  forall (n : nat) (s : State W) (b : TokenBucket),
    deref ref (service s) = Some b ->
    capacity b = cap -> refillRate b = rate ->
    (1 - tokens (refillBucket (Date_now s) b) <= inject_Z (Z.of_nat n))%Q ->
    exists trace s', acquisition cap rate ref s trace s'.
Proof.
  intros Hrate Hcap. induction n as [|n IH]; intros s b Hb Hc Hr Hdeficit;
    destruct (Qlt_le_dec (tokens (refillBucket (Date_now s) b)) 1) as [Hlt|Hge].
  - exfalso. change (inject_Z (Z.of_nat 0)) with 0%Q in Hdeficit. lra.
  - eexists _, _. apply acquisition_granted with (b := b); [exact Hb|].
    now rewrite (refilled_refillBucket cap rate) by assumption.
  - set (b1 := refillBucket (Date_now s) b) in *.
    set (s1 := wake (wait_interval rate) (update (assign ref b1) s)).
    assert (Hb1 : deref ref (service s1) = Some b1) by apply deref_assign.
    assert (Hlate : (Date_now s + wait_interval rate <= Date_now s1)%Q)
      by apply timers_on_time.
    destruct (IH s1 b1 Hb1 Hc Hr) as (trace & s' & Hacq).
    { assert (Hwaited : (wait_interval rate <= Date_now s1 - Date_now s)%Q).
      { revert Hlate. generalize (Date_now s1), (Date_now s), (wait_interval rate).
        intros t1 t0 w Hlate. lra. }
      pose proof (wait_produces_a_token rate (Date_now s1 - Date_now s) Hrate
                    Hwaited) as Hone.
      rewrite Nat2Z.inj_succ, <- Z.add_1_r, inject_Z_plus in Hdeficit.
      change (inject_Z 1) with 1%Q in Hdeficit.
      cbn [refillBucket tokens]. fold b1.
      change (lastRefill b1) with (Date_now s).
      change (refillRate b1) with (refillRate b). change (capacity b1) with (capacity b).
      rewrite Hc, Hr.
      assert (Hn : (0 <= inject_Z (Z.of_nat n))%Q)
        by (change 0%Q with (inject_Z 0); rewrite <- Zle_Qle; lia).
      set (gain := ((Date_now s1 - Date_now s) / 1000 * rate)%Q) in *.
      clearbody gain.
      destruct (Q.min_spec cap (tokens b1 + gain)) as [[_ Hmin]|[_ Hmin]];
        rewrite Hmin; lra. }
    exists (EvSleep (wait_interval rate) :: trace), s'.
    apply acquisition_waits with (b := b); [exact Hb| |].
    + now rewrite (refilled_refillBucket cap rate) by assumption.
    + rewrite (refilled_refillBucket cap rate) by assumption. exact Hacq.
  - eexists _, _. apply acquisition_granted with (b := b); [exact Hb|].
    now rewrite (refilled_refillBucket cap rate) by assumption.
Qed.

(** With such timers an acquisition on a bucket with a positive rate and
    room for one token settles. *)
Lemma acquireFromBucket_settles (ref : BucketRef) (s : State W) (b : TokenBucket) :
  deref ref (service s) = Some b ->
  (0 < refillRate b)%Q -> (1 <= capacity b)%Q ->
  exists fuel s' trace, acquireFromBucket fuel ref s = Some (Return tt, s', trace).
Proof.
  intros Hb Hrate Hcap.
  set (deficit := (1 - tokens (refillBucket (Date_now s) b))%Q).
  destruct (acquisition_live (capacity b) (refillRate b) ref Hrate Hcap
              (Z.to_nat (Qceiling deficit)) s b Hb eq_refl eq_refl)
    as (trace & s' & Hacq).
  { fold deficit.
    apply Qle_trans with (inject_Z (Qceiling deficit)); [apply Qle_ceiling|].
    rewrite <- Zle_Qle. lia. }
  destruct (acquireFromBucket_complete _ _ _ _ _ _ Hacq) as [fuel Hrun].
  { intros b' Hb'. rewrite Hb in Hb'. injection Hb' as <-. split; reflexivity. }
  exists fuel, s', trace. apply Hrun. lia.
Qed.

(** And so does [acquireToken] on a service with the constructor's
    capacities and rates. *)
Lemma acquireToken_settles (c : string) (s : State W) :
  well_formed (service s) ->
  exists fuel s' trace, acquireToken fuel c s = Some (Return tt, s', trace).
Proof.
  intros Hwf.
  destruct (acquireFromBucket_settles GlobalRef s (globalBucket (service s)) eq_refl)
    as (fuel1 & s1 & t1 & Hrun1).
  { rewrite (proj2 (proj1 Hwf)). reflexivity. }
  { rewrite (proj1 (proj1 Hwf)). discriminate. }
  destruct (acquireFromBucket_sound 50 50 GlobalRef fuel1 s _ _ _ _ eq_refl
              (proj1 (proj1 Hwf)) (proj2 (proj1 Hwf)) Hrun1) as [_ Hacq1].
  pose proof (acquisition_well_formed _ _ _ _ _ _ Hacq1 Hwf) as Hwf1.
  set (s1' := update (with_channel (Date_now s1) c) s1).
  assert (Hb : exists b, deref (ChannelRef c) (service s1') = Some b).
  { subst s1'. unfold update. cbn [service deref].
    rewrite with_channel_eq, getOrCreateChannelBucket_lookup. eauto. }
  destruct Hb as [b Hb].
  destruct (ensured_channel_shape c s1 b Hwf1 Hb) as [Hcap Hrate].
  destruct (acquireFromBucket_settles (ChannelRef c) s1' b Hb)
    as (fuel2 & s2 & t2 & Hrun2).
  { rewrite Hrate. reflexivity. }
  { rewrite Hcap. discriminate. }
  destruct (acquireFromBucket_sound 5 5 (ChannelRef c) fuel2 s1' b _ _ _ Hb
              Hcap Hrate Hrun2) as [_ Hacq2].
  destruct (acquireToken_complete c s s2 (t1 ++ t2) Hwf) as [fuel Hrun].
  { exists s1, t1, t2. repeat split; assumption. }
  exists fuel, s2, (t1 ++ t2). exact Hrun.
Qed.

End Liveness.

(** C7. [acquireToken] is an acquisition on the global bucket (capacity 50,
    50 tokens per second) followed, once that one is granted, by an
    acquisition on the channel's bucket (capacity 5, 5 tokens per second,
    created full if the channel has none); an acquisition refills (elapsed
    seconds times the rate, capped at the capacity, [lastRefill = now]),
    then deducts exactly 1 and returns if it finds at least 1 token, and
    otherwise sleeps [ceil(1000 / rate)] ms and starts again at the refill.
    Conversely every such composite acquisition is a run of
    [acquireToken]. *)
Theorem acquireToken_global_then_channel
    {W : Type} `{Runtime W} (c : string) (s : RateLimitService.State W) :
  RateLimitService.well_formed (RateLimitService.service s) ->
  (forall fuel r s' trace,
      RateLimitService.acquireToken fuel c s = Some (r, s', trace) ->
      r = Return tt /\ composite_acquisition c s trace s')
  /\ (forall s' trace,
        composite_acquisition c s trace s' ->
        exists fuel, RateLimitService.acquireToken fuel c s = Some (Return tt, s', trace)).
Proof.
  intros Hwf. split.
  - intros fuel r s' trace. now apply acquireToken_sound.
  - intros s' trace. now apply acquireToken_complete.
Qed.

Lemma acquireToken_global_then_channel_witness :
  exists s' trace,
    RateLimitService.acquireToken 3 "c" Examples.drained = Some (Return tt, s', trace)
    /\ trace = [EvSleep 200]
    /\ composite_acquisition "c" Examples.drained trace s'.
Proof.
  assert (Hwf : RateLimitService.well_formed (RateLimitService.service Examples.drained))
    by (apply well_formed_run, well_formed_new).
  destruct (acquireToken_global_then_channel "c" Examples.drained Hwf) as [Hsound _].
  eexists _, _. split; [vm_compute; reflexivity|].
  split; [reflexivity|].
  eapply Hsound with (fuel := 3%nat). vm_compute. reflexivity.
Defined.

(** ** Cooldown after an external depletion *)

(** Refilling an empty bucket whose [lastRefill] lies in the future adds a
    negative quantity. *)
Lemma refill_before_deadline (now : Q) (b : RateLimitService.TokenBucket) :
  RateLimitService.tokens b = 0%Q ->
  (0 < RateLimitService.refillRate b)%Q ->
  (now < RateLimitService.lastRefill b)%Q ->
  (RateLimitService.tokens (RateLimitService.refillBucket now b) < 0)%Q.
Proof.
  intros Hempty Hrate Hfuture. pose proof (refillBucket_added now b) as Hadd.
  rewrite Hempty in Hadd.
  set (m := RateLimitService.tokens (RateLimitService.refillBucket now b)) in *.
  clearbody m.
  unfold Qdiv in *; change (/ 1000)%Q with (1 # 1000)%Q in *. nra.
Qed.

(** C3. [handleRateLimit(c, R)] at clock value [now] leaves the channel's
    bucket with [tokens = 0] and [lastRefill = now + R]; a refill of that
    bucket before [now + R] leaves it with negative tokens; afterwards, as
    long as no further [handleRateLimit] on [c] and no [reset] is called, in
    any interleaving of what any callers do (their [acquireToken]s on any
    channel, depletion signals for other channels), a token of channel [c]
    is granted only at a clock value later than [now + R], and a caller's
    [acquireToken(c)] settles later than [now + R]. *)
Theorem handleRateLimit_cooldown
    (svc : RateLimitService.t) (now0 : Q) (c : string) (R : Q) :
  RateLimitService.well_formed svc ->
  (0 < R)%Q ->
  (exists b,
      RateLimitService.channelBuckets
        (RateLimitService.handleRateLimit now0 c R svc) !! c = Some b
      /\ RateLimitService.tokens b = 0%Q
      /\ RateLimitService.lastRefill b = (now0 + R)%Q
      /\ forall now, (now < now0 + R)%Q ->
           (RateLimitService.tokens (RateLimitService.refillBucket now b) < 0)%Q)
  /\ (forall history,
        cooldown_kept c history ->
        (forall now,
            In (now, RateLimitService.ChannelRef c)
              (snd (RateLimitService.run history
                      (RateLimitService.handleRateLimit now0 c R svc))) ->
            (now0 + R < now)%Q)
        /\ (forall (W : Type) (RT : Runtime W) (fuel : nat) (w : W) r s' trace,
              RateLimitService.acquireToken fuel c
                {| RateLimitService.world := w;
                   RateLimitService.service :=
                     fst (RateLimitService.run history
                            (RateLimitService.handleRateLimit now0 c R svc)) |}
              = Some (r, s', trace) ->
              (now0 + R < Date_now s')%Q)).
Proof.
  intros Hwf _.
  pose proof (well_formed_handleRateLimit now0 c R svc Hwf) as Hwf0.
  pose proof (cooling_handleRateLimit now0 c R svc) as Hcool0.
  split.
  - destruct (handleRateLimit_lookup now0 c R svc) as (b0 & Hb0 & Hb).
    eexists. split; [exact Hb|]. split; [reflexivity|]. split; [reflexivity|].
    intros now Hearly.
    assert (Hrate : RateLimitService.refillRate b0 = 5%Q).
    { apply (well_formed_getOrCreateChannelBucket now0 c) in Hwf.
      exact (proj2 (proj2 Hwf c b0 Hb0)). }
    apply refill_before_deadline; cbn;
      [reflexivity|rewrite Hrate; reflexivity|exact Hearly].
  - intros history Hkept.
    destruct (cooling_kept_run (now0 + R) c history _ Hwf0 Hcool0 Hkept)
      as [Hcool Hgrants].
    pose proof (well_formed_run history _ Hwf0) as Hwf1.
    split; [exact Hgrants|].
    intros W RT fuel w r s' trace Hrun.
    apply acquireToken_sound in Hrun; [|exact Hwf1].
    destruct Hrun as (_ & s1 & t1 & t2 & Hacq1 & Hacq2 & _).
    pose proof (acquisition_well_formed _ _ _ _ _ _ Hacq1 Hwf1) as Hwf2.
    pose proof (acquisition_global_channels _ _ _ _ _ Hacq1) as Hsame.
    cbn [RateLimitService.service] in Hsame.
    apply (acquisition_cooling (now0 + R) _ _ _ _ _ _ Hacq2); [reflexivity|].
    intros b Hb.
    destruct (ensured_channel_shape c s1 b Hwf2 Hb) as [Hcap Hrate].
    repeat split; try assumption.
    destruct Hcool as (b1 & Hb1 & Hc1).
    unfold RateLimitService.update in Hb. cbn [RateLimitService.service] in Hb.
    rewrite with_channel_eq in Hb. rewrite <- Hsame in Hb1.
    rewrite (getOrCreateChannelBucket_present _ c c _ b1 Hb1) in Hb.
    injection Hb as <-. exact Hc1.
Qed.

Lemma handleRateLimit_cooldown_witness :
  (exists s' trace,
      RateLimitService.acquireToken 40 "c"
        {| RateLimitService.world := 0%Q;
           RateLimitService.service :=
             RateLimitService.handleRateLimit 0 "c" 5000 (RateLimitService.new 0) |}
      = Some (Return tt, s', trace)
      /\ (0 + 5000 < Date_now s')%Q
      /\ (Date_now s' == 5200)%Q)
  /\ (exists s' trace,
        RateLimitService.acquireToken 40 "c"
          {| RateLimitService.world := 4900%Q;
             RateLimitService.service :=
               fst (RateLimitService.run
                      [(10%Q, RateLimitService.Deplete "d" 100);
                       (310%Q, RateLimitService.Poll (RateLimitService.ChannelRef "d"));
                       (4800%Q, RateLimitService.Poll (RateLimitService.ChannelRef "c"))]
                      (RateLimitService.handleRateLimit 0 "c" 5000
                         (RateLimitService.new 0))) |}
        = Some (Return tt, s', trace)
        /\ (0 + 5000 < Date_now s')%Q
        /\ (Date_now s' == 5300)%Q).
Proof.
  destruct (handleRateLimit_cooldown (RateLimitService.new 0) 0 "c" 5000
              (well_formed_new 0) eq_refl) as (_ & Hlater).
  split.
  - destruct (Hlater []) as [_ Hcaller]; [constructor|].
    eexists _, _. split; [vm_compute; reflexivity|].
    split; [|vm_compute; reflexivity].
    eapply (Hcaller Q Examples.Clock 40%nat 0%Q). vm_compute. reflexivity.
  - destruct (Hlater
                [(10%Q, RateLimitService.Deplete "d" 100);
                 (310%Q, RateLimitService.Poll (RateLimitService.ChannelRef "d"));
                 (4800%Q, RateLimitService.Poll (RateLimitService.ChannelRef "c"))])
      as [_ Hcaller].
    { repeat constructor. cbn. discriminate. }
    eexists _, _. split; [vm_compute; reflexivity|].
    split; [|vm_compute; reflexivity].
    eapply (Hcaller Q Examples.Clock 40%nat 4900%Q). vm_compute. reflexivity.
Defined.

(** C3, as stated, fails: a later [handleRateLimit] on the same channel
    overwrites [lastRefill] and so replaces the cooldown, also by a shorter
    one. After a cooldown of 5000 ms signalled at 0 and one of 100 ms
    signalled at 10, a poll at 310 is granted a token of the channel, and a
    caller's [acquireToken] at 310 returns at once; [reset] ends a cooldown
    as well. *)
Lemma later_signal_replaces_cooldown :
  snd (RateLimitService.run
         [(10%Q, RateLimitService.Deplete "c" 100);
          (310%Q, RateLimitService.Poll (RateLimitService.ChannelRef "c"))]
         (RateLimitService.handleRateLimit 0 "c" 5000 (RateLimitService.new 0)))
  = [(310%Q, RateLimitService.ChannelRef "c")]
  /\ (exists s',
        RateLimitService.acquireToken 1 "c"
          {| RateLimitService.world := 310%Q;
             RateLimitService.service :=
               RateLimitService.handleRateLimit 10 "c" 100
                 (RateLimitService.handleRateLimit 0 "c" 5000 (RateLimitService.new 0)) |}
        = Some (Return tt, s', [])
        /\ Date_now s' = 310%Q)
  /\ snd (RateLimitService.run
            [(10%Q, RateLimitService.Reset);
             (10%Q, RateLimitService.Poll (RateLimitService.ChannelRef "c"))]
            (RateLimitService.handleRateLimit 0 "c" 5000 (RateLimitService.new 0)))
     = [(10%Q, RateLimitService.ChannelRef "c")]
  /\ ~ (0 + 5000 < 310)%Q.
Proof.
  split; [vm_compute; reflexivity|]. split.
  - eexists. split; [vm_compute; reflexivity|reflexivity].
  - split; [vm_compute; reflexivity|]. vm_compute. discriminate.
Defined.

(** ** Capacity *)

Section Capacity.
Import RateLimitService.

Lemma within_capacity_pass (now : Q) (b : TokenBucket) :
  within_capacity (fst (acquireFromBucket_pass now b)).
Proof.
  unfold within_capacity, acquireFromBucket_pass.
  pose proof (refillBucket_capped now b) as Hcap.
  destruct (Qle_bool 1 (tokens (refillBucket now b))); cbn [fst]; [|exact Hcap].
  cbn [consume tokens capacity] in *. lra.
Qed.

Lemma all_within_capacity_new (now : Q) : all_within_capacity (new now).
Proof.
  split; [apply Qle_refl|].
  intros c b Hb. cbn in Hb. rewrite lookup_empty in Hb. discriminate.
Qed.

Lemma all_within_capacity_assign (ref : BucketRef) (b : TokenBucket) (svc : t) :
  all_within_capacity svc -> within_capacity b ->
  all_within_capacity (assign ref b svc).
Proof.
  intros [Hg Hc] Hb. destruct ref as [|c]; cbn.
  - split; assumption.
  - split; [assumption|]. intros c' b' Hb'. cbn in Hb'.
    destruct (decide (c = c')) as [->|Hne].
    + rewrite lookup_insert_eq in Hb'. now injection Hb' as <-.
    + rewrite lookup_insert_ne in Hb' by exact Hne. now apply (Hc c').
Qed.

Lemma all_within_capacity_getOrCreateChannelBucket (now : Q) (c : string) (svc : t) :
  all_within_capacity svc -> all_within_capacity (getOrCreateChannelBucket now c svc).
Proof.
  intros Hall. unfold getOrCreateChannelBucket.
  destruct (channelBuckets svc !! c); [exact Hall|].
  apply (all_within_capacity_assign (ChannelRef c)); [exact Hall|apply Qle_refl].
Qed.

Lemma all_within_capacity_act (now : Q) (a : Action) (svc : t) :
  well_formed svc -> all_within_capacity svc ->
  all_within_capacity (fst (act now a svc)).
Proof.
  intros Hwf Hall. destruct a as [ref|c|c retryAfter|]; cbn [act].
  - destruct (deref ref svc) as [b|]; [|exact Hall].
    pose proof (within_capacity_pass now b) as Hpass.
    destruct (acquireFromBucket_pass now b) as [b' wait]. cbn [fst] in *.
    now apply all_within_capacity_assign.
  - now apply all_within_capacity_getOrCreateChannelBucket.
  - cbn [fst]. unfold handleRateLimit.
    apply (all_within_capacity_getOrCreateChannelBucket now c) in Hall.
    apply (well_formed_getOrCreateChannelBucket now c) in Hwf.
    destruct (channelBuckets (getOrCreateChannelBucket now c svc) !! c) as [b|] eqn:Hb;
      [|exact Hall].
    apply all_within_capacity_assign; [exact Hall|].
    unfold within_capacity. cbn. rewrite (proj1 (proj2 Hwf c b Hb)). discriminate.
  - cbn [fst]. split; [apply Qle_refl|].
    intros c b Hb. cbn in Hb. rewrite lookup_fmap in Hb.
    destruct (channelBuckets svc !! c); [|discriminate].
    cbn in Hb. injection Hb as <-. apply Qle_refl.
Qed.

Lemma all_within_capacity_run (history : list (Q * Action)) :
  forall svc,
    well_formed svc -> all_within_capacity svc ->
    all_within_capacity (fst (run history svc)).
Proof.
  induction history as [|[now a] rest IH]; intros svc Hwf Hall; [exact Hall|].
  cbn [run].
  pose proof (well_formed_act now a svc Hwf) as Hwf1.
  pose proof (all_within_capacity_act now a svc Hwf Hall) as Hall1.
  destruct (act now a svc) as [svc1 granted]. cbn [fst] in *.
  specialize (IH svc1 Hwf1 Hall1). destruct (run rest svc1) as [svc2 grants]. exact IH.
Qed.

End Capacity.

(** C6, as the code has it. Immediately after a refill, whatever came
    before, a bucket's tokens do not exceed its capacity (in a service
    started by the constructor they never do, at any point); tokens may be
    negative; a granted acquisition deducts exactly 1 from the refilled
    tokens and a refused one leaves the refilled bucket as it is; an external
    depletion sets tokens to 0, which does not increase them when they were
    not negative. *)
Theorem tokens_capped_after_refill :
  (forall now b, within_capacity (RateLimitService.refillBucket now b))
  /\ (forall now0 history ref b,
        RateLimitService.deref ref
          (fst (RateLimitService.run history (RateLimitService.new now0))) = Some b ->
        within_capacity b)
  /\ (exists b,
        RateLimitService.channelBuckets Examples.cooled_and_polled !! "c" = Some b
        /\ (RateLimitService.tokens b < 0)%Q)
  /\ (forall now b,
        ((1 <= RateLimitService.tokens (RateLimitService.refillBucket now b))%Q ->
         RateLimitService.tokens (fst (RateLimitService.acquireFromBucket_pass now b))
         = (RateLimitService.tokens (RateLimitService.refillBucket now b) - 1)%Q)
        /\ ((RateLimitService.tokens (RateLimitService.refillBucket now b) < 1)%Q ->
            fst (RateLimitService.acquireFromBucket_pass now b)
            = RateLimitService.refillBucket now b))
  /\ (forall now c R svc b,
        RateLimitService.channelBuckets svc !! c = Some b ->
        (0 <= RateLimitService.tokens b)%Q ->
        exists b',
          RateLimitService.channelBuckets
            (RateLimitService.handleRateLimit now c R svc) !! c = Some b'
          /\ RateLimitService.tokens b' = 0%Q
          /\ (RateLimitService.tokens b' <= RateLimitService.tokens b)%Q).
Proof.
  split; [|split; [|split; [|split]]].
  - intros now b. apply refillBucket_capped.
  - intros now0 history ref b Hb.
    pose proof (all_within_capacity_run history _ (well_formed_new now0)
                  (all_within_capacity_new now0)) as [Hg Hc].
    destruct ref as [|c]; cbn in Hb.
    + now injection Hb as <-.
    + exact (Hc c b Hb).
  - eexists. split; [vm_compute; reflexivity|]. vm_compute. reflexivity.
  - intros now b. split.
    + intros Hge. rewrite (pass_granted now b Hge). reflexivity.
    + intros Hlt. rewrite (pass_refused now b Hlt). reflexivity.
  - intros now c R svc b Hb Hpos.
    destruct (handleRateLimit_lookup now c R svc) as (b0 & _ & Hb').
    eexists. split; [exact Hb'|]. split; [reflexivity|exact Hpos].
Qed.

Lemma tokens_capped_after_refill_witness :
  (exists b,
      RateLimitService.deref (RateLimitService.ChannelRef "c")
        (fst (RateLimitService.run (Examples.acquire_pieces 0) (RateLimitService.new 0)))
      = Some b
      /\ RateLimitService.tokens b = 4%Q
      /\ within_capacity b)
  /\ (exists b b',
        RateLimitService.channelBuckets
          (RateLimitService.service Examples.drained) !! "c" = Some b
        /\ RateLimitService.channelBuckets
             (RateLimitService.handleRateLimit 0 "c" 5000
                (RateLimitService.service Examples.drained)) !! "c" = Some b'
        /\ RateLimitService.tokens b' = 0%Q
        /\ (RateLimitService.tokens b' <= RateLimitService.tokens b)%Q).
Proof.
  destruct tokens_capped_after_refill as (_ & Hreach & _ & _ & Hdeplete).
  split.
  - eexists. split; [vm_compute; reflexivity|]. split; [reflexivity|].
    eapply (Hreach 0%Q (Examples.acquire_pieces 0) (RateLimitService.ChannelRef "c")).
    vm_compute. reflexivity.
  - assert (Hb : exists b,
               RateLimitService.channelBuckets
                 (RateLimitService.service Examples.drained) !! "c" = Some b
               /\ (0 <= RateLimitService.tokens b)%Q).
    { eexists. split; [vm_compute; reflexivity|]. vm_compute. discriminate. }
    destruct Hb as (b & Hb & Hpos).
    destruct (Hdeplete 0%Q "c" 5000%Q (RateLimitService.service Examples.drained) b
                Hb Hpos) as (b' & Hb' & Hzero & Hle).
    exists b, b'. repeat split; assumption.
Defined.

(** C6, as stated, fails: after a cooldown was signalled and a caller
    polled the bucket, its tokens are -25; a second [handleRateLimit], which
    is no refill, sets them to 0 and so increases them. *)
Lemma depletion_raises_negative_tokens :
  exists b b',
    RateLimitService.channelBuckets Examples.cooled_and_polled !! "c" = Some b
    /\ RateLimitService.channelBuckets
         (RateLimitService.handleRateLimit 0 "c" 5000 Examples.cooled_and_polled) !! "c"
       = Some b'
    /\ (RateLimitService.tokens b == -25)%Q
    /\ RateLimitService.tokens b' = 0%Q
    /\ (RateLimitService.tokens b < RateLimitService.tokens b')%Q.
Proof.
  eexists _, _. split; [vm_compute; reflexivity|].
  split; [vm_compute; reflexivity|].
  split; [vm_compute; reflexivity|].
  split; [reflexivity|]. vm_compute. reflexivity.
Qed.

(** * Further properties of the code *)

Import Laws.

(** ** Retrying *)

Section RetryShape.
Context {St : Type} `{Runtime St} {T : Type}.
Variable h : RetryHandler.t.
Variable operation : Async St T.

Lemma attempts_shape (attempt : Z) (s : St) r s' trace :
  attempts h operation attempt s r s' trace ->
  0 <= attempt <= maxRetries h ->
  exists failures s_last inner,
    trace = retried h attempt failures ++ [EvCall (outcome r) inner]
    /\ operation s_last = Some (r, s', inner)
    /\ Forall (fun failure => isRetryableError h (fst failure) = true) failures
    /\ attempt + Z.of_nat (length failures) <= maxRetries h
    /\ (forall e, r = Throw e ->
          isRetryableError h e = false
          \/ attempt + Z.of_nat (length failures) = maxRetries h).
Proof.
  induction 1 as [attempt s a s' inner Hop
                 |attempt s e s' inner Hop Hstop
                 |attempt s e s1 inner r s' trace Hop Hretry Hlt Hrest IH];
    intros Hrange.
  - exists [], s, inner. cbn. repeat split; auto; try lia. discriminate.
  - exists [], s, inner. cbn. repeat split; auto; try lia.
    intros e' [= <-]. rewrite isRetryableError_classify.
    destruct Hstop as [Hfatal| ->]; [left; exact Hfatal | right; lia].
  - destruct IH as (failures & s_last & inner' & -> & Hlast & Hall & Hlen & Hend); [lia|].
    exists ((e, inner) :: failures), s_last, inner'.
    cbn [retried length app]. rewrite calculateDelay_backoff by lia.
    repeat split; auto.
    + constructor; [|exact Hall]. cbn. rewrite isRetryableError_classify. exact Hretry.
    + lia.
    + intros e' He'. destruct (Hend e' He') as [Hf|Hm]; [left; exact Hf | right; lia].
Qed.

End RetryShape.

(** X3. A settled run of [execute] is a sequence of failed attempts, each
    followed at once by its own backoff, and one last attempt whose result
    is the result of [execute]. Every failure before the last was retryable,
    no more than [maxRetries] of them were retried, and a thrown error stopped
    the loop because it was not retryable or the retries were used up. *)
Theorem execute_trace_shape
    {St : Type} `{Runtime St} {T : Type}
    (h : RetryHandler.t) (operation : Async St T) (s : St) r s' trace :
  0 <= maxRetries h ->
  execute h operation s = Some (r, s', trace) ->
  exists failures s_last inner,
    trace = retried h 0 failures ++ [EvCall (outcome r) inner]
    /\ operation s_last = Some (r, s', inner)
    /\ Forall (fun failure => isRetryableError h (fst failure) = true) failures
    /\ Z.of_nat (length failures) <= maxRetries h
    /\ (forall e, r = Throw e ->
          isRetryableError h e = false
          \/ Z.of_nat (length failures) = maxRetries h).
Proof.
  intros Hmax Hrun.
  destruct (attempts_shape h operation 0 s r s' trace) as
    (failures & s_last & inner & Htrace & Hlast & Hall & Hlen & Hend).
  - apply execute_sound; assumption.
  - lia.
  - exists failures, s_last, inner. repeat split; auto.
Qed.

(** X14. With a negative [maxRetries] the loop body never runs: the
    operation is not invoked and [execute] throws
    [Error('Max retries exceeded')] at once. *)
Theorem execute_without_attempts
    {St : Type} `{Runtime St} {T : Type}
    (h : RetryHandler.t) (operation : Async St T) (s : St) :
  maxRetries h < 0 ->
  execute h operation s = Some (Throw (PlainError "Max retries exceeded"), s, []).
Proof.
  intros Hneg. unfold execute.
  replace (Z.to_nat (maxRetries h + 1)) with 0%nat by lia.
  cbn [execute_from].
  destruct (Z.leb_spec 0 (maxRetries h)) as [Hle|_]; [lia|].
  reflexivity.
Qed.

Section Backoff.

Lemma total_app (xs ys : list Q) : (total (xs ++ ys) == total xs + total ys)%Q.
Proof.
  induction xs as [|x xs IH]; cbn [app total fold_right].
  - fold (total ys). lra.
  - fold (total (xs ++ ys)). fold (total xs). rewrite IH. lra.
Qed.

Lemma total_backoffs (h : RetryHandler.t) (k : nat) :
  (total (map (fun i => backoff h (0 + Z.of_nat i)) (seq 0 k))
   == baseDelay h * (inject_Z (2 ^ Z.of_nat k) - 1))%Q.
Proof.
  induction k as [|k IH].
  - cbn [seq map total fold_right]. change (2 ^ Z.of_nat 0) with 1.
    change (inject_Z 1) with 1%Q. lra.
  - rewrite seq_S, map_app, total_app, IH. cbn [map total fold_right Nat.add].
    unfold backoff. rewrite Nat2Z.inj_succ, Z.pow_succ_r by lia.
    rewrite Z.add_0_l. rewrite inject_Z_mult. change (inject_Z 2) with 2%Q. lra.
Qed.

Lemma pow2_monotone (a b : Z) : 0 <= a <= b -> (inject_Z (2 ^ a) <= inject_Z (2 ^ b))%Q.
Proof.
  intros Hab. rewrite <- Zle_Qle. apply Z.pow_le_mono_r; lia.
Qed.

End Backoff.

(** X11. The backoff [execute] sleeps in total is
    [baseDelay * (2^retries - 1)], where [retries] is one less than the number
    of invocations; with a non-negative [baseDelay] it never exceeds
    [baseDelay * (2^maxRetries - 1)]. *)
Theorem total_backoff
    {St : Type} `{Runtime St} {T : Type}
    (h : RetryHandler.t) (operation : Async St T) (s : St) r s' trace :
  0 <= maxRetries h ->
  (0 <= baseDelay h)%Q ->
  execute h operation s = Some (r, s', trace) ->
  (total (sleeps trace)
   == baseDelay h * (inject_Z (2 ^ Z.of_nat (invocations trace - 1)) - 1))%Q
  /\ (total (sleeps trace) <= baseDelay h * (inject_Z (2 ^ maxRetries h) - 1))%Q.
Proof.
  intros Hmax Hbase Hrun.
  apply execute_sound in Hrun; [|assumption].
  pose proof (attempts_sleeps h operation 0 s r s' trace Hrun) as Hsleeps.
  pose proof (attempts_invocations h operation 0 s r s' trace Hrun ltac:(lia)) as [Hone Hbudget].
  assert (Htotal : (total (sleeps trace)
            == baseDelay h * (inject_Z (2 ^ Z.of_nat (invocations trace - 1)) - 1))%Q).
  { rewrite Hsleeps. apply total_backoffs. }
  split; [exact Htotal|].
  rewrite Htotal.
  assert (Hpow : (inject_Z (2 ^ Z.of_nat (invocations trace - 1))
                  <= inject_Z (2 ^ maxRetries h))%Q) by (apply pow2_monotone; lia).
  nra.
Qed.

(** ** Buckets *)

Section Quota.
Import RateLimitService.

Lemma same_bucket_eq (a b : BucketRef) : same_bucket a b = true <-> a = b.
Proof.
  destruct a as [|c], b as [|c']; cbn; try (split; [discriminate|congruence]).
  - split; reflexivity.
  - rewrite String.eqb_eq. split; congruence.
Qed.

Lemma deref_assign_other (ref ref' : BucketRef) (b : TokenBucket) (svc : t) :
  ref <> ref' -> deref ref (assign ref' b svc) = deref ref svc.
Proof.
  intros Hne. destruct ref as [|c], ref' as [|c']; cbn; try reflexivity; try congruence.
  apply lookup_insert_ne. congruence.
Qed.

Lemma deref_getOrCreateChannelBucket (ref : BucketRef) (now : Q) (c : string)
    (svc : t) (b : TokenBucket) :
  deref ref svc = Some b -> deref ref (getOrCreateChannelBucket now c svc) = Some b.
Proof.
  destruct ref as [|c']; cbn [deref].
  - rewrite getOrCreateChannelBucket_global. trivial.
  - apply getOrCreateChannelBucket_present.
Qed.

(** One piece of an acquisition keeps the account of a bucket: the tokens
    it holds and those it granted are covered by what it started with and
    what its rate produced up to its [lastRefill]. *)
Lemma quota_act (ref : BucketRef) (now : Q) (a : Action) (svc : t)
    (b : TokenBucket) (granted budget : Q) :
  deref ref svc = Some b ->
  (tokens b + granted <= budget + lastRefill b / 1000 * refillRate b)%Q ->
  is_acquisition a = true ->
  exists b',
    deref ref (fst (act now a svc)) = Some b'
    /\ refillRate b' = refillRate b
    /\ if (match a with Poll polled => same_bucket ref polled | _ => false end)
          && snd (act now a svc)
       then (granted + 1 <= budget + now / 1000 * refillRate b)%Q
            /\ (tokens b' + (granted + 1) <= budget + lastRefill b' / 1000 * refillRate b')%Q
       else (tokens b' + granted <= budget + lastRefill b' / 1000 * refillRate b')%Q.
Proof.
  intros Hb Hinv Ha.
  destruct a as [polled|c| |]; try discriminate; cbn [act].
  - destruct (same_bucket ref polled) eqn:Hsame.
    + apply same_bucket_eq in Hsame as <-. rewrite Hb.
      pose proof (refillBucket_added now b) as Hadd.
      destruct (pass_cases now b) as [[Hge Hpass]|[Hlt Hpass]]; rewrite Hpass;
        cbn [fst snd andb]; rewrite deref_assign; eexists; (split; [reflexivity|]);
        (split; [reflexivity|]); cbn [consume refillBucket tokens lastRefill refillRate] in *.
      * set (m := Qmin _ _) in *. clearbody m. split; q_arith.
      * set (m := Qmin _ _) in *. clearbody m. q_arith.
    + assert (Hne : ref <> polled).
      { intros Heq. apply same_bucket_eq in Heq. congruence. }
      cbn [andb]. exists b. split; [|split; [reflexivity|exact Hinv]].
      destruct (deref polled svc) as [b1|]; [|exact Hb].
      destruct (acquireFromBucket_pass now b1) as [b' wait]. cbn [fst].
      rewrite deref_assign_other by exact Hne. exact Hb.
  - cbn [fst snd andb]. exists b.
    split; [now apply deref_getOrCreateChannelBucket|split; [reflexivity|exact Hinv]].
Qed.

Lemma quota_run (ref : BucketRef) (history : list (Q * Action)) :
  forall (svc : t) (b : TokenBucket) (granted budget : Q),
    deref ref svc = Some b ->
    (tokens b + granted <= budget + lastRefill b / 1000 * refillRate b)%Q ->
    acquisitions_only history ->
    forall (k : nat) (now : Q),
      grants_on ref (snd (run history svc)) !! k = Some now ->
      (granted + inject_Z (Z.of_nat (Datatypes.S k))
       <= budget + now / 1000 * refillRate b)%Q.
Proof.
  induction history as [|[now0 a] rest IH]; intros svc b granted budget Hb Hinv Hacq k now Hk.
  - discriminate.
  - apply Forall_cons in Hacq as [Ha Hrest]. cbn [snd] in Ha.
    destruct (quota_act ref now0 a svc b granted budget Hb Hinv Ha)
      as (b' & Hb' & Hrate & Hstep).
    cbn [run] in Hk.
    destruct (act now0 a svc) as [svc1 was_granted]. cbn [fst snd] in *.
    pose proof (IH svc1 b') as IH'.
    destruct (run rest svc1) as [svc2 grants]. cbn [snd] in *.
    rewrite <- Hrate.
    destruct a as [polled|c| |]; try discriminate.
    + destruct was_granted.
      * cbn [grants_on] in Hk. destruct (same_bucket ref polled); cbn [andb] in Hstep.
        -- destruct Hstep as [Hfirst Hinv']. destruct k as [|k].
           ++ cbn in Hk. injection Hk as <-. rewrite Hrate.
              change (inject_Z (Z.of_nat 1)) with 1%Q. exact Hfirst.
           ++ cbn in Hk. specialize (IH' (granted + 1)%Q budget Hb' Hinv' Hrest k now Hk).
              replace (Z.of_nat (Datatypes.S (Datatypes.S k)))
                with (Z.of_nat (Datatypes.S k) + 1) by lia.
              rewrite inject_Z_plus. change (inject_Z 1) with 1%Q. lra.
        -- now apply (IH' granted budget).
      * rewrite andb_false_r in Hstep. now apply (IH' granted budget).
    + cbn [andb] in Hstep. now apply (IH' granted budget).
Qed.

End Quota.

Section Reset.
Context {W : Type} `{Runtime W}.
Import RateLimitService.

Lemma deref_reset (ref : BucketRef) (now : Q) (svc : t) :
  deref ref (reset now svc) = resetBucket now <$> deref ref svc.
Proof. destruct ref as [|c]; cbn; [reflexivity|apply lookup_fmap]. Qed.

(** A bucket that is full and was refilled in the past grants at once. *)
Lemma full_bucket_grants (now : Q) (b : TokenBucket) :
  tokens b = capacity b ->
  (1 <= capacity b)%Q -> (0 <= refillRate b)%Q ->
  (lastRefill b <= now)%Q ->
  acquireFromBucket_pass now b = (consume (refillBucket now b), None).
Proof.
  intros Hfull Hcap Hrate Hpast. apply pass_granted.
  cbn [refillBucket tokens]. apply Q.min_glb; [exact Hcap|].
  rewrite Hfull.
  assert (0 <= (now - lastRefill b) / 1000 * refillRate b)%Q; [|lra].
  unfold Qdiv. change (/ 1000)%Q with (1 # 1000)%Q. nra.
Qed.

Lemma acquireFromBucket_full (fuel : nat) (ref : BucketRef) (s : State W) (b : TokenBucket) :
  deref ref (service s) = Some b ->
  tokens b = capacity b ->
  (1 <= capacity b)%Q -> (0 <= refillRate b)%Q ->
  (lastRefill b <= Date_now s)%Q ->
  acquireFromBucket (Datatypes.S fuel) ref s
  = Some (Return tt, update (assign ref (consume (refillBucket (Date_now s) b))) s, []).
Proof.
  intros Hb Hfull Hcap Hrate Hpast.
  rewrite acquireFromBucket_eq, Hb, (full_bucket_grants _ b Hfull Hcap Hrate Hpast).
  reflexivity.
Qed.

(** With every bucket full, [acquireToken] returns without waiting. *)
Lemma acquireToken_full (fuel : nat) (c : string) (s : State W) :
  well_formed (service s) ->
  (forall ref b, deref ref (service s) = Some b ->
     tokens b = capacity b /\ (lastRefill b <= Date_now s)%Q) ->
  exists s',
    acquireToken (Datatypes.S fuel) c s = Some (Return tt, s', [])
    /\ world s' = world s.
Proof.
  intros Hwf Hfull.
  destruct (Hfull GlobalRef (globalBucket (service s)) eq_refl) as [Hgfull Hgpast].
  destruct Hwf as [[Hgcap Hgrate] Hchannels].
  rewrite acquireToken_eq.
  rewrite (acquireFromBucket_full fuel GlobalRef s (globalBucket (service s)) eq_refl Hgfull);
    [|rewrite Hgcap; discriminate|rewrite Hgrate; discriminate|exact Hgpast].
  remember (update (assign GlobalRef
                      (consume (refillBucket (Date_now s) (globalBucket (service s))))) s)
    as s1 eqn:Hs1.
  assert (Hnow1 : Date_now s1 = Date_now s) by (subst s1; reflexivity).
  assert (Hch1 : channelBuckets (service s1) = channelBuckets (service s))
    by (subst s1; reflexivity).
  assert (Hw1 : world s1 = world s) by (subst s1; reflexivity).
  remember (update (getOrCreateChannelBucket (Date_now s1) c) s1) as s2 eqn:Hs2.
  assert (Hnow2 : Date_now s2 = Date_now s) by (subst s2; exact Hnow1).
  pose proof (getOrCreateChannelBucket_lookup (Date_now s1) c (service s1)) as Hlookup.
  assert (Hb : exists b, deref (ChannelRef c) (service s2) = Some b
                         /\ channel_shape b
                         /\ tokens b = capacity b /\ (lastRefill b <= Date_now s2)%Q).
  { subst s2. cbn [deref update service]. rewrite Hlookup, Hch1.
    eexists. split; [reflexivity|].
    destruct (channelBuckets (service s) !! c) as [b0|] eqn:Hb0; cbn [default].
    - split; [exact (Hchannels c b0 Hb0)|].
      rewrite Hnow2. exact (Hfull (ChannelRef c) b0 Hb0).
    - split; [split; reflexivity|]. split; [reflexivity|]. cbn [lastRefill].
      change (Date_now (update (getOrCreateChannelBucket (Date_now s1) c) s1))
        with (Date_now s1). apply Qle_refl. }
  destruct Hb as (b & Hb & [Hcap Hrate] & Hbfull & Hbpast).
  rewrite (acquireFromBucket_full fuel (ChannelRef c) s2 b Hb Hbfull);
    [|rewrite Hcap; discriminate|rewrite Hrate; discriminate|exact Hbpast].
  eexists. split; [reflexivity|]. subst s2. cbn. exact Hw1.
Qed.

End Reset.


Section Persistence.
Import RateLimitService.

Lemma pass_keeps_configuration (now : Q) (b : TokenBucket) :
  capacity (fst (acquireFromBucket_pass now b)) = capacity b
  /\ refillRate (fst (acquireFromBucket_pass now b)) = refillRate b.
Proof.
  unfold acquireFromBucket_pass.
  destruct (Qle_bool 1 (tokens (refillBucket now b))); split; reflexivity.
Qed.

Lemma act_keeps_buckets (now : Q) (a : Action) (svc : t) (ref : BucketRef) (b : TokenBucket) :
  deref ref svc = Some b ->
  exists b',
    deref ref (fst (act now a svc)) = Some b'
    /\ capacity b' = capacity b /\ refillRate b' = refillRate b.
Proof.
  intros Hb. destruct a as [polled|c|c retryAfter|]; cbn [act fst].
  - destruct (deref polled svc) as [b1|] eqn:Hb1; [|exists b; auto].
    pose proof (pass_keeps_configuration now b1) as Hkeep.
    destruct (acquireFromBucket_pass now b1) as [b' wait]. cbn [fst] in *.
    destruct (same_bucket ref polled) eqn:Hsame.
    + apply same_bucket_eq in Hsame as <-. rewrite deref_assign.
      exists b'. split; [reflexivity|]. congruence.
    + rewrite deref_assign_other; [exists b; auto|].
      intros Heq. apply same_bucket_eq in Heq. congruence.
  - exists b. split; [now apply deref_getOrCreateChannelBucket|auto].
  - unfold handleRateLimit.
    pose proof (deref_getOrCreateChannelBucket ref now c svc b Hb) as Hb'.
    destruct (channelBuckets (getOrCreateChannelBucket now c svc) !! c) as [b0|] eqn:Hb0;
      [|exists b; auto].
    destruct (same_bucket ref (ChannelRef c)) eqn:Hsame.
    + apply same_bucket_eq in Hsame as ->. rewrite deref_assign.
      cbn [deref] in Hb'. rewrite Hb0 in Hb'. injection Hb' as ->.
      eexists. split; [reflexivity|]. split; reflexivity.
    + rewrite deref_assign_other; [exists b; auto|].
      intros Heq. apply same_bucket_eq in Heq. congruence.
  - rewrite deref_reset, Hb. eexists. split; [reflexivity|]. split; reflexivity.
Qed.

End Persistence.

(** X15. No method, [reset] and [handleRateLimit] included, removes a
    bucket or changes its capacity or its refill rate: a bucket that exists
    still exists after any history, with both as before. *)
Theorem buckets_persist
    (history : list (Q * RateLimitService.Action)) (svc : RateLimitService.t)
    (ref : RateLimitService.BucketRef) (b : RateLimitService.TokenBucket) :
  RateLimitService.deref ref svc = Some b ->
  exists b',
    RateLimitService.deref ref (fst (RateLimitService.run history svc)) = Some b'
    /\ RateLimitService.capacity b' = RateLimitService.capacity b
    /\ RateLimitService.refillRate b' = RateLimitService.refillRate b.
Proof.
  revert svc b. induction history as [|[now a] rest IH]; intros svc b Hb.
  - exists b. auto.
  - cbn [RateLimitService.run].
    destruct (act_keeps_buckets now a svc ref b Hb) as (b1 & Hb1 & Hcap1 & Hrate1).
    destruct (RateLimitService.act now a svc) as [svc1 granted]. cbn [fst] in Hb1.
    destruct (IH svc1 b1 Hb1) as (b' & Hb' & Hcap & Hrate).
    destruct (RateLimitService.run rest svc1) as [svc2 grants]. cbn [fst] in *.
    exists b'. split; [exact Hb'|]. split; congruence.
Qed.

Section Isolation.
Context {W : Type} `{Runtime W}.
Import RateLimitService.

Lemma agree_except_deref (c : string) (ref : BucketRef) (svc1 svc2 : t) :
  agree_except c svc1 svc2 -> ref <> ChannelRef c -> deref ref svc1 = deref ref svc2.
Proof.
  intros [Hg Hc] Hne. destruct ref as [|c']; cbn; [now rewrite Hg|].
  apply Hc. congruence.
Qed.

Lemma agree_except_assign (c : string) (ref : BucketRef) (b : TokenBucket) (svc1 svc2 : t) :
  agree_except c svc1 svc2 ->
  agree_except c (assign ref b svc1) (assign ref b svc2).
Proof.
  intros [Hg Hc]. destruct ref as [|c']; split; cbn; auto.
  intros k Hk. destruct (decide (k = c')) as [->|Hne].
  - now rewrite !lookup_insert_eq.
  - rewrite !lookup_insert_ne by congruence. now apply Hc.
Qed.

Lemma agree_except_getOrCreateChannelBucket (c c' : string) (now : Q) (svc1 svc2 : t) :
  agree_except c svc1 svc2 -> c' <> c ->
  agree_except c (getOrCreateChannelBucket now c' svc1)
                 (getOrCreateChannelBucket now c' svc2).
Proof.
  intros [Hg Hc] Hne. unfold getOrCreateChannelBucket.
  rewrite (Hc c' Hne). destruct (channelBuckets svc2 !! c'); [split; assumption|].
  split; cbn; [exact Hg|].
  intros k Hk. destruct (decide (k = c')) as [->|Hne'].
  - now rewrite !lookup_insert_eq.
  - rewrite !lookup_insert_ne by congruence. now apply Hc.
Qed.

Lemma agree_except_handleRateLimit (c : string) (now retryAfter : Q) (svc : t) :
  agree_except c (handleRateLimit now c retryAfter svc) svc.
Proof.
  unfold handleRateLimit.
  assert (Hcreate : agree_except c (getOrCreateChannelBucket now c svc) svc).
  { split; [apply getOrCreateChannelBucket_global|].
    intros k Hk. apply getOrCreateChannelBucket_other. congruence. }
  destruct (channelBuckets (getOrCreateChannelBucket now c svc) !! c); [|exact Hcreate].
  destruct Hcreate as [Hg Hc]. split; cbn; [exact Hg|].
  intros k Hk. rewrite lookup_insert_ne by congruence. now apply Hc.
Qed.

Lemma acquireFromBucket_isolated (c : string) (ref : BucketRef) (fuel : nat) :
  ref <> ChannelRef c ->
  forall s1 s2 : State W,
    world s1 = world s2 ->
    agree_except c (service s1) (service s2) ->
    option_Forall2 (same_run_except c)
      (acquireFromBucket fuel ref s1) (acquireFromBucket fuel ref s2).
Proof.
  intros Hne. induction fuel as [|fuel IH]; intros s1 s2 Hw Hagree; [constructor|].
  rewrite !acquireFromBucket_eq.
  rewrite (agree_except_deref c ref _ _ Hagree Hne).
  destruct (deref ref (service s2)) as [b|]; [|constructor].
  assert (Hnow : Date_now s1 = Date_now s2) by (cbn; now rewrite Hw).
  rewrite Hnow.
  destruct (acquireFromBucket_pass (Date_now s2) b) as [b' [waitTime|]].
  - specialize (IH (wake waitTime (update (assign ref b') s1))
                   (wake waitTime (update (assign ref b') s2))).
    destruct IH as [[[r1 s1'] t1] [[r2 s2'] t2] (Hr & Ht & Hw' & Hagree')|].
    + cbn. now rewrite Hw.
    + cbn. now apply agree_except_assign.
    + constructor. cbn [fst snd] in *. subst r2 t2.
      split; [reflexivity|]. split; [reflexivity|]. split; assumption.
    + constructor.
  - constructor. split; [reflexivity|]. split; [reflexivity|].
    split; [exact Hw|]. now apply agree_except_assign.
Qed.

End Isolation.

(** X4. Channels do not throttle each other. [acquireToken] on one channel
    runs the same way (same result, same sleeps, same world) on two services
    that differ only in the bucket of another channel, and leaves them
    differing only there; [handleRateLimit] on a channel changes no bucket but
    that channel's. *)
Theorem cooldown_is_per_channel
    {W : Type} `{Runtime W} (fuel : nat) (c c' : string) :
  c' <> c ->
  (forall s1 s2 : RateLimitService.State W,
      RateLimitService.world s1 = RateLimitService.world s2 ->
      agree_except c (RateLimitService.service s1) (RateLimitService.service s2) ->
      option_Forall2 (same_run_except c)
        (RateLimitService.acquireToken fuel c' s1)
        (RateLimitService.acquireToken fuel c' s2))
  /\ (forall now retryAfter svc,
        agree_except c (RateLimitService.handleRateLimit now c retryAfter svc) svc).
Proof.
  intros Hne. split; [|intros now retryAfter svc; apply agree_except_handleRateLimit].
  intros s1 s2 Hworld Hinit. rewrite !acquireToken_eq.
  destruct (acquireFromBucket_isolated c RateLimitService.GlobalRef fuel ltac:(discriminate)
              s1 s2 Hworld Hinit)
    as [[[r1 s1'] t1] [[r2 s2'] t2] (Hr & Ht & Hw & Hagree)|]; [|constructor].
  cbn [fst snd] in Hr, Ht, Hw, Hagree. subst r2 t2.
  destruct r1 as [[]|e].
  2: { constructor. split; [reflexivity|]. split; [reflexivity|]. split; assumption. }
  assert (Hnow : Date_now s1' = Date_now s2') by (cbn; now rewrite Hw).
  rewrite Hnow.
  destruct (acquireFromBucket_isolated c (RateLimitService.ChannelRef c') fuel
              ltac:(congruence)
              (RateLimitService.update
                 (RateLimitService.getOrCreateChannelBucket (Date_now s2') c') s1')
              (RateLimitService.update
                 (RateLimitService.getOrCreateChannelBucket (Date_now s2') c') s2')
              Hw
              (agree_except_getOrCreateChannelBucket c c' (Date_now s2') _ _ Hagree Hne))
    as [[[r1 s1''] t1'] [[r2 s2''] t2'] (Hr & Ht & Hw' & Hagree')|]; [|constructor].
  cbn [fst snd] in Hr, Ht, Hw', Hagree'. subst r2 t2'.
  constructor. split; [reflexivity|]. split; [reflexivity|]. split; assumption.
Qed.

Section QuotaFresh.
Import RateLimitService.

Lemma grants_on_absent_act (c : string) (now : Q) (a : Action) (svc : t) :
  channelBuckets svc !! c = None ->
  is_acquisition a = true ->
  a <> Ensure c ->
  channelBuckets (fst (act now a svc)) !! c = None
  /\ (a = Poll (ChannelRef c) -> snd (act now a svc) = false).
Proof.
  intros Hnone Ha Hother.
  destruct a as [[|c']|c'| |]; try discriminate; cbn [act deref].
  - destruct (acquireFromBucket_pass now (globalBucket svc)) as [b' wait].
    split; [exact Hnone|discriminate].
  - destruct (decide (c' = c)) as [->|Hne].
    + rewrite Hnone. split; [exact Hnone|reflexivity].
    + destruct (channelBuckets svc !! c') as [b1|].
      * destruct (acquireFromBucket_pass now b1) as [b' wait]. cbn.
        split; [|congruence]. now rewrite lookup_insert_ne.
      * split; [exact Hnone|congruence].
  - cbn. split; [|discriminate].
    rewrite getOrCreateChannelBucket_other; [exact Hnone|congruence].
Qed.

Lemma quota_created (c : string) (history : list (Q * Action)) :
  forall (svc : t),
    channelBuckets svc !! c = None ->
    acquisitions_only history ->
    forall (k : nat) (now : Q),
      grants_on (ChannelRef c) (snd (run history svc)) !! k = Some now ->
      exists before created after,
        history = before ++ (created, Ensure c) :: after
        /\ (forall t, ~ In (t, Ensure c) before)
        /\ (inject_Z (Z.of_nat (Datatypes.S k))
            <= CHANNEL_CAPACITY + (now - created) / 1000 * CHANNEL_REFILL_RATE)%Q.
Proof.
  induction history as [|[now0 a] rest IH]; intros svc Hnone Hacq k now Hk; [discriminate|].
  apply Forall_cons in Hacq as [Ha Hrest]. cbn [snd] in Ha.
  assert (Hcases : a = Ensure c \/ a <> Ensure c).
  { destruct a as [polled|c'|c' retryAfter|]; try (right; discriminate).
    destruct (decide (c' = c)) as [->|Hne]; [left; reflexivity|right; congruence]. }
  destruct Hcases as [->|Hother].
  - exists [], now0, rest. split; [reflexivity|]. split; [intros t []|].
    cbn [run act] in Hk.
    pose proof (getOrCreateChannelBucket_lookup now0 c svc) as Hlookup.
    rewrite Hnone in Hlookup. cbn [default] in Hlookup.
    pose proof (quota_run (ChannelRef c) rest (getOrCreateChannelBucket now0 c svc) _
                  0%Q (CHANNEL_CAPACITY - now0 / 1000 * CHANNEL_REFILL_RATE)%Q
                  Hlookup) as Hq.
    cbn [tokens lastRefill refillRate] in Hq.
    destruct (run rest (getOrCreateChannelBucket now0 c svc)) as [svc2 grants].
    cbn [snd] in *.
    specialize (Hq ltac:(lra) Hrest k now Hk). q_arith.
  - destruct (grants_on_absent_act c now0 a svc Hnone Ha Hother) as [Hnone1 Hrefused].
    cbn [run] in Hk.
    destruct (act now0 a svc) as [svc1 granted]. cbn [fst snd] in *.
    specialize (IH svc1 Hnone1 Hrest k now).
    destruct (run rest svc1) as [svc2 grants]. cbn [snd] in *.
    assert (Hk' : grants_on (ChannelRef c) grants !! k = Some now).
    { destruct a as [polled|c'| |]; try discriminate; [|exact Hk].
      destruct granted; [|exact Hk].
      cbn [grants_on] in Hk.
      destruct (same_bucket (ChannelRef c) polled) eqn:Hsame; [|exact Hk].
      apply same_bucket_eq in Hsame as <-. now specialize (Hrefused eq_refl). }
    destruct (IH Hk') as (before & created & after & -> & Hfirst & Hbound).
    exists ((now0, a) :: before), created, after.
    split; [reflexivity|]. split; [|exact Hbound].
    intros t [Heq|Hin]; [|exact (Hfirst t Hin)].
    apply Hother. congruence.
Qed.

End QuotaFresh.

(** X1. The quota of a bucket. Whatever the callers and however their
    acquisitions interleave, the k-th token a bucket grants is granted no
    earlier than its rate allows: k is at most the tokens the bucket started
    with plus its rate times the seconds since its [lastRefill]. For the
    global bucket of a new service that is [50 + 50 * seconds], for a channel
    [5 + 5 * seconds] counted from the first call that created its bucket.
    No assumption on the clock values is needed. *)
Theorem bucket_quota
    (history : list (Q * RateLimitService.Action)) (k : nat) (now : Q) :
  acquisitions_only history ->
  (forall ref svc b,
      RateLimitService.deref ref svc = Some b ->
      grants_on ref (snd (RateLimitService.run history svc)) !! k = Some now ->
      (inject_Z (Z.of_nat (Datatypes.S k))
       <= RateLimitService.tokens b
          + (now - RateLimitService.lastRefill b) / 1000
            * RateLimitService.refillRate b)%Q)
  /\ (forall now0,
        grants_on RateLimitService.GlobalRef
          (snd (RateLimitService.run history (RateLimitService.new now0))) !! k
        = Some now ->
        (inject_Z (Z.of_nat (Datatypes.S k)) <= 50 + (now - now0) / 1000 * 50)%Q)
  /\ (forall c svc,
        RateLimitService.channelBuckets svc !! c = None ->
        grants_on (RateLimitService.ChannelRef c)
          (snd (RateLimitService.run history svc)) !! k = Some now ->
        exists before created after,
          history = before ++ (created, RateLimitService.Ensure c) :: after
          /\ (forall t, ~ In (t, RateLimitService.Ensure c) before)
          /\ (inject_Z (Z.of_nat (Datatypes.S k)) <= 5 + (now - created) / 1000 * 5)%Q).
Proof.
  intros Hacq.
  assert (Hgeneral : forall ref svc b,
      RateLimitService.deref ref svc = Some b ->
      grants_on ref (snd (RateLimitService.run history svc)) !! k = Some now ->
      (inject_Z (Z.of_nat (Datatypes.S k))
       <= RateLimitService.tokens b
          + (now - RateLimitService.lastRefill b) / 1000
            * RateLimitService.refillRate b)%Q).
  { intros ref svc b Hb Hk.
    pose proof (quota_run ref history svc b 0%Q
                  (RateLimitService.tokens b
                   - RateLimitService.lastRefill b / 1000 * RateLimitService.refillRate b)%Q
                  Hb ltac:(lra) Hacq k now Hk) as Hq.
    q_arith. }
  split; [exact Hgeneral|]. split.
  - intros now0 Hk.
    exact (Hgeneral RateLimitService.GlobalRef (RateLimitService.new now0) _ eq_refl Hk).
  - intros c svc Hnone Hk. exact (quota_created c history svc Hnone Hacq k now Hk).
Qed.

(** ** The handler registry *)

Section Registry.
Context {St : Type} `{Runtime St} `{InteractionService.InteractionHost St}.
Import InteractionService.

Lemma handleInteraction_lookup (svc svc' : InteractionService.t St) (i : Interaction) :
  handlers svc !! customId i = handlers svc' !! customId i ->
  handleInteraction svc i = handleInteraction svc' i.
Proof.
  intros Hsame. unfold handleInteraction.
  destruct (negb (isButton i)); [reflexivity|]. cbv zeta.
  match goal with
  | |- match ?found with _ => _ end = match ?found' with _ => _ end =>
      replace found with found' by (symmetry; exact Hsame)
  end.
  reflexivity.
Qed.

Lemma handleInteraction_unhandled (svc : InteractionService.t St) (i : Interaction) (s : St) :
  isButton i = false \/ handlers svc !! customId i = None ->
  handleInteraction svc i s = Some (Return tt, s, []).
Proof.
  intros [Hno|Hno]; unfold handleInteraction; [now rewrite Hno|].
  destruct (negb (isButton i)); [reflexivity|]. cbv zeta.
  match goal with
  | |- match ?found with _ => _ end _ = _ =>
      replace found with (@None (ButtonClickHandler St)) by (symmetry; exact Hno)
  end.
  reflexivity.
Qed.

End Registry.


(** ** Listening *)

Section Listeners.
Import Listening.

Lemma off_unknown (listener : Function) (listeners : list Function) :
  Forall (fun f => (f < listener)%nat) listeners ->
  off listener listeners = listeners.
Proof.
  induction 1 as [|f rest Hf _ IH]; [reflexivity|]. cbn [off].
  destruct (Nat.eqb_spec f listener) as [->|_]; [lia|]. now rewrite IH.
Qed.

Lemma allocated_listen (svc : Listening.t) : allocated svc -> allocated (listen svc).
Proof.
  unfold allocated, listen. intros Hall.
  destruct (isListening svc); [exact Hall|]. cbn.
  apply Forall_app. split.
  - eapply Forall_impl; [exact Hall|]. cbn. intros f Hf. lia.
  - repeat constructor.
Qed.

Lemma stop_listeners (svc : Listening.t) :
  allocated svc -> eventListeners (stop svc) = eventListeners svc.
Proof.
  unfold allocated, stop. intros Hall.
  destruct (isListening svc); [|reflexivity]. cbn.
  now apply off_unknown.
Qed.

Lemma allocated_stop (svc : Listening.t) : allocated svc -> allocated (stop svc).
Proof.
  intros Hall. pose proof (stop_listeners svc Hall) as Hsame.
  unfold allocated in *. rewrite Hsame.
  unfold stop. destruct (isListening svc); [|exact Hall]. cbn.
  eapply Forall_impl; [exact Hall|]. cbn. intros f Hf. lia.
Qed.

Lemma allocated_calls (cs : list Call) :
  forall svc, allocated svc -> allocated (calls cs svc).
Proof.
  induction cs as [|c cs IH]; intros svc Hall; [exact Hall|].
  cbn. apply IH. destruct c; [now apply allocated_listen|now apply allocated_stop].
Qed.

End Listeners.

(** X9. After any sequence of [listen] and [stop] calls: [stop] leaves the
    client's listeners as they were, because the function it hands to [off] is
    a new [bind] result and not the one [listen] registered; a second [listen]
    in a row adds nothing; and [stop] followed by [listen] leaves one listener
    more than before. *)
Theorem stop_detaches_nothing (cs : list Listening.Call) (svc : Listening.t) :
  svc = Listening.calls cs Listening.new ->
  Listening.eventListeners (Listening.stop svc) = Listening.eventListeners svc
  /\ Listening.listen (Listening.listen svc) = Listening.listen svc
  /\ (Listening.isListening svc = true ->
      length (Listening.eventListeners (Listening.listen (Listening.stop svc)))
      = Datatypes.S (length (Listening.eventListeners svc))).
Proof.
  intros Hreached.
  assert (Hall : allocated svc).
  { subst svc. apply allocated_calls. constructor. }
  split; [now apply stop_listeners|]. split.
  - unfold Listening.listen.
    destruct (Listening.isListening svc) eqn:Hl; [now rewrite Hl|reflexivity].
  - intros Hl. pose proof (stop_listeners svc Hall) as Hsame.
    unfold Listening.listen.
    assert (Hoff : Listening.isListening (Listening.stop svc) = false).
    { unfold Listening.stop. rewrite Hl. reflexivity. }
    rewrite Hoff. cbn. unfold Listening.on. rewrite length_app, Hsame. cbn. lia.
Qed.

(** ** Truncation *)

Section Truncation.
Import TextTruncator.

Lemma string_length_append (s1 s2 : string) :
  String.length (String.append s1 s2) = (String.length s1 + String.length s2)%nat.
Proof. induction s1 as [|a s1 IH]; simpl; [reflexivity|now f_equal]. Qed.

Lemma string_length_substring (n : nat) (s : string) :
  String.length (String.substring 0 n s) = Nat.min n (String.length s).
Proof.
  revert n. induction s as [|a s IH]; intros [|n]; simpl; try reflexivity.
  now f_equal.
Qed.

Lemma prefix_substring (n : nat) (s : string) :
  String.prefix (String.substring 0 n s) s = true.
Proof.
  revert n. induction s as [|a s IH]; intros [|n]; simpl; try reflexivity.
  destruct (Ascii.ascii_dec a a) as [_|Hne]; [apply IH|now destruct Hne].
Qed.

Lemma truthy_text (text : string) :
  truthy_prim (JStr text) = false <-> text = "".
Proof.
  cbn. destruct (String.eqb_spec text ""); cbn; split; congruence.
Qed.

Lemma truncate_fits (text : string) (limit : Z) :
  length text <= limit -> truncate text limit = text.
Proof.
  intros Hfits. unfold truncate.
  destruct (truthy_prim (JStr text)) eqn:Htext; cbn [negb].
  - destruct (Z.leb_spec (length text) limit); [reflexivity|lia].
  - apply truthy_text in Htext. now subst.
Qed.

Lemma truncate_cut (text : string) (limit : Z) :
  limit < length text -> text <> "" ->
  truncate text limit = String.append (substring_to text (limit - 3)) "...".
Proof.
  intros Hlong Hnonempty. unfold truncate.
  destruct (truthy_prim (JStr text)) eqn:Htext; cbn [negb].
  - destruct (Z.leb_spec (length text) limit); [lia|reflexivity].
  - apply truthy_text in Htext. contradiction.
Qed.

Lemma truncate_cut_length (text : string) (limit : Z) :
  limit < length text ->
  length (String.append (substring_to text (limit - 3)) "...") = Z.max limit 3.
Proof.
  intros Hlong. unfold length, substring_to in *.
  rewrite string_length_append, string_length_substring. cbn [String.length]. lia.
Qed.

Lemma truncate_length_max (text : string) (limit : Z) :
  length (truncate text limit) <= Z.max limit 3.
Proof.
  destruct (String.eqb_spec text "") as [->|Hnonempty].
  - change (truncate "" limit) with "". unfold length. cbn [String.length]. lia.
  - destruct (Z.le_gt_cases (length text) limit) as [Hfits|Hlong].
    + rewrite truncate_fits by exact Hfits. lia.
    + rewrite truncate_cut by (lia || assumption).
      rewrite truncate_cut_length by lia. lia.
Qed.

End Truncation.

(** X16. [truncate(text, limit)] is never longer than [max(limit, 3)]:
    within [limit] for every limit of 3 or more, exactly [limit] long when
    the text had to be cut, and the bare ellipsis (3 characters, more than
    the limit) when a non-empty text exceeds a limit below 3. *)
Theorem truncate_length (text : string) (limit : Z) :
  TextTruncator.length (TextTruncator.truncate text limit) <= Z.max limit 3
  /\ (3 <= limit ->
      TextTruncator.length (TextTruncator.truncate text limit) <= limit)
  /\ (3 <= limit -> limit < TextTruncator.length text ->
      TextTruncator.length (TextTruncator.truncate text limit) = limit)
  /\ (limit < 3 -> limit < TextTruncator.length text -> text <> "" ->
      TextTruncator.truncate text limit = "...").
Proof.
  pose proof (truncate_length_max text limit) as Hmax.
  split; [exact Hmax|]. split; [lia|]. split.
  - intros Hthree Hlong.
    assert (Hnonempty : text <> "").
    { intros ->. unfold TextTruncator.length in Hlong. cbn in Hlong. lia. }
    rewrite truncate_cut by assumption. rewrite truncate_cut_length by assumption. lia.
  - intros Hsmall Hlong Hnonempty. rewrite truncate_cut by assumption.
    unfold TextTruncator.substring_to.
    replace (Z.to_nat (limit - 3)) with 0%nat by lia.
    destruct text; reflexivity.
Qed.

(** X17. [truncate] returns a text that fits unchanged, truncating twice
    is truncating once (for a limit of 3 or more), and a cut text is a prefix
    of the original, [limit - 3] characters long, followed by the ellipsis. *)
Theorem truncate_idempotent (text : string) (limit : Z) :
  (TextTruncator.length text <= limit -> TextTruncator.truncate text limit = text)
  /\ (3 <= limit ->
      TextTruncator.truncate (TextTruncator.truncate text limit) limit
      = TextTruncator.truncate text limit)
  /\ (limit < TextTruncator.length text -> text <> "" ->
      exists kept,
        TextTruncator.truncate text limit = String.append kept "..."
        /\ String.prefix kept text = true
        /\ TextTruncator.length kept = Z.max (limit - 3) 0).
Proof.
  split; [apply truncate_fits|]. split.
  - intros Hthree. apply truncate_fits.
    pose proof (truncate_length_max text limit). lia.
  - intros Hlong Hnonempty. exists (TextTruncator.substring_to text (limit - 3)).
    split; [now apply truncate_cut|]. split; [apply prefix_substring|].
    unfold TextTruncator.length, TextTruncator.substring_to in *.
    rewrite string_length_substring. lia.
Qed.

(** X18. The five truncation helpers keep Discord's limits: 256 (title),
    4096 (description), 256 (field name), 1024 (field value) and 2048
    (footer) characters. *)
Theorem truncated_within_discord_limits (text : string) :
  TextTruncator.length (TextTruncator.truncateTitle text) <= 256
  /\ TextTruncator.length (TextTruncator.truncateDescription text) <= 4096
  /\ TextTruncator.length (TextTruncator.truncateFieldName text) <= 256
  /\ TextTruncator.length (TextTruncator.truncateFieldValue text) <= 1024
  /\ TextTruncator.length (TextTruncator.truncateFooter text) <= 2048.
Proof.
  unfold TextTruncator.truncateTitle, TextTruncator.truncateDescription,
    TextTruncator.truncateFieldName, TextTruncator.truncateFieldValue,
    TextTruncator.truncateFooter.
  pose proof (truncate_length_max text 256).
  pose proof (truncate_length_max text 4096).
  pose proof (truncate_length_max text 1024).
  pose proof (truncate_length_max text 2048).
  lia.
Qed.

(** ** Colours *)

Section Colours.
Import ColorConverter.

Lemma hex_digit_range (a : Ascii.ascii) (d : Z) :
  hex_digit a = Some d -> 0 <= d <= 15.
Proof.
  unfold hex_digit. set (n := Z.of_nat (Ascii.nat_of_ascii a)).
  destruct (Z.leb_spec 48 n), (Z.leb_spec n 57); cbn [andb]; try (intros [= <-]; lia);
    destruct (Z.leb_spec 65 n), (Z.leb_spec n 70); cbn [andb]; try (intros [= <-]; lia);
    destruct (Z.leb_spec 97 n), (Z.leb_spec n 102); cbn [andb];
    try (intros [= <-]; lia); discriminate.
Qed.

Lemma parse_range (digits : list Ascii.ascii) :
  forall value,
    0 <= value ->
    forallb (fun a => bool_decide (is_Some (hex_digit a))) digits = true ->
    0 <= fold_left (fun value a => value * 16 + default 0 (hex_digit a)) digits value
      < (value + 1) * 16 ^ Z.of_nat (List.length digits).
Proof.
  induction digits as [|a digits IH]; intros value Hvalue Hall.
  - cbn. lia.
  - cbn [forallb] in Hall. apply andb_prop in Hall as [Ha Hrest].
    apply bool_decide_eq_true in Ha as [d Hd].
    pose proof (hex_digit_range a d Hd) as Hrange.
    cbn [fold_left List.length]. rewrite Hd. change (default 0 (Some d)) with d.
    specialize (IH (value * 16 + d) ltac:(lia) Hrest).
    rewrite Nat2Z.inj_succ, Z.pow_succ_r by lia.
    set (P := 16 ^ Z.of_nat (List.length digits)) in *.
    assert (HP : 0 < P) by (apply Z.pow_pos_nonneg; lia).
    assert (Hstep : (value * 16 + d + 1) * P <= (value + 1) * 16 * P)
      by (apply Z.mul_le_mono_nonneg_r; lia).
    lia.
Qed.

Lemma length_list_ascii_of_string (s : string) :
  List.length (list_ascii_of_string s) = String.length s.
Proof. induction s as [|a s IH]; simpl; [reflexivity|now f_equal]. Qed.

Lemma parseInt16_range (s : string) :
  is_hex6 s = true -> 0 <= parseInt16 s <= 0xffffff.
Proof.
  unfold is_hex6, parseInt16. intros Hhex. apply andb_prop in Hhex as [Hlen Hall].
  apply Nat.eqb_eq in Hlen.
  pose proof (parse_range (list_ascii_of_string s) 0 ltac:(lia) Hall) as Hrange.
  rewrite length_list_ascii_of_string, Hlen in Hrange.
  change (16 ^ Z.of_nat 6) with 16777216 in Hrange. lia.
Qed.

Lemma fromHex_range (s : string) (q : Q) :
  fromHex s = Return q ->
  exists n : Z, q = inject_Z n /\ 0 <= n <= 0xffffff.
Proof.
  unfold fromHex.
  destruct (is_hex6 (if startsWith_hash s then substring_from_1 s else s)) eqn:Hhex;
    cbn [negb]; [|discriminate].
  intros [= <-]. eexists. split; [reflexivity|]. now apply parseInt16_range.
Qed.

Lemma named_range (key : string) (color : Z) :
  named key NAMED_COLORS = Some color -> 0 <= color <= 0xffffff.
Proof.
  unfold NAMED_COLORS. cbn [named].
  repeat (destruct (String.eqb key _); [intros [= <-]; lia|]).
  discriminate.
Qed.

End Colours.

(** X19. What [toDecimal] returns lies between 0 and 16777215, and is an
    integer when the colour was given as a string, whatever [toUpperCase]
    does, with one exception: [NaN] is below nothing and above nothing, so
    [toDecimal(NaN)] returns [NaN]. The two infinities are refused; what
    [toDecimal] throws is a [ValidationError] on the field [color]; and a
    rational within the range is returned as it is, a fraction included. *)
Theorem toDecimal_range
    (toUpperCase : string -> string) (color : ColorConverter.Color) :
  (forall n, ColorConverter.toDecimal toUpperCase color = Return n ->
     (color = ColorConverter.NumberColor ColorConverter.NaN /\ n = ColorConverter.NaN)
     \/ exists q,
          n = ColorConverter.Finite q
          /\ (0 <= q <= 16777215)%Q
          /\ (forall s, color = ColorConverter.StringColor s ->
                exists z : Z, q = inject_Z z /\ 0 <= z <= 16777215))
  /\ (forall e, ColorConverter.toDecimal toUpperCase color = Throw e ->
        e = ValidationError (Some "color"))
  /\ (forall q,
        color = ColorConverter.NumberColor (ColorConverter.Finite q) ->
        (0 <= q <= 16777215)%Q ->
        ColorConverter.toDecimal toUpperCase color = Return (ColorConverter.Finite q))
  /\ (color = ColorConverter.NumberColor ColorConverter.NaN ->
      ColorConverter.toDecimal toUpperCase color = Return ColorConverter.NaN)
  /\ (color = ColorConverter.NumberColor ColorConverter.PlusInfinity
      \/ color = ColorConverter.NumberColor ColorConverter.MinusInfinity ->
      ColorConverter.toDecimal toUpperCase color = Throw (ValidationError (Some "color"))).
Proof.
  assert (Hstring : forall s n,
             ColorConverter.toDecimal toUpperCase (ColorConverter.StringColor s)
             = Return n ->
             exists z : Z, n = ColorConverter.Finite (inject_Z z) /\ 0 <= z <= 16777215).
  { intros s n. cbn [ColorConverter.toDecimal].
    destruct (ColorConverter.startsWith_hash s || ColorConverter.is_hex6 s).
    - destruct (ColorConverter.fromHex s) as [q|e] eqn:Hhex; [|discriminate].
      destruct (fromHex_range s q Hhex) as (z & -> & Hz).
      intros [= <-]. exists z. split; [reflexivity|exact Hz].
    - unfold ColorConverter.fromNamed.
      destruct (ColorConverter.named (toUpperCase s) ColorConverter.NAMED_COLORS)
        as [z|] eqn:Hz; [|discriminate].
      intros [= <-]. exists z. split; [reflexivity|]. exact (named_range _ _ Hz). }
  split; [|split; [|split; [|split]]].
  - intros n Hn. destruct color as [[q| | |]|s|]; try discriminate.
    + right. cbn [ColorConverter.toDecimal ColorConverter.less] in Hn.
      destruct (Qle_bool 0 q) eqn:Hlow; [|discriminate].
      destruct (Qle_bool q 16777215) eqn:Hhigh; [|discriminate].
      injection Hn as <-. apply Qle_bool_iff in Hlow, Hhigh.
      exists q. split; [reflexivity|]. split; [split; assumption|discriminate].
    + left. injection Hn as <-. split; reflexivity.
    + right. destruct (Hstring s n Hn) as (z & -> & Hz). exists (inject_Z z).
      split; [reflexivity|]. split.
      * split; [change 0%Q with (inject_Z 0)|change 16777215%Q with (inject_Z 16777215)];
          rewrite <- Zle_Qle; lia.
      * intros s' _. exists z. split; [reflexivity|exact Hz].
  - intros e He. destruct color as [[q| | |]|s|];
      cbn [ColorConverter.toDecimal ColorConverter.less orb] in He;
      try (injection He as <-; reflexivity); try discriminate.
    + destruct (negb (Qle_bool 0 q) || negb (Qle_bool q 16777215));
        [injection He as <-; reflexivity|discriminate].
    + destruct (ColorConverter.startsWith_hash s || ColorConverter.is_hex6 s).
      * unfold ColorConverter.fromHex in He.
        destruct (negb _); [injection He as <-; reflexivity|discriminate].
      * unfold ColorConverter.fromNamed in He.
        destruct (ColorConverter.named _ _); [discriminate|injection He as <-; reflexivity].
  - intros q -> [Hlow Hhigh]. cbn [ColorConverter.toDecimal ColorConverter.less].
    apply Qle_bool_iff in Hlow, Hhigh. now rewrite Hlow, Hhigh.
  - intros ->. reflexivity.
  - intros [-> | ->]; reflexivity.
Qed.

Section HexSpelling.
Import ColorConverter.

Lemma hex_digit_hex_char (upper : bool) (d : Z) :
  0 <= d <= 15 -> hex_digit (hex_char upper d) = Some d.
Proof.
  intros Hd.
  assert (Hcases : d = 0 \/ d = 1 \/ d = 2 \/ d = 3 \/ d = 4 \/ d = 5 \/ d = 6 \/ d = 7
                   \/ d = 8 \/ d = 9 \/ d = 10 \/ d = 11 \/ d = 12 \/ d = 13 \/ d = 14
                   \/ d = 15) by lia.
  repeat (destruct Hcases as [->|Hcases]; [destruct upper; reflexivity|]).
  subst d. destruct upper; reflexivity.
Qed.

Lemma hex_char_not_hash (upper : bool) (d : Z) :
  0 <= d <= 15 -> Nat.eqb (Ascii.nat_of_ascii (hex_char upper d)) 35 = false.
Proof.
  intros Hd.
  assert (Hcases : d = 0 \/ d = 1 \/ d = 2 \/ d = 3 \/ d = 4 \/ d = 5 \/ d = 6 \/ d = 7
                   \/ d = 8 \/ d = 9 \/ d = 10 \/ d = 11 \/ d = 12 \/ d = 13 \/ d = 14
                   \/ d = 15) by lia.
  repeat (destruct Hcases as [->|Hcases]; [destruct upper; reflexivity|]).
  subst d. destruct upper; reflexivity.
Qed.

Lemma list_ascii_of_string_append (s1 s2 : string) :
  list_ascii_of_string (String.append s1 s2)
  = list_ascii_of_string s1 ++ list_ascii_of_string s2.
Proof. induction s1 as [|a s1 IH]; simpl; [reflexivity|now f_equal]. Qed.

Lemma length_hex (upper : bool) (digits : nat) :
  forall n, String.length (hex upper digits n) = digits.
Proof.
  induction digits as [|digits IH]; intros n; [reflexivity|].
  cbn [hex]. rewrite string_length_append, IH. cbn. lia.
Qed.

Lemma hex_digits (upper : bool) (digits : nat) :
  forall n,
    forallb (fun a => bool_decide (is_Some (hex_digit a)))
      (list_ascii_of_string (hex upper digits n)) = true.
Proof.
  induction digits as [|digits IH]; intros n; [reflexivity|].
  cbn [hex]. rewrite list_ascii_of_string_append, forallb_app, IH.
  cbn [list_ascii_of_string forallb andb].
  rewrite hex_digit_hex_char by (pose proof (Z.mod_pos_bound n 16); lia).
  reflexivity.
Qed.

Lemma parse_hex (upper : bool) (digits : nat) :
  forall n value,
    0 <= n ->
    fold_left (fun value a => value * 16 + default 0 (hex_digit a))
      (list_ascii_of_string (hex upper digits n)) value
    = value * 16 ^ Z.of_nat digits + n mod 16 ^ Z.of_nat digits.
Proof.
  induction digits as [|digits IH]; intros n value Hn.
  - cbn. rewrite Z.mod_1_r. lia.
  - cbn [hex]. rewrite list_ascii_of_string_append, fold_left_app, IH
      by (apply Z.div_pos; lia).
    cbn [list_ascii_of_string fold_left].
    rewrite hex_digit_hex_char by (pose proof (Z.mod_pos_bound n 16); lia).
    change (default 0 (Some (n mod 16))) with (n mod 16).
    rewrite Nat2Z.inj_succ, Z.pow_succ_r by lia.
    assert (HP : 0 < 16 ^ Z.of_nat digits) by (apply Z.pow_pos_nonneg; lia).
    rewrite (Z.rem_mul_r n 16 (16 ^ Z.of_nat digits)) by lia.
    lia.
Qed.

Lemma hex_no_hash (upper : bool) (digits : nat) :
  forall n, startsWith_hash (hex upper (Datatypes.S digits) n) = false.
Proof.
  induction digits as [|digits IH]; intros n.
  - cbn [hex String.append startsWith_hash].
    apply hex_char_not_hash. pose proof (Z.mod_pos_bound n 16). lia.
  - specialize (IH (n / 16)). change (hex upper (Datatypes.S (Datatypes.S digits)) n)
      with (String.append (hex upper (Datatypes.S digits) (n / 16))
              (String (hex_char upper (n mod 16)) EmptyString)).
    destruct (hex upper (Datatypes.S digits) (n / 16)) as [|a rest] eqn:Hs.
    + pose proof (length_hex upper (Datatypes.S digits) (n / 16)) as Hlen.
      rewrite Hs in Hlen. discriminate.
    + exact IH.
Qed.

Lemma fromHex_hex (upper : bool) (n : Z) :
  0 <= n <= 0xffffff -> fromHex (hex upper 6 n) = Return (inject_Z n).
Proof.
  intros Hn. unfold fromHex. rewrite hex_no_hash.
  unfold is_hex6. rewrite length_hex, hex_digits. cbn [Nat.eqb andb negb].
  unfold parseInt16. rewrite parse_hex by lia.
  change (16 ^ Z.of_nat 6) with 16777216. rewrite Z.mod_small by lia.
  reflexivity.
Qed.

End HexSpelling.

(** X20. Every colour from 0 to 16777215, written with six hexadecimal
    digits in upper or lower case, with or without [#], is read back by
    [fromHex] and by [toDecimal], which also returns the number itself
    unchanged. *)
Theorem fromHex_round_trip
    (toUpperCase : string -> string) (upper : bool) (n : Z) :
  0 <= n <= 16777215 ->
  ColorConverter.fromHex (hex upper 6 n) = Return (inject_Z n)
  /\ ColorConverter.fromHex (String.append "#" (hex upper 6 n)) = Return (inject_Z n)
  /\ ColorConverter.toDecimal toUpperCase (ColorConverter.StringColor (hex upper 6 n))
     = Return (ColorConverter.Finite (inject_Z n))
  /\ ColorConverter.toDecimal toUpperCase
       (ColorConverter.StringColor (String.append "#" (hex upper 6 n)))
     = Return (ColorConverter.Finite (inject_Z n))
  /\ ColorConverter.toDecimal toUpperCase
       (ColorConverter.NumberColor (ColorConverter.Finite (inject_Z n)))
     = Return (ColorConverter.Finite (inject_Z n)).
Proof.
  intros Hn. pose proof (fromHex_hex upper n Hn) as Hplain.
  assert (Hhash : ColorConverter.fromHex (String.append "#" (hex upper 6 n))
                  = Return (inject_Z n)).
  { unfold ColorConverter.fromHex in *.
    change (ColorConverter.startsWith_hash (String.append "#" (hex upper 6 n))) with true.
    change (ColorConverter.substring_from_1 (String.append "#" (hex upper 6 n)))
      with (hex upper 6 n).
    rewrite hex_no_hash in Hplain. exact Hplain. }
  assert (Hhex : ColorConverter.is_hex6 (hex upper 6 n) = true).
  { unfold ColorConverter.is_hex6. now rewrite length_hex, hex_digits. }
  split; [exact Hplain|]. split; [exact Hhash|]. split; [|split].
  - cbn [ColorConverter.toDecimal]. rewrite Hhex, orb_true_r, Hplain. reflexivity.
  - cbn [ColorConverter.toDecimal].
    change (ColorConverter.startsWith_hash (String.append "#" (hex upper 6 n))) with true.
    cbn [orb]. rewrite Hhash. reflexivity.
  - cbn [ColorConverter.toDecimal ColorConverter.less].
    assert (Hlow : Qle_bool 0 (inject_Z n) = true).
    { apply Qle_bool_iff. change 0%Q with (inject_Z 0). rewrite <- Zle_Qle. lia. }
    assert (Hhigh : Qle_bool (inject_Z n) 16777215 = true).
    { apply Qle_bool_iff. change 16777215%Q with (inject_Z 16777215).
      rewrite <- Zle_Qle. lia. }
    now rewrite Hlow, Hhigh.
Qed.

(** ** Messages *)

Section Wrapping.

Lemma PermissionError_fatal (h : RetryHandler.t) (message : string)
    (requiredPermission channelId : option string) :
  isRetryableError h (PermissionError message requiredPermission channelId) = false
  /\ RateLimitService.isRateLimitError
       (PermissionError message requiredPermission channelId) = false.
Proof.
  split; destruct requiredPermission, channelId; vm_compute; reflexivity.
Qed.

Lemma ChannelNotFoundError_fatal (h : RetryHandler.t) (channelId : string) :
  isRetryableError h (ChannelNotFoundError channelId) = false
  /\ RateLimitService.isRateLimitError (ChannelNotFoundError channelId) = false.
Proof. split; vm_compute; reflexivity. Qed.

Lemma TypeError_fatal (h : RetryHandler.t) :
  isRetryableError h TypeError = false
  /\ RateLimitService.isRateLimitError TypeError = false.
Proof. split; vm_compute; reflexivity. Qed.

Lemma wrapError_passes (channelId : string) (error : Value) :
  nullish error = false ->
  MessageService.has_status error 403 = false ->
  MessageService.has_status error 404 = false ->
  MessageService.wrapError error channelId = Some (Return error).
Proof.
  intros Hvalue H403 H404. unfold MessageService.wrapError.
  now rewrite Hvalue, H403, H404.
Qed.

End Wrapping.

Lemma wrapError_fatal (h : RetryHandler.t) (error : Value) (channelId : string)
    (r : Completion Value) :
  MessageService.wrapError error channelId = Some r ->
  nullish error = true
  \/ MessageService.has_status error 403 = true
  \/ MessageService.has_status error 404 = true ->
  isRetryableError h (reported r) = false
  /\ RateLimitService.isRateLimitError (reported r) = false.
Proof.
  unfold MessageService.wrapError. intros Hr Hsignal.
  destruct (nullish error).
  { injection Hr as <-. apply TypeError_fatal. }
  destruct (MessageService.has_status error 403).
  { destruct (member "message" error) as [| |b|n|message|]; cbn [truthy_prim] in Hr;
      try (injection Hr as <-; apply PermissionError_fatal).
    - destruct b; [discriminate|injection Hr as <-; apply PermissionError_fatal].
    - destruct (negb (Qeq_bool n 0)); [discriminate|].
      injection Hr as <-; apply PermissionError_fatal.
    - discriminate. }
  destruct (MessageService.has_status error 404).
  { injection Hr as <-. apply ChannelNotFoundError_fatal. }
  destruct Hsignal as [Hs|[Hs|Hs]]; discriminate.
Qed.

(** X7. [wrapError] either returns the failure itself (when it is neither
    nullish nor carries 403 or 404 in [status], [statusCode] or [code]), or
    produces an error that no retry handler retries, whatever its
    [retryableCodes], and that the rate limiter does not take for a 429: a
    [TypeError] for [null] and [undefined], a [PermissionError] for 403 (also
    when 404 is there too), a [ChannelNotFoundError] for 404. *)
Theorem wrapError_verdict
    (h : RetryHandler.t) (error : Value) (channelId : string) (r : Completion Value) :
  MessageService.wrapError error channelId = Some r ->
  (r = Return error
   /\ nullish error = false
   /\ MessageService.has_status error 403 = false
   /\ MessageService.has_status error 404 = false)
  \/ (isRetryableError h (reported r) = false
      /\ RateLimitService.isRateLimitError (reported r) = false
      /\ (nullish error = true
          /\ r = Throw TypeError
          \/ nullish error = false
             /\ MessageService.has_status error 403 = true
             /\ (exists message, r = Return (PermissionError message None (Some channelId)))
          \/ nullish error = false
             /\ MessageService.has_status error 403 = false
             /\ MessageService.has_status error 404 = true
             /\ r = Return (ChannelNotFoundError channelId))).
Proof.
  unfold MessageService.wrapError.
  destruct (nullish error) eqn:Hvalue.
  { intros [= <-]. right. cbn [reported].
    destruct (TypeError_fatal h) as [Hretry Hrate]. auto 10. }
  destruct (MessageService.has_status error 403) eqn:H403.
  { intros Hr. right.
    assert (Hwrapped : exists message,
               r = Return (PermissionError message None (Some channelId))).
    { destruct (member "message" error) as [| |b|n|s|]; cbn [truthy_prim] in Hr;
        try (injection Hr as <-; eexists; reflexivity).
      - destruct b; [discriminate|injection Hr as <-; eexists; reflexivity].
      - destruct (negb (Qeq_bool n 0)); [discriminate|].
        injection Hr as <-; eexists; reflexivity.
      - discriminate. }
    destruct Hwrapped as [message ->]. cbn [reported].
    destruct (PermissionError_fatal h message None (Some channelId)) as [Hretry Hrate].
    split; [exact Hretry|]. split; [exact Hrate|]. right. left. eauto. }
  destruct (MessageService.has_status error 404) eqn:H404.
  { intros [= <-]. right. cbn [reported].
    destruct (ChannelNotFoundError_fatal h channelId) as [Hretry Hrate].
    split; [exact Hretry|]. split; [exact Hrate|]. right. right. auto. }
  intros [= <-]. left. auto.
Qed.

Section Requests.
Context {W C : Type} `{Runtime W} `{MessageService.DiscordClient W C} {T : Type}.
Import MessageService.

Lemma guarded_eq (channelId : string) (body : Async W T) (s : RateLimitService.State W) :
  guarded channelId body s =
  match body (RateLimitService.world s) with
  | None => None
  | Some (Return a, w, trace) =>
      Some (Return a, {| RateLimitService.world := w;
                         RateLimitService.service := RateLimitService.service s |}, trace)
  | Some (Throw e, w, trace) =>
      match wrapError e channelId with
      | None => None
      | Some r =>
          Some (Throw (reported r),
                {| RateLimitService.world := w;
                   RateLimitService.service := RateLimitService.service s |},
                trace ++ [])
      end
  end.
Proof.
  unfold guarded, try_catch, on_client.
  destruct (body (RateLimitService.world s)) as [[[[a|e] w] trace]|]; try reflexivity.
  destruct (wrapError e channelId) as [[wrapped|raised]|]; reflexivity.
Qed.

(** A failure that the guard reports as an error nobody retries ends the
    request after one invocation, with the rate limiter as [acquireToken]
    left it. *)
Lemma request_fails_once (svc : MessageService.t) (fuel : nat) (channelId : string)
    (deliver : C -> Async W T) (s s1 : RateLimitService.State W) t1 e w2 t2 r :
  0 <= maxRetries (retryHandler svc) ->
  RateLimitService.acquireToken fuel channelId s = Some (Return tt, s1, t1) ->
  (let! channel := getChannel channelId in deliver channel) (RateLimitService.world s1)
  = Some (Throw e, w2, t2) ->
  wrapError e channelId = Some r ->
  isRetryableError (retryHandler svc) (reported r) = false ->
  RateLimitService.isRateLimitError (reported r) = false ->
  request svc fuel channelId deliver s
  = Some (Throw (reported r),
          {| RateLimitService.world := w2;
             RateLimitService.service := RateLimitService.service s1 |},
          [EvCall (Some (reported r)) (t1 ++ t2)]).
Proof.
  intros Hmax Hacquire Hbody Hwrap Hretry Hrate.
  unfold request. apply execute_complete; [exact Hmax|].
  assert (Hop : RateLimitService.executeWithRateLimit fuel channelId
                  (guarded channelId
                     (let! channel := getChannel channelId in deliver channel)) s
                = Some (Throw (reported r),
                        {| RateLimitService.world := w2;
                           RateLimitService.service := RateLimitService.service s1 |},
                        t1 ++ t2)).
  { erewrite executeWithRateLimit_failure; [|exact Hacquire|].
    - rewrite Hrate. reflexivity.
    - rewrite guarded_eq, Hbody, Hwrap, app_nil_r. reflexivity. }
  apply attempt_rethrows; [exact Hop|].
  left. rewrite <- isRetryableError_classify. exact Hretry.
Qed.

Lemma getChannel_eq (channelId : string) (w : W) :
  getChannel channelId w =
  match channels_fetch channelId w with
  | None => None
  | Some (Throw e, w1, t1) => Some (Throw e, w1, t1)
  | Some (Return None, w1, t1) =>
      Some (Throw (ChannelNotFoundError channelId), w1, t1 ++ [])
  | Some (Return (Some channel), w1, t1) =>
      if isTextBased channel then Some (Return channel, w1, t1 ++ [])
      else Some (Throw (PermissionError
                          (String.append "Channel "
                             (String.append channelId " is not a text channel"))
                          None (Some channelId)), w1, t1 ++ [])
  end.
Proof.
  unfold getChannel, bind.
  destruct (channels_fetch channelId w) as [[[[[channel|]|e] w1] t1]|]; try reflexivity.
  destruct (isTextBased channel); reflexivity.
Qed.

End Requests.

(** X6. A request ([sendMessage], [updateMessage], [removeMessage]) that
    got its tokens fails after exactly one invocation, with no backoff and
    with the rate limiter as [acquireToken] left it, when the channel is
    missing ([ChannelNotFoundError]), when it is no text channel
    ([PermissionError]), or when using it fails with a nullish value or with
    403 or 404; in the last case what is thrown is what [wrapError] makes of
    the failure. *)
Theorem request_fails_without_retry
    {W C : Type} `{Runtime W} `{MessageService.DiscordClient W C} {T : Type}
    (svc : MessageService.t) (fuel : nat) (channelId : string)
    (deliver : C -> Async W T) (s s1 : RateLimitService.State W) t1 :
  0 <= maxRetries (MessageService.retryHandler svc) ->
  RateLimitService.acquireToken fuel channelId s = Some (Return tt, s1, t1) ->
  (forall w2 t2,
      MessageService.channels_fetch channelId (RateLimitService.world s1)
      = Some (Return None, w2, t2) ->
      MessageService.request svc fuel channelId deliver s
      = Some (Throw (ChannelNotFoundError channelId),
              {| RateLimitService.world := w2;
                 RateLimitService.service := RateLimitService.service s1 |},
              [EvCall (Some (ChannelNotFoundError channelId)) (t1 ++ t2)]))
  /\ (forall channel w2 t2,
        MessageService.channels_fetch channelId (RateLimitService.world s1)
        = Some (Return (Some channel), w2, t2) ->
        MessageService.isTextBased channel = false ->
        MessageService.request svc fuel channelId deliver s
        = Some (Throw (PermissionError
                         (String.append "Channel "
                            (String.append channelId " is not a text channel"))
                         None (Some channelId)),
                {| RateLimitService.world := w2;
                   RateLimitService.service := RateLimitService.service s1 |},
                [EvCall (Some (PermissionError
                                 (String.append "Channel "
                                    (String.append channelId " is not a text channel"))
                                 None (Some channelId))) (t1 ++ t2)]))
  /\ (forall channel w2 t2 e w3 t3 r,
        MessageService.channels_fetch channelId (RateLimitService.world s1)
        = Some (Return (Some channel), w2, t2) ->
        MessageService.isTextBased channel = true ->
        deliver channel w2 = Some (Throw e, w3, t3) ->
        MessageService.wrapError e channelId = Some r ->
        nullish e = true
        \/ MessageService.has_status e 403 = true
        \/ MessageService.has_status e 404 = true ->
        MessageService.request svc fuel channelId deliver s
        = Some (Throw (reported r),
                {| RateLimitService.world := w3;
                   RateLimitService.service := RateLimitService.service s1 |},
                [EvCall (Some (reported r)) (t1 ++ t2 ++ t3)])).
Proof.
  intros Hmax Hacquire.
  split; [|split].
  - intros w2 t2 Hfetch.
    apply (request_fails_once svc fuel channelId deliver s s1 t1
             (ChannelNotFoundError channelId) w2 t2
             (Return (ChannelNotFoundError channelId)) Hmax Hacquire).
    + unfold bind. rewrite getChannel_eq, Hfetch, app_nil_r. reflexivity.
    + vm_compute. reflexivity.
    + apply (ChannelNotFoundError_fatal (MessageService.retryHandler svc)).
    + apply (ChannelNotFoundError_fatal (MessageService.retryHandler svc)).
  - intros channel w2 t2 Hfetch Hvoice.
    apply (request_fails_once svc fuel channelId deliver s s1 t1
             (PermissionError
                (String.append "Channel "
                   (String.append channelId " is not a text channel"))
                None (Some channelId)) w2 t2
             (Return (PermissionError
                        (String.append "Channel "
                           (String.append channelId " is not a text channel"))
                        None (Some channelId))) Hmax Hacquire).
    + unfold bind. rewrite getChannel_eq, Hfetch, Hvoice, app_nil_r. reflexivity.
    + vm_compute. reflexivity.
    + apply (PermissionError_fatal (MessageService.retryHandler svc)).
    + apply (PermissionError_fatal (MessageService.retryHandler svc)).
  - intros channel w2 t2 e w3 t3 r Hfetch Htext Hdeliver Hwrap Hsignal.
    destruct (wrapError_fatal (MessageService.retryHandler svc) e channelId r Hwrap Hsignal)
      as [Hretry Hrate].
    apply (request_fails_once svc fuel channelId deliver s s1 t1 e w3 (t2 ++ t3) r
             Hmax Hacquire); try assumption.
    unfold bind. rewrite getChannel_eq, Hfetch, Htext, Hdeliver, app_nil_r. reflexivity.
Qed.

(** X21. A failure that signals 429 and carries neither 403 nor 404 passes
    the guard of a request unchanged, so the rate limiter sees it: the
    attempt throws a [RateLimitError] with the failure's cooldown and the
    channel, which every retry handler retries whatever its [retryableCodes],
    and the channel's bucket is left cooling until the cooldown has passed. *)
Theorem rate_limit_passes_the_guard
    {W : Type} `{Runtime W} {T : Type}
    (fuel : nat) (channelId : string) (body : Async W T)
    (s s1 : RateLimitService.State W) t1 e w2 t2 :
  RateLimitService.acquireToken fuel channelId s = Some (Return tt, s1, t1) ->
  body (RateLimitService.world s1) = Some (Throw e, w2, t2) ->
  signals_429 e ->
  MessageService.has_status e 403 = false ->
  MessageService.has_status e 404 = false ->
  numeric_cooldown_fields e ->
  RateLimitService.executeWithRateLimit fuel channelId
    (MessageService.guarded channelId body) s
  = Some (Throw (RateLimitError (cooldown e) (Some channelId)),
          {| RateLimitService.world := w2;
             RateLimitService.service :=
               RateLimitService.handleRateLimit (Date_now w2) channelId (cooldown e)
                 (RateLimitService.service s1) |},
          t1 ++ t2)
  /\ (forall h, isRetryableError h (RateLimitError (cooldown e) (Some channelId)) = true)
  /\ cooling_channel (Date_now w2 + cooldown e) channelId
       (RateLimitService.handleRateLimit (Date_now w2) channelId (cooldown e)
          (RateLimitService.service s1)).
Proof.
  intros Hacquire Hbody Hsignal H403 H404 Hnumeric.
  assert (Hvalue : nullish e = false).
  { destruct Hsignal as (key & n & _ & Hfield & _).
    destruct e as [p|o]; [discriminate|reflexivity]. }
  split; [|split; [reflexivity|apply cooling_handleRateLimit]].
  assert (Hguarded : MessageService.guarded channelId body s1
                     = Some (Throw e,
                             {| RateLimitService.world := w2;
                                RateLimitService.service := RateLimitService.service s1 |},
                             t2)).
  { rewrite guarded_eq, Hbody, (wrapError_passes channelId e Hvalue H403 H404), app_nil_r.
    reflexivity. }
  rewrite (executeWithRateLimit_failure fuel channelId _ s s1 _ t1 t2 e Hacquire Hguarded).
  apply isRateLimitError_signals_429 in Hsignal. rewrite Hsignal.
  rewrite (extractRetryAfter_cooldown e Hnumeric). reflexivity.
Qed.

(** ** Posting errors *)

Section PostError.
Context {St MessageOptions Message : Type}.
Variable sendMessage : string -> MessageOptions -> Async St Message.
Variable errorEmbed : Async St MessageOptions.
Variable options : DiscordNotifier.ClientOptions.
Import DiscordNotifier.

Lemma postError_eq (s : St) :
  postError sendMessage errorEmbed options s =
  match errorEmbed s with
  | None => None
  | Some (Throw e, s0, t0) => Some (Throw e, s0, t0)
  | Some (Return messageOptions, s0, t0) =>
      let primary s1 t1 :=
        match sendMessage (channelId options) messageOptions s1 with
        | None => None
        | Some (Return message, s2, t2) => Some (Return (Some message), s2, t0 ++ t1 ++ t2)
        | Some (Throw _, s2, t2) => Some (Return None, s2, t0 ++ t1 ++ t2)
        end in
      match errorChannelId options with
      | Some target =>
          if String.eqb target "" then primary s0 []
          else
            match sendMessage target messageOptions s0 with
            | None => None
            | Some (Return message, s1, t1) => Some (Return (Some message), s1, t0 ++ t1)
            | Some (Throw _, s1, t1) => primary s1 t1
            end
      | None => primary s0 []
      end
  end.
Proof.
  unfold postError, postMessage, bind, try_catch, ret.
  destruct (errorEmbed s) as [[[[messageOptions|e] s0] t0]|]; try reflexivity.
  cbv zeta.
  destruct (errorChannelId options) as [target|];
    cbn [from_option truthy_prim]; unfold default, from_option, id.
  - destruct (String.eqb target ""); cbn [negb].
    + destruct (sendMessage (channelId options) messageOptions s0)
        as [[[[message|e] s2] t2]|]; cbn [app]; rewrite ?app_nil_r; reflexivity.
    + destruct (sendMessage target messageOptions s0)
        as [[[[message|e] s1] t1]|]; cbn [app]; rewrite ?app_nil_r; try reflexivity.
      destruct (sendMessage (channelId options) messageOptions s1)
        as [[[[message|e'] s2] t2]|]; cbn [app]; rewrite ?app_nil_r; reflexivity.
  - destruct (sendMessage (channelId options) messageOptions s0)
      as [[[[message|e] s2] t2]|]; cbn [app]; rewrite ?app_nil_r; reflexivity.
Qed.

End PostError.

(** X8. Once the embed is built, [postError] never throws. With a non-empty
    [errorChannelId] it posts there first and returns that message; if that
    fails, or without such a channel, it posts to the primary channel from
    the state the failed attempt left, and returns the message or [undefined]
    when that fails too. *)
Theorem postError_never_throws
    {St MessageOptions Message : Type}
    (sendMessage : string -> MessageOptions -> Async St Message)
    (errorEmbed : Async St MessageOptions)
    (options : DiscordNotifier.ClientOptions)
    (s : St) (messageOptions : MessageOptions) (s0 : St) (t0 : list Event) :
  errorEmbed s = Some (Return messageOptions, s0, t0) ->
  (forall r s' trace,
      DiscordNotifier.postError sendMessage errorEmbed options s = Some (r, s', trace) ->
      exists posted, r = Return posted)
  /\ (forall target message s1 t1,
        DiscordNotifier.errorChannelId options = Some target -> target <> "" ->
        sendMessage target messageOptions s0 = Some (Return message, s1, t1) ->
        DiscordNotifier.postError sendMessage errorEmbed options s
        = Some (Return (Some message), s1, t0 ++ t1))
  /\ (forall target e s1 t1 r s2 t2,
        DiscordNotifier.errorChannelId options = Some target -> target <> "" ->
        sendMessage target messageOptions s0 = Some (Throw e, s1, t1) ->
        sendMessage (DiscordNotifier.channelId options) messageOptions s1
        = Some (r, s2, t2) ->
        DiscordNotifier.postError sendMessage errorEmbed options s
        = Some (Return (delivered r), s2, t0 ++ t1 ++ t2))
  /\ (forall r s2 t2,
        DiscordNotifier.errorChannelId options = None
        \/ DiscordNotifier.errorChannelId options = Some "" ->
        sendMessage (DiscordNotifier.channelId options) messageOptions s0
        = Some (r, s2, t2) ->
        DiscordNotifier.postError sendMessage errorEmbed options s
        = Some (Return (delivered r), s2, t0 ++ t2)).
Proof.
  intros Hembed.
  pose proof (postError_eq sendMessage errorEmbed options s) as Heq.
  rewrite Hembed in Heq. cbv zeta in Heq.
  split; [|split; [|split]].
  - intros r s' trace. rewrite Heq.
    destruct (DiscordNotifier.errorChannelId options) as [target|].
    + destruct (String.eqb target "").
      * destruct (sendMessage (DiscordNotifier.channelId options) messageOptions s0)
          as [[[[message|e] s2] t2]|]; intros [= <- _ _]; eauto.
      * destruct (sendMessage target messageOptions s0) as [[[[message|e] s1] t1]|];
          [intros [= <- _ _]; eauto| |discriminate].
        destruct (sendMessage (DiscordNotifier.channelId options) messageOptions s1)
          as [[[[message|e'] s2] t2]|]; intros [= <- _ _]; eauto.
    + destruct (sendMessage (DiscordNotifier.channelId options) messageOptions s0)
        as [[[[message|e] s2] t2]|]; intros [= <- _ _]; eauto.
  - intros target message s1 t1 Htarget Hnonempty Hsent. rewrite Heq, Htarget.
    destruct (String.eqb_spec target ""); [contradiction|]. now rewrite Hsent.
  - intros target e s1 t1 r s2 t2 Htarget Hnonempty Hfailed Hprimary.
    rewrite Heq, Htarget.
    destruct (String.eqb_spec target ""); [contradiction|].
    rewrite Hfailed, Hprimary. destruct r; reflexivity.
  - intros r s2 t2 Hnone Hprimary. rewrite Heq.
    destruct Hnone as [-> | ->]; cbn [String.eqb]; rewrite Hprimary;
      destruct r; reflexivity.
Qed.

(** ** Requests settle *)

Section MoreFuel.
Context {W : Type} `{Runtime W}.
Import RateLimitService.

(** Fuel is a bound only: a run that settles is the same with more. *)
Lemma acquireFromBucket_more_fuel (ref : BucketRef) (fuel : nat) :
  forall (s : State W) run fuel',
    acquireFromBucket fuel ref s = Some run ->
    (fuel <= fuel')%nat ->
    acquireFromBucket fuel' ref s = Some run.
Proof.
  induction fuel as [|fuel IH]; intros s run fuel' Hrun Hle; [discriminate|].
  destruct fuel' as [|fuel']; [lia|].
  rewrite acquireFromBucket_eq in *.
  destruct (deref ref (service s)) as [b|]; [|discriminate].
  destruct (acquireFromBucket_pass (Date_now s) b) as [b' [waitTime|]]; [|exact Hrun].
  destruct (acquireFromBucket fuel ref _) as [[[r s2] t2]|] eqn:Hinner; [|discriminate].
  rewrite (IH _ _ fuel' Hinner ltac:(lia)). exact Hrun.
Qed.

Lemma acquireToken_more_fuel (c : string) (fuel fuel' : nat) (s : State W) run :
  acquireToken fuel c s = Some run ->
  (fuel <= fuel')%nat ->
  acquireToken fuel' c s = Some run.
Proof.
  intros Hrun Hle. rewrite acquireToken_eq in *.
  destruct (acquireFromBucket fuel GlobalRef s) as [[[r1 s1] t1]|] eqn:Hglobal;
    [|discriminate].
  rewrite (acquireFromBucket_more_fuel _ _ _ _ fuel' Hglobal Hle).
  destruct r1 as [[]|e]; [|exact Hrun].
  destruct (acquireFromBucket fuel (ChannelRef c) _) as [[[r2 s2] t2]|] eqn:Hchannel;
    [|discriminate].
  rewrite (acquireFromBucket_more_fuel _ _ _ _ fuel' Hchannel Hle). exact Hrun.
Qed.

Lemma executeWithRateLimit_more_fuel {T} (c : string) (operation : Async (State W) T)
    (fuel fuel' : nat) (s : State W) run :
  executeWithRateLimit fuel c operation s = Some run ->
  (fuel <= fuel')%nat ->
  executeWithRateLimit fuel' c operation s = Some run.
Proof.
  unfold executeWithRateLimit, bind. intros Hrun Hle.
  destruct (acquireToken fuel c s) as [[[r1 s1] t1]|] eqn:Hacquire; [|discriminate].
  rewrite (acquireToken_more_fuel c fuel fuel' s _ Hacquire Hle). exact Hrun.
Qed.

Lemma acquireToken_well_formed (fuel : nat) (c : string) (s : State W) r s' trace :
  well_formed (service s) ->
  acquireToken fuel c s = Some (r, s', trace) ->
  r = Return tt /\ well_formed (service s').
Proof.
  intros Hwf Hrun.
  destruct (acquireToken_sound fuel c s r s' trace Hwf Hrun)
    as [-> (s1 & t1 & t2 & Hglobal & Hchannel & _)].
  split; [reflexivity|].
  apply (acquisition_well_formed _ _ _ _ _ _ Hchannel).
  unfold update. cbn [service]. rewrite with_channel_eq.
  apply well_formed_getOrCreateChannelBucket.
  exact (acquisition_well_formed _ _ _ _ _ _ Hglobal Hwf).
Qed.

End MoreFuel.

Section WrappedFailures.

Lemma numeric_cooldown_fields_PermissionError (message : string) (channelId : string) :
  numeric_cooldown_fields (PermissionError message None (Some channelId)).
Proof. intros key [-> | ->]; vm_compute; discriminate. Qed.

Lemma numeric_cooldown_fields_ChannelNotFoundError (channelId : string) :
  numeric_cooldown_fields (ChannelNotFoundError channelId).
Proof. intros key [-> | ->]; vm_compute; discriminate. Qed.

Lemma numeric_cooldown_fields_TypeError : numeric_cooldown_fields TypeError.
Proof. intros key [-> | ->]; vm_compute; discriminate. Qed.

Lemma wrapError_defined (error : Value) (channelId : string) :
  plain_failure error ->
  exists r,
    MessageService.wrapError error channelId = Some r
    /\ numeric_cooldown_fields (reported r).
Proof.
  intros [Hmessage Hcooldown]. unfold MessageService.wrapError.
  destruct (nullish error).
  { eexists. split; [reflexivity|]. apply numeric_cooldown_fields_TypeError. }
  destruct (MessageService.has_status error 403).
  { destruct (member "message" error) as [| |b|n|message|] eqn:Hm;
      cbn [truthy_prim] in *;
      try (eexists; split; [reflexivity|];
           apply numeric_cooldown_fields_PermissionError).
    - destruct b.
      + destruct (Hmessage eq_refl) as [m Hm']. discriminate.
      + eexists. split; [reflexivity|]. apply numeric_cooldown_fields_PermissionError.
    - destruct (negb (Qeq_bool n 0)).
      + destruct (Hmessage eq_refl) as [m Hm']. discriminate.
      + eexists. split; [reflexivity|]. apply numeric_cooldown_fields_PermissionError.
    - destruct (Hmessage eq_refl) as [m Hm']. discriminate. }
  destruct (MessageService.has_status error 404).
  { eexists. split; [reflexivity|]. apply numeric_cooldown_fields_ChannelNotFoundError. }
  eexists. split; [reflexivity|exact Hcooldown].
Qed.

Lemma plain_failure_ChannelNotFoundError (channelId : string) :
  plain_failure (ChannelNotFoundError channelId).
Proof.
  split; [|apply numeric_cooldown_fields_ChannelNotFoundError].
  intros _. eexists. vm_compute. reflexivity.
Qed.

Lemma plain_failure_PermissionError (message channelId : string) :
  plain_failure (PermissionError message None (Some channelId)).
Proof.
  split; [|apply numeric_cooldown_fields_PermissionError].
  intros _. eexists. vm_compute. reflexivity.
Qed.

End WrappedFailures.

Section RequestLiveness.
Context {W C : Type} `{Runtime W} `{MessageService.DiscordClient W C} {T : Type}.
Import RateLimitService MessageService.

Hypothesis timers_on_time :
  forall (ms : Q) (w : W), (Date_now w + ms <= Date_now (wake ms w))%Q.

Variable svc : MessageService.t.
Variable channelId : string.
Variable deliver : C -> Async W T.

Hypothesis fetch_settles : forall w, channels_fetch channelId w <> None.
Hypothesis deliver_settles : forall channel w, deliver channel w <> None.
Hypothesis fetch_fails_plainly :
  forall w e w' trace,
    channels_fetch channelId w = Some (Throw e, w', trace) -> plain_failure e.
Hypothesis deliver_fails_plainly :
  forall channel w e w' trace,
    deliver channel w = Some (Throw e, w', trace) -> plain_failure e.

Let body : Async W T := let! channel := getChannel channelId in deliver channel.

Lemma body_settles (w : W) :
  exists r w' trace,
    body w = Some (r, w', trace)
    /\ forall e, r = Throw e -> plain_failure e.
Proof.
  unfold body, bind. rewrite getChannel_eq.
  pose proof (fetch_settles w) as Hfetch.
  pose proof (fetch_fails_plainly w) as Hplain.
  destruct (channels_fetch channelId w) as [[[[[channel|]|e] w1] t1]|];
    [| | |contradiction].
  - destruct (isTextBased channel).
    + pose proof (deliver_settles channel w1) as Hdeliver.
      pose proof (deliver_fails_plainly channel w1) as Hplain'.
      destruct (deliver channel w1) as [[[r w2] t2]|]; [|contradiction].
      eexists _, _, _. split; [reflexivity|].
      intros e ->. eapply Hplain'. reflexivity.
    + eexists _, _, _. split; [reflexivity|].
      intros e [= <-]. apply plain_failure_PermissionError.
  - eexists _, _, _. split; [reflexivity|].
    intros e [= <-]. apply plain_failure_ChannelNotFoundError.
  - eexists _, _, _. split; [reflexivity|].
    intros e' [= <-]. eapply Hplain. reflexivity.
Qed.

(** One rate-limited attempt settles and leaves a well-formed service. *)
Lemma attempt_settles (s : State W) :
  well_formed (service s) ->
  exists fuel r s' trace,
    executeWithRateLimit fuel channelId (guarded channelId body) s = Some (r, s', trace)
    /\ well_formed (service s').
Proof.
  intros Hwf.
  destruct (acquireToken_settles timers_on_time channelId s Hwf)
    as (fuel & s1 & t1 & Hacquire).
  destruct (acquireToken_well_formed fuel channelId s _ _ _ Hwf Hacquire) as [_ Hwf1].
  destruct (body_settles (world s1)) as (r & w2 & t2 & Hbody & Hplain).
  exists fuel.
  destruct r as [a|e].
  - eexists _, _, _. split.
    + unfold executeWithRateLimit, bind, try_catch. rewrite Hacquire, guarded_eq, Hbody.
      reflexivity.
    + exact Hwf1.
  - destruct (wrapError_defined e channelId (Hplain e eq_refl)) as (r & Hwrap & Hnumeric).
    assert (Hguarded : guarded channelId body s1
                       = Some (Throw (reported r),
                               {| world := w2; service := service s1 |}, t2)).
    { rewrite guarded_eq, Hbody, Hwrap, app_nil_r. reflexivity. }
    rewrite (executeWithRateLimit_failure fuel channelId _ s s1 _ t1 t2 _
               Hacquire Hguarded).
    destruct (isRateLimitError (reported r)).
    + rewrite (extractRetryAfter_cooldown _ Hnumeric).
      eexists _, _, _. split; [reflexivity|].
      cbn [update service]. now apply well_formed_handleRateLimit.
    + eexists _, _, _. split; [reflexivity|exact Hwf1].
Qed.

Let h : RetryHandler.t := retryHandler svc.
Let operation (fuel : nat) : Async (State W) T :=
  executeWithRateLimit fuel channelId (guarded channelId body).

Lemma execute_from_more_fuel (n : nat) :
  forall attempt lastError (s : State W) run fuel fuel',
    execute_from h (operation fuel) n attempt lastError s = Some run ->
    (fuel <= fuel')%nat ->
    execute_from h (operation fuel') n attempt lastError s = Some run.
Proof.
  induction n as [|n IH]; intros attempt lastError s run fuel fuel' Hrun Hle.
  - cbn [execute_from] in *. destruct (attempt <=? maxRetries h); [discriminate|exact Hrun].
  - destruct (Z.leb_spec attempt (maxRetries h)) as [Hin|Hout].
    + rewrite execute_from_eq in * by exact Hin.
      rewrite execute_body_eq in *.
      destruct (operation fuel s) as [[[r1 s1] t1]|] eqn:Hop; [|discriminate].
      pose proof (executeWithRateLimit_more_fuel channelId (guarded channelId body)
                    fuel fuel' s _ Hop Hle) as Hop'.
      change (operation fuel' s = Some (r1, s1, t1)) in Hop'. rewrite Hop'.
      destruct r1 as [a|e]; [exact Hrun|].
      destruct (negb _ || _); [exact Hrun|].
      destruct (execute_from h (operation fuel) n (attempt + 1) e _)
        as [[[r2 s2] t2]|] eqn:Hrest; [|discriminate].
      rewrite (IH _ _ _ _ fuel fuel' Hrest Hle). exact Hrun.
    + cbn [execute_from] in *.
      destruct (Z.leb_spec attempt (maxRetries h)); [lia|exact Hrun].
Qed.

Lemma execute_from_settles (n : nat) :
  forall attempt lastError (s : State W),
    0 <= attempt ->
    maxRetries h - attempt = Z.of_nat n ->
    well_formed (service s) ->
    exists fuel r s' trace,
      execute_from h (operation fuel) (Datatypes.S n) attempt lastError s
      = Some (r, s', trace)
      /\ well_formed (service s').
Proof.
  induction n as [|n IH]; intros attempt lastError s Hattempt Hleft Hwf;
    destruct (attempt_settles s Hwf) as (fuel1 & r1 & s1 & t1 & Hop & Hwf1).
  - exists fuel1. rewrite execute_from_eq by lia. rewrite execute_body_eq.
    fold (operation fuel1) in Hop. rewrite Hop.
    destruct r1 as [a|e]; [eexists _, _, _; split; [reflexivity|exact Hwf1]|].
    replace (attempt =? maxRetries h) with true by (symmetry; apply Z.eqb_eq; lia).
    rewrite orb_true_r. eexists _, _, _. split; [reflexivity|exact Hwf1].
  - destruct r1 as [a|e].
    + exists fuel1. rewrite execute_from_eq by lia. rewrite execute_body_eq.
      fold (operation fuel1) in Hop. rewrite Hop.
      eexists _, _, _. split; [reflexivity|exact Hwf1].
    + destruct (negb (retryable (classify (retryableCodes h) e))
                || (attempt =? maxRetries h)) eqn:Hstop.
      * exists fuel1. rewrite execute_from_eq by lia. rewrite execute_body_eq.
        fold (operation fuel1) in Hop. rewrite Hop, Hstop.
        eexists _, _, _. split; [reflexivity|exact Hwf1].
      * destruct (IH (attempt + 1) e (wake (calculateDelay h attempt) s1))
          as (fuel2 & r2 & s2 & t2 & Hrest & Hwf2); [lia|lia|exact Hwf1|].
        exists (Nat.max fuel1 fuel2).
        rewrite execute_from_eq by lia. rewrite execute_body_eq.
        pose proof (executeWithRateLimit_more_fuel channelId (guarded channelId body)
                      fuel1 (Nat.max fuel1 fuel2) s _ Hop ltac:(lia)) as Hop'.
        change (operation (Nat.max fuel1 fuel2) s = Some (Throw e, s1, t1)) in Hop'.
        rewrite Hop', Hstop.
        rewrite (execute_from_more_fuel _ _ _ _ _ fuel2 (Nat.max fuel1 fuel2) Hrest
                   ltac:(lia)).
        eexists _, _, _. split; [reflexivity|exact Hwf2].
Qed.

Lemma request_settles_from (s : State W) :
  0 <= maxRetries h ->
  well_formed (service s) ->
  exists fuel r s' trace,
    (forall fuel', (fuel <= fuel')%nat ->
       request svc fuel' channelId deliver s = Some (r, s', trace))
    /\ well_formed (service s').
Proof.
  intros Hmax Hwf.
  destruct (execute_from_settles (Z.to_nat (maxRetries h)) 0 (VPrim JUndefined) s)
    as (fuel & r & s' & trace & Hrun & Hwf'); [lia|lia|exact Hwf|].
  exists fuel, r, s', trace. split; [|exact Hwf'].
  intros fuel' Hle. unfold request, execute. fold h. fold body.
  replace (Z.to_nat (maxRetries h + 1)) with (Datatypes.S (Z.to_nat (maxRetries h))) by lia.
  exact (execute_from_more_fuel _ _ _ _ _ fuel fuel' Hrun Hle).
Qed.

End RequestLiveness.


(** ** Polling *)

Section Polling.
Context {W : Type} `{Runtime W}.
Import RateLimitService.

Lemma acquisition_polls (cap rate : Q) (ref : BucketRef) (s : State W) trace s' :
  acquisition cap rate ref s trace s' ->
  trace = repeat (EvSleep (wait_interval rate)) (length trace).
Proof.
  induction 1 as [s b Hb Hge|s b trace s' Hb Hlt Hrest IH]; [reflexivity|].
  cbn [length repeat]. now rewrite <- IH.
Qed.

End Polling.

(** X13. [acquireToken] waits by polling: on a service with the
    constructor's rates its sleeps are some of 20 ms (waiting for the global
    bucket) followed by some of 200 ms (waiting for the channel's), whatever
    cooldown was signalled. *)
Theorem acquireToken_polls
    {W : Type} `{Runtime W} (fuel : nat) (c : string)
    (s : RateLimitService.State W) r s' trace :
  RateLimitService.well_formed (RateLimitService.service s) ->
  RateLimitService.acquireToken fuel c s = Some (r, s', trace) ->
  exists on_global on_channel : nat,
    trace = repeat (EvSleep 20) on_global ++ repeat (EvSleep 200) on_channel
    /\ sleeps trace = repeat 20%Q on_global ++ repeat 200%Q on_channel.
Proof.
  intros Hwf Hrun.
  destruct (acquireToken_sound fuel c s r s' trace Hwf Hrun)
    as [_ (s1 & t1 & t2 & Hglobal & Hchannel & ->)].
  apply acquisition_polls in Hglobal, Hchannel.
  change (wait_interval 50) with 20%Q in Hglobal.
  change (wait_interval 5) with 200%Q in Hchannel.
  exists (length t1), (length t2).
  assert (Hsleeps : forall ms n, sleeps (repeat (EvSleep ms) n) = repeat ms n).
  { intros ms n. induction n as [|n IH]; [reflexivity|]. cbn. now rewrite IH. }
  assert (Happ : forall xs ys, sleeps (xs ++ ys) = sleeps xs ++ sleeps ys).
  { intros xs ys. induction xs as [|[ms|threw inner] xs IH]; cbn; [reflexivity| |exact IH].
    now rewrite IH. }
  split; [now rewrite <- Hglobal, <- Hchannel|].
  rewrite Happ, Hglobal, Hchannel, !Hsleeps, !repeat_length. reflexivity.
Qed.

(** ** The budget of a notifier *)

(** X12. The budget of a notifier. The retry handler of its message
    service always has the default retryable codes; with [maxRetries] and
    [retryDelay] left out, a request invokes the rate-limited operation at
    most 4 times and backs off 1000, 2000 and 4000 ms in this order, 7000 ms
    at most in total. *)
Theorem notifier_budget
    {W C : Type} `{Runtime W} `{MessageService.DiscordClient W C} {T : Type}
    (options : DiscordNotifier.ClientOptions) (fuel : nat) (channelId : string)
    (deliver : C -> Async W T) (s : RateLimitService.State W) r s' trace :
  MessageService.request (DiscordNotifier.messageService options) fuel channelId deliver s
  = Some (r, s', trace) ->
  retryableCodes (MessageService.retryHandler (DiscordNotifier.messageService options))
  = [429; 500; 502; 503; 504]%Q
  /\ (DiscordNotifier.maxRetries options = None ->
      DiscordNotifier.retryDelay options = None ->
      (invocations trace <= 4)%nat
      /\ sleeps trace = firstn (invocations trace - 1) [1000; 2000; 4000]%Q
      /\ (total (sleeps trace) <= 7000)%Q).
Proof.
  intros Hrun. split; [reflexivity|].
  intros Hretries Hdelay.
  set (h := MessageService.retryHandler (DiscordNotifier.messageService options)) in *.
  assert (Hmax : maxRetries h = 3).
  { subst h. unfold DiscordNotifier.messageService, MessageService.new. cbn.
    now rewrite Hretries. }
  assert (Hbase : baseDelay h = 1000%Q).
  { subst h. unfold DiscordNotifier.messageService, MessageService.new. cbn.
    now rewrite Hdelay. }
  unfold MessageService.request in Hrun. fold h in Hrun.
  pose proof Hrun as Hattempts. apply execute_sound in Hattempts; [|lia].
  pose proof (attempts_invocations _ _ 0 _ _ _ _ Hattempts ltac:(lia)) as [Hone Hbudget].
  pose proof (attempts_sleeps _ _ 0 _ _ _ _ Hattempts) as Hsleeps.
  assert (Hn : (invocations trace <= 4)%nat) by lia.
  split; [exact Hn|].
  assert (Hlist : sleeps trace = firstn (invocations trace - 1) [1000; 2000; 4000]%Q).
  { rewrite Hsleeps. unfold backoff. rewrite Hbase.
    destruct (invocations trace) as [|[|[|[|[|n]]]]]; try lia; reflexivity. }
  split; [exact Hlist|].
  rewrite Hlist.
  destruct (invocations trace) as [|[|[|[|[|n]]]]]; try lia; vm_compute; discriminate.
Qed.

(** * The properties at concrete inputs *)

Lemma execute_trace_shape_witness :
  exists r s' trace,
    execute Examples.default_handler
      (MoreExamples.recovers_at 3000 MoreExamples.unavailable) 0%Q
    = Some (r, s', trace)
    /\ sleeps trace = [1000; 2000]%Q
    /\ exists failures s_last inner,
        trace = retried Examples.default_handler 0 failures ++ [EvCall (outcome r) inner]
        /\ MoreExamples.recovers_at 3000 MoreExamples.unavailable s_last
           = Some (r, s', inner)
        /\ Forall (fun failure =>
                     isRetryableError Examples.default_handler (fst failure) = true)
             failures
        /\ Z.of_nat (length failures) <= maxRetries Examples.default_handler
        /\ (forall e, r = Throw e ->
              isRetryableError Examples.default_handler e = false
              \/ Z.of_nat (length failures) = maxRetries Examples.default_handler).
Proof.
  eexists _, _, _. split; [vm_compute; reflexivity|]. split; [reflexivity|].
  eapply (execute_trace_shape Examples.default_handler
           (MoreExamples.recovers_at 3000 MoreExamples.unavailable) 0%Q).
  - vm_compute. discriminate.
  - vm_compute. reflexivity.
Defined.

Lemma execute_without_attempts_witness :
  execute MoreExamples.no_attempt (Examples.always_rejects Examples.forbidden) 0%Q
  = Some (Throw (A := unit) (PlainError "Max retries exceeded"), 0%Q, []).
Proof.
  apply (execute_without_attempts MoreExamples.no_attempt
           (Examples.always_rejects Examples.forbidden) 0%Q).
  vm_compute. reflexivity.
Defined.

Lemma total_backoff_witness :
  exists r s' trace,
    execute Examples.two_retries
      (Examples.always_rejects (RateLimitError 100 None)) (0%Q : Q)
    = Some (r, s', trace)
    /\ (total (sleeps trace)
        == baseDelay Examples.two_retries
           * (inject_Z (2 ^ Z.of_nat (invocations trace - 1)) - 1))%Q
    /\ (total (sleeps trace)
        <= baseDelay Examples.two_retries
           * (inject_Z (2 ^ maxRetries Examples.two_retries) - 1))%Q.
Proof.
  eexists _, _, _. split; [vm_compute; reflexivity|].
  eapply (total_backoff Examples.two_retries
           (Examples.always_rejects (RateLimitError 100 None)) (0%Q : Q)).
  - vm_compute. discriminate.
  - vm_compute. discriminate.
  - vm_compute. reflexivity.
Defined.

Lemma bucket_quota_witness :
  grants_on (RateLimitService.ChannelRef "c")
    (snd (RateLimitService.run MoreExamples.six_acquisitions (RateLimitService.new 0)))
  = [0; 0; 0; 0; 0]%Q
  /\ (inject_Z (Z.of_nat 5) <= 50 + (0 - 0) / 1000 * 50)%Q
  /\ exists before created after,
      MoreExamples.six_acquisitions
      = before ++ (created, RateLimitService.Ensure "c") :: after
      /\ (forall t, ~ In (t, RateLimitService.Ensure "c") before)
      /\ (inject_Z (Z.of_nat 5) <= 5 + (0 - created) / 1000 * 5)%Q.
Proof.
  assert (Hacq : acquisitions_only MoreExamples.six_acquisitions)
    by (repeat constructor).
  destruct (bucket_quota MoreExamples.six_acquisitions 4 0%Q Hacq)
    as (_ & Hglobal & Hchannel).
  split; [vm_compute; reflexivity|]. split.
  - apply (Hglobal 0%Q). vm_compute. reflexivity.
  - apply (Hchannel "c" (RateLimitService.new 0)); vm_compute; reflexivity.
Defined.


Lemma buckets_persist_witness :
  exists b',
    RateLimitService.deref (RateLimitService.ChannelRef "c")
      (fst (RateLimitService.run
              [(0%Q, RateLimitService.Deplete "c" 5000);
               (100%Q, RateLimitService.Poll (RateLimitService.ChannelRef "c"));
               (200%Q, RateLimitService.Reset)]
              (RateLimitService.service MoreExamples.acquired))) = Some b'
    /\ RateLimitService.capacity b' = 5%Q
    /\ RateLimitService.refillRate b' = 5%Q.
Proof.
  assert (Hb : exists b,
             RateLimitService.deref (RateLimitService.ChannelRef "c")
               (RateLimitService.service MoreExamples.acquired) = Some b
             /\ RateLimitService.capacity b = 5%Q
             /\ RateLimitService.refillRate b = 5%Q).
  { eexists. split; [vm_compute; reflexivity|]. split; reflexivity. }
  destruct Hb as (b & Hb & Hcap & Hrate).
  destruct (buckets_persist
              [(0%Q, RateLimitService.Deplete "c" 5000);
               (100%Q, RateLimitService.Poll (RateLimitService.ChannelRef "c"));
               (200%Q, RateLimitService.Reset)]
              (RateLimitService.service MoreExamples.acquired)
              (RateLimitService.ChannelRef "c") b Hb) as (b' & Hb' & Hcap' & Hrate').
  exists b'. split; [exact Hb'|]. split; congruence.
Defined.

Lemma cooldown_is_per_channel_witness :
  option_Forall2 (same_run_except "c")
    (RateLimitService.acquireToken 5 "d"
       {| RateLimitService.world := 0%Q;
          RateLimitService.service :=
            RateLimitService.handleRateLimit 0 "c" 5000 (RateLimitService.new 0) |})
    (RateLimitService.acquireToken 5 "d" Examples.fresh).
Proof.
  assert (Hne : "d" <> "c") by discriminate.
  destruct (cooldown_is_per_channel (W := Q) 5 "c" "d" Hne) as [Hsame Hsignal].
  apply Hsame; [reflexivity|]. apply Hsignal.
Defined.


Lemma stop_detaches_nothing_witness :
  length (Listening.eventListeners
            (Listening.calls
               [Listening.Listen; Listening.Stop; Listening.Listen; Listening.Stop;
                Listening.Listen]
               Listening.new)) = 3%nat
  /\ length (Listening.eventListeners
               (Listening.listen
                  (Listening.stop
                     (Listening.calls
                        [Listening.Listen; Listening.Stop; Listening.Listen;
                         Listening.Stop; Listening.Listen]
                        Listening.new))))
     = Datatypes.S
         (length (Listening.eventListeners
                    (Listening.calls
                       [Listening.Listen; Listening.Stop; Listening.Listen;
                        Listening.Stop; Listening.Listen]
                       Listening.new))).
Proof.
  split; [reflexivity|].
  destruct (stop_detaches_nothing
              [Listening.Listen; Listening.Stop; Listening.Listen; Listening.Stop;
               Listening.Listen]
              _ eq_refl) as (_ & _ & Hagain).
  apply Hagain. reflexivity.
Defined.

Lemma wrapError_verdict_witness :
  isRetryableError MoreExamples.retries_forbidden MoreExamples.missing_access = true
  /\ MessageService.wrapError MoreExamples.missing_access "c"
     = Some (Return (PermissionError "Missing Access" None (Some "c")))
  /\ isRetryableError MoreExamples.retries_forbidden
       (PermissionError "Missing Access" None (Some "c")) = false.
Proof.
  assert (Hwrap : MessageService.wrapError MoreExamples.missing_access "c"
                  = Some (Return (PermissionError "Missing Access" None (Some "c"))))
    by (vm_compute; reflexivity).
  split; [vm_compute; reflexivity|]. split; [exact Hwrap|].
  destruct (wrapError_verdict MoreExamples.retries_forbidden MoreExamples.missing_access
              "c" _ Hwrap) as [(Hsame & _)|(Hfatal & _)].
  - discriminate Hsame.
  - exact Hfatal.
Defined.

Lemma request_fails_without_retry_witness :
  MessageService.request MoreExamples.messages 5 "c"
    (fun _ => Examples.always_rejects MoreExamples.missing_access) Examples.fresh
  = Some (Throw (PermissionError "Missing Access" None (Some "c")),
          {| RateLimitService.world := 0%Q;
             RateLimitService.service :=
               RateLimitService.service MoreExamples.acquired |},
          [EvCall (Some (PermissionError "Missing Access" None (Some "c")))
             ([] ++ [] ++ [])])
  /\ MessageService.request MoreExamples.messages 5 "gone"
       (fun _ => Examples.always_rejects MoreExamples.missing_access) Examples.fresh
     = Some (Throw (ChannelNotFoundError "gone"),
             {| RateLimitService.world := 0%Q;
                RateLimitService.service :=
                  fst (RateLimitService.run
                         [(0%Q, RateLimitService.Poll RateLimitService.GlobalRef);
                          (0%Q, RateLimitService.Ensure "gone");
                          (0%Q, RateLimitService.Poll (RateLimitService.ChannelRef "gone"))]
                         (RateLimitService.new 0)) |},
             [EvCall (Some (ChannelNotFoundError "gone")) ([] ++ [])]).
Proof.
  assert (Hmax : 0 <= maxRetries (MessageService.retryHandler MoreExamples.messages))
    by (vm_compute; discriminate).
  split.
  - assert (Hacquire : RateLimitService.acquireToken 5 "c" Examples.fresh
                       = Some (Return tt, MoreExamples.acquired, []))
      by (vm_compute; reflexivity).
    destruct (request_fails_without_retry MoreExamples.messages 5 "c"
                (fun _ => Examples.always_rejects MoreExamples.missing_access)
                Examples.fresh MoreExamples.acquired [] Hmax Hacquire)
      as (_ & _ & Hdelivery).
    apply (Hdelivery "c" 0%Q [] MoreExamples.missing_access 0%Q []
             (Return (PermissionError "Missing Access" None (Some "c"))));
      try (vm_compute; reflexivity).
    right. left. vm_compute. reflexivity.
  - assert (Hacquire : RateLimitService.acquireToken 5 "gone" Examples.fresh
                       = Some (Return tt,
                               {| RateLimitService.world := 0%Q;
                                  RateLimitService.service :=
                                    fst (RateLimitService.run
                                           [(0%Q, RateLimitService.Poll
                                                    RateLimitService.GlobalRef);
                                            (0%Q, RateLimitService.Ensure "gone");
                                            (0%Q, RateLimitService.Poll
                                                    (RateLimitService.ChannelRef "gone"))]
                                           (RateLimitService.new 0)) |}, []))
      by (vm_compute; reflexivity).
    destruct (request_fails_without_retry MoreExamples.messages 5 "gone"
                (fun _ => Examples.always_rejects MoreExamples.missing_access)
                Examples.fresh _ [] Hmax Hacquire)
      as (Hmissing & _).
    apply (Hmissing 0%Q []). vm_compute. reflexivity.
Defined.


Lemma postError_never_throws_witness :
  DiscordNotifier.postError MoreExamples.errors_channel_down (ret tt)
    MoreExamples.with_error_channel 0%Q
  = Some (Return (Some "main"), 0%Q, [] ++ [] ++ []).
Proof.
  assert (Hembed : ret (S := Q) tt 0%Q = Some (Return tt, 0%Q, [])) by reflexivity.
  destruct (postError_never_throws MoreExamples.errors_channel_down (ret tt)
              MoreExamples.with_error_channel 0%Q tt 0%Q [] Hembed)
    as (_ & _ & Hfallback & _).
  apply (Hfallback "errors" Examples.forbidden 0%Q [] (Return "main") 0%Q []);
    try reflexivity.
  discriminate.
Defined.

Lemma truncate_length_witness :
  TextTruncator.truncate "Hello, world" 8 = "Hello..."
  /\ TextTruncator.length (TextTruncator.truncate "Hello, world" 8) = 8
  /\ TextTruncator.truncate "ab" 1 = "...".
Proof.
  destruct (truncate_length "Hello, world" 8) as (_ & _ & Hexact & _).
  destruct (truncate_length "ab" 1) as (_ & _ & _ & Hsmall).
  split; [reflexivity|]. split.
  - apply Hexact; [lia|]. vm_compute. reflexivity.
  - apply Hsmall; [lia| |discriminate]. vm_compute. reflexivity.
Defined.

Lemma truncate_idempotent_witness :
  TextTruncator.truncate (TextTruncator.truncate "Hello, world" 8) 8
  = TextTruncator.truncate "Hello, world" 8.
Proof.
  destruct (truncate_idempotent "Hello, world" 8) as (_ & Hagain & _).
  apply Hagain. lia.
Defined.

Lemma toDecimal_range_witness :
  ColorConverter.toDecimal MoreExamples.toUpperCase (ColorConverter.StringColor "blurple")
  = Return (ColorConverter.Finite 5793266)
  /\ ((ColorConverter.StringColor "blurple"
       = ColorConverter.NumberColor ColorConverter.NaN
       /\ ColorConverter.Finite 5793266 = ColorConverter.NaN)
      \/ exists q,
           ColorConverter.Finite 5793266 = ColorConverter.Finite q
           /\ (0 <= q <= 16777215)%Q
           /\ (forall s, ColorConverter.StringColor "blurple" = ColorConverter.StringColor s ->
                 exists z : Z, q = inject_Z z /\ 0 <= z <= 16777215))
  /\ ColorConverter.toDecimal MoreExamples.toUpperCase
       (ColorConverter.NumberColor (ColorConverter.Finite (1 # 2)))
     = Return (ColorConverter.Finite (1 # 2))
  /\ ColorConverter.toDecimal MoreExamples.toUpperCase
       (ColorConverter.NumberColor ColorConverter.NaN)
     = Return ColorConverter.NaN.
Proof.
  destruct (toDecimal_range MoreExamples.toUpperCase (ColorConverter.StringColor "blurple"))
    as (Hrange & _).
  destruct (toDecimal_range MoreExamples.toUpperCase
              (ColorConverter.NumberColor (ColorConverter.Finite (1 # 2))))
    as (_ & _ & Hnumber & _).
  destruct (toDecimal_range MoreExamples.toUpperCase
              (ColorConverter.NumberColor ColorConverter.NaN))
    as (_ & _ & _ & Hnan & _).
  split; [vm_compute; reflexivity|]. split; [|split].
  - apply Hrange. vm_compute. reflexivity.
  - apply (Hnumber (1 # 2)%Q); [reflexivity|]. split; vm_compute; discriminate.
  - apply Hnan. reflexivity.
Defined.

Lemma fromHex_round_trip_witness :
  hex true 6 16734003 = "FF5733"
  /\ ColorConverter.fromHex (hex true 6 16734003) = Return (inject_Z 16734003)
  /\ ColorConverter.toDecimal MoreExamples.toUpperCase
       (ColorConverter.StringColor (String.append "#" (hex false 6 16734003)))
     = Return (ColorConverter.Finite (inject_Z 16734003)).
Proof.
  assert (Hn : 0 <= 16734003 <= 16777215) by lia.
  destruct (fromHex_round_trip MoreExamples.toUpperCase true 16734003 Hn)
    as (Hplain & _).
  destruct (fromHex_round_trip MoreExamples.toUpperCase false 16734003 Hn)
    as (_ & _ & _ & Hhash & _).
  split; [vm_compute; reflexivity|]. split; [exact Hplain|exact Hhash].
Defined.

Lemma acquireToken_polls_witness :
  exists r s' trace on_global on_channel,
    RateLimitService.acquireToken 40 "c"
      {| RateLimitService.world := 0%Q;
         RateLimitService.service :=
           RateLimitService.handleRateLimit 0 "c" 1000 (RateLimitService.new 0) |}
    = Some (r, s', trace)
    /\ trace = repeat (EvSleep 20) on_global ++ repeat (EvSleep 200) on_channel
    /\ sleeps trace = repeat 20%Q on_global ++ repeat 200%Q on_channel.
Proof.
  assert (Hwf : RateLimitService.well_formed
                  (RateLimitService.service
                     {| RateLimitService.world := 0%Q;
                        RateLimitService.service :=
                          RateLimitService.handleRateLimit 0 "c" 1000
                            (RateLimitService.new 0) |}))
    by (apply well_formed_handleRateLimit, well_formed_new).
  assert (Hrun : exists r s' trace,
             RateLimitService.acquireToken 40 "c"
               {| RateLimitService.world := 0%Q;
                  RateLimitService.service :=
                    RateLimitService.handleRateLimit 0 "c" 1000 (RateLimitService.new 0) |}
             = Some (r, s', trace))
    by (eexists _, _, _; vm_compute; reflexivity).
  destruct Hrun as (r & s' & trace & Hrun).
  destruct (acquireToken_polls 40 "c" _ r s' trace Hwf Hrun)
    as (k & m & Htrace & Hsleeps).
  exists r, s', trace, k, m. split; [exact Hrun|]. split; assumption.
Defined.

Lemma notifier_budget_witness :
  exists r s' trace,
    MessageService.request (DiscordNotifier.messageService MoreExamples.plain_notifier)
      40 "c" (fun _ => Examples.always_rejects MoreExamples.unavailable) Examples.fresh
    = Some (r, s', trace)
    /\ (invocations trace <= 4)%nat
    /\ sleeps trace = firstn (invocations trace - 1) [1000; 2000; 4000]%Q
    /\ (total (sleeps trace) <= 7000)%Q.
Proof.
  eexists _, _, _. split; [vm_compute; reflexivity|].
  eapply (notifier_budget MoreExamples.plain_notifier 40 "c"
            (fun _ => Examples.always_rejects MoreExamples.unavailable) Examples.fresh).
  - vm_compute. reflexivity.
  - reflexivity.
  - reflexivity.
Defined.

Lemma rate_limit_passes_the_guard_witness :
  exists s',
    RateLimitService.executeWithRateLimit 5 "c"
      (MessageService.guarded "c" (Examples.always_rejects Examples.cooldown_2500))
      Examples.fresh
    = Some (Throw (RateLimitError (cooldown Examples.cooldown_2500) (Some "c")), s', [] ++ [])
    /\ cooldown Examples.cooldown_2500 = 2500%Q
    /\ cooling_channel (0 + cooldown Examples.cooldown_2500) "c"
         (RateLimitService.service s').
Proof.
  assert (Hacquire : RateLimitService.acquireToken 5 "c" Examples.fresh
                     = Some (Return tt, MoreExamples.acquired, []))
    by (vm_compute; reflexivity).
  assert (Hsignal : signals_429 Examples.cooldown_2500).
  { exists "status", 429%Q. split; [|split; reflexivity].
    apply list_elem_of_In. left. reflexivity. }
  assert (Hnumeric : numeric_cooldown_fields Examples.cooldown_2500).
  { intros key [-> | ->] Htruthy; [eexists; vm_compute; reflexivity|].
    vm_compute in Htruthy. discriminate. }
  destruct (rate_limit_passes_the_guard (T := unit) 5 "c"
              (Examples.always_rejects Examples.cooldown_2500)
              Examples.fresh MoreExamples.acquired [] Examples.cooldown_2500 0%Q []
              Hacquire eq_refl Hsignal eq_refl eq_refl Hnumeric)
    as (Hrun & _ & Hcooling).
  eexists. split; [exact Hrun|]. split; [reflexivity|exact Hcooling].
Defined.
